(** * flow2api: credential-pool scheduler and generation orchestrator

    A shallow embedding of the Go services layer
    ([internal/services]: [ConcurrencyManager], [LoadBalancer],
    [TokenManager], [GenerationHandler]) together with the parts of
    [internal/models] and [internal/database] they rely on, and of the
    check of the API key of [internal/api], and the properties of the
    specification proved about them. *)

From Stdlib Require Import ZArith QArith Lia.
From Stdlib Require Import Floats.SpecFloat.
From stdpp Require Import base option list gmap strings pretty.

Local Open Scope Z_scope.
Local Set Warnings "-register-all".

(* ===================================================================== *)
(** * Go machine integers, floats and time *)
(* ===================================================================== *)

Module GoInt.

(** Go's [int] on the 64-bit targets the service is built for: a value of
    type [int] is a [Z] in [[int_min, int_max]], and arithmetic wraps. *)
Definition int_min : Z := - 2 ^ 63.
Definition int_max : Z := 2 ^ 63 - 1.

Definition is_int (z : Z) : Prop := int_min <= z <= int_max.

Definition wrap (z : Z) : Z := (z + 2 ^ 63) mod 2 ^ 64 - 2 ^ 63.

(** [x++] and [x--] on an [int]. *)
Definition incr (z : Z) : Z := wrap (z + 1).
Definition decr (z : Z) : Z := wrap (z - 1).

End GoInt.

Module GoFloat.

(** A [float64] is a binary64 number of IEEE 754, with the operations of
    the specification of floating-point arithmetic of the standard library,
    which round to the nearest, ties to even. *)
Definition float64 : Type := spec_float.

Definition prec : Z := 53.
Definition emax : Z := 1024.

(** [float64(n)] of an integer [n], and the constant [n] as a [float64]. *)
Definition float64_of_int (n : Z) : float64 := binary_normalize prec emax n 0 false.

(** [x + y], [x / y], [x > y] and [x >= y] *)
Definition fadd (x y : float64) : float64 := SFadd prec emax x y.
Definition fdiv (x y : float64) : float64 := SFdiv prec emax x y.
Definition fgt (x y : float64) : bool := SFltb y x.
Definition fge (x y : float64) : bool := SFleb y x.

End GoFloat.

Import GoFloat.

Module GoTime.

(** A [time.Time] is an instant, kept as nanoseconds since the Unix epoch;
    a [time.Duration] is an [int64] count of nanoseconds.  The time zone
    and the monotonic reading of a [time.Time] play no role in [Before]
    and [Sub] on wall-clock UTC values and are left out. *)
Definition Time := Z.
Definition Duration := Z.

Definition Nanosecond : Duration := 1.
Definition Second : Duration := 1000000000.
Definition Minute : Duration := 60 * Second.
Definition Hour : Duration := 60 * Minute.

Definition minDuration : Duration := - 2 ^ 63.
Definition maxDuration : Duration := 2 ^ 63 - 1.

(** [t.Before(u)] *)
Definition Before (t u : Time) : bool := t <? u.

(** [t.Sub(u)]: the difference, clamped to what a [Duration] can hold. *)
Definition Sub (t u : Time) : Duration :=
  if t - u <? minDuration then minDuration
  else if maxDuration <? t - u then maxDuration
  else t - u.

(** [time.Until(t)] with the clock reading [now]. *)
Definition Until (now t : Time) : Duration := Sub t now.

(** [d.Seconds()]: [sec := d / Second; nsec := d % Second] and
    [float64(sec) + float64(nsec)/1e9], with the division and the remainder
    of Go, which truncate. *)
Definition Seconds (d : Duration) : float64 :=
  let sec := Z.quot d Second in
  let nsec := Z.rem d Second in
  fadd (float64_of_int sec) (fdiv (float64_of_int nsec) (float64_of_int 1000000000)).

End GoTime.

Import GoInt GoTime.

(* ===================================================================== *)
(** * internal/models *)
(* ===================================================================== *)

(** [models.Token].  The fields [Email], [Name], [Remark], [CreatedAt] and
    [UseCount] are only logged or displayed and are left out; a [*time.Time]
    is an [option Time], and a NULL text column reads as the empty string,
    as [Database.GetToken] leaves the field at its zero value. *)
Record Token := mkToken {
  ID : Z;
  ST : string;
  AT : string;
  ATExpires : option Time;
  IsActive : bool;
  LastUsedAt : option Time;
  Credits : Z;
  UserPaygateTier : string;
  CurrentProjectID : string;
  CurrentProjectName : string;
  ImageEnabled : bool;
  VideoEnabled : bool;
  ImageConcurrency : Z;
  VideoConcurrency : Z;
  BanReason : string;
  BannedAt : option Time
}.

(** [models.TokenStats] (timestamps of the last success and error left out). *)
Record TokenStats := mkTokenStats {
  ImageCount : Z;
  VideoCount : Z;
  SuccessCount : Z;
  ErrorCount : Z;
  TodayImageCount : Z;
  TodayVideoCount : Z;
  TodayErrorCount : Z;
  TodayDate : option string;
  ConsecutiveErrorCount : Z
}.

(** [models.AdminConfig], the part [RecordError] reads. *)
Record AdminConfig := mkAdminConfig {
  ErrorBanThreshold : Z
}.

(** [models.ModelConfig] *)
Record ModelConfig := mkModelConfig {
  Type_ : string;
  VideoType : string;
  ModelName : string;
  ModelKey : string;
  AspectRatio : string;
  SupportsImages : bool;
  MinImages : Z;
  MaxImages : Z
}.

(** [models.ModelConfigs] *)
Definition ModelConfigs : list (string * ModelConfig) :=
  [
    ("gemini-2.5-flash-image-landscape",
     {| Type_ := "image"; VideoType := ""; ModelName := "GEM_PIX"; ModelKey := "";
        AspectRatio := "IMAGE_ASPECT_RATIO_LANDSCAPE"; SupportsImages := false; MinImages := 0; MaxImages := 0 |});
    ("gemini-2.5-flash-image-portrait",
     {| Type_ := "image"; VideoType := ""; ModelName := "GEM_PIX"; ModelKey := "";
        AspectRatio := "IMAGE_ASPECT_RATIO_PORTRAIT"; SupportsImages := false; MinImages := 0; MaxImages := 0 |});
    ("gemini-3.0-pro-image-landscape",
     {| Type_ := "image"; VideoType := ""; ModelName := "GEM_PIX_2"; ModelKey := "";
        AspectRatio := "IMAGE_ASPECT_RATIO_LANDSCAPE"; SupportsImages := false; MinImages := 0; MaxImages := 0 |});
    ("gemini-3.0-pro-image-portrait",
     {| Type_ := "image"; VideoType := ""; ModelName := "GEM_PIX_2"; ModelKey := "";
        AspectRatio := "IMAGE_ASPECT_RATIO_PORTRAIT"; SupportsImages := false; MinImages := 0; MaxImages := 0 |});
    ("imagen-4.0-generate-preview-landscape",
     {| Type_ := "image"; VideoType := ""; ModelName := "IMAGEN_3_5"; ModelKey := "";
        AspectRatio := "IMAGE_ASPECT_RATIO_LANDSCAPE"; SupportsImages := false; MinImages := 0; MaxImages := 0 |});
    ("imagen-4.0-generate-preview-portrait",
     {| Type_ := "image"; VideoType := ""; ModelName := "IMAGEN_3_5"; ModelKey := "";
        AspectRatio := "IMAGE_ASPECT_RATIO_PORTRAIT"; SupportsImages := false; MinImages := 0; MaxImages := 0 |});
    ("veo_3_1_t2v_fast_portrait",
     {| Type_ := "video"; VideoType := "t2v"; ModelName := ""; ModelKey := "veo_3_1_t2v_fast_portrait";
        AspectRatio := "VIDEO_ASPECT_RATIO_PORTRAIT"; SupportsImages := false; MinImages := 0; MaxImages := 0 |});
    ("veo_3_1_t2v_fast_landscape",
     {| Type_ := "video"; VideoType := "t2v"; ModelName := ""; ModelKey := "veo_3_1_t2v_fast";
        AspectRatio := "VIDEO_ASPECT_RATIO_LANDSCAPE"; SupportsImages := false; MinImages := 0; MaxImages := 0 |});
    ("veo_2_1_fast_d_15_t2v_portrait",
     {| Type_ := "video"; VideoType := "t2v"; ModelName := ""; ModelKey := "veo_2_1_fast_d_15_t2v";
        AspectRatio := "VIDEO_ASPECT_RATIO_PORTRAIT"; SupportsImages := false; MinImages := 0; MaxImages := 0 |});
    ("veo_2_1_fast_d_15_t2v_landscape",
     {| Type_ := "video"; VideoType := "t2v"; ModelName := ""; ModelKey := "veo_2_1_fast_d_15_t2v";
        AspectRatio := "VIDEO_ASPECT_RATIO_LANDSCAPE"; SupportsImages := false; MinImages := 0; MaxImages := 0 |});
    ("veo_2_0_t2v_portrait",
     {| Type_ := "video"; VideoType := "t2v"; ModelName := ""; ModelKey := "veo_2_0_t2v";
        AspectRatio := "VIDEO_ASPECT_RATIO_PORTRAIT"; SupportsImages := false; MinImages := 0; MaxImages := 0 |});
    ("veo_2_0_t2v_landscape",
     {| Type_ := "video"; VideoType := "t2v"; ModelName := ""; ModelKey := "veo_2_0_t2v";
        AspectRatio := "VIDEO_ASPECT_RATIO_LANDSCAPE"; SupportsImages := false; MinImages := 0; MaxImages := 0 |});
    ("veo_3_1_i2v_s_fast_fl_portrait",
     {| Type_ := "video"; VideoType := "i2v"; ModelName := ""; ModelKey := "veo_3_1_i2v_s_fast_fl";
        AspectRatio := "VIDEO_ASPECT_RATIO_PORTRAIT"; SupportsImages := true; MinImages := 1; MaxImages := 2 |});
    ("veo_3_1_i2v_s_fast_fl_landscape",
     {| Type_ := "video"; VideoType := "i2v"; ModelName := ""; ModelKey := "veo_3_1_i2v_s_fast_fl";
        AspectRatio := "VIDEO_ASPECT_RATIO_LANDSCAPE"; SupportsImages := true; MinImages := 1; MaxImages := 2 |});
    ("veo_2_1_fast_d_15_i2v_portrait",
     {| Type_ := "video"; VideoType := "i2v"; ModelName := ""; ModelKey := "veo_2_1_fast_d_15_i2v";
        AspectRatio := "VIDEO_ASPECT_RATIO_PORTRAIT"; SupportsImages := true; MinImages := 1; MaxImages := 2 |});
    ("veo_2_1_fast_d_15_i2v_landscape",
     {| Type_ := "video"; VideoType := "i2v"; ModelName := ""; ModelKey := "veo_2_1_fast_d_15_i2v";
        AspectRatio := "VIDEO_ASPECT_RATIO_LANDSCAPE"; SupportsImages := true; MinImages := 1; MaxImages := 2 |});
    ("veo_2_0_i2v_portrait",
     {| Type_ := "video"; VideoType := "i2v"; ModelName := ""; ModelKey := "veo_2_0_i2v";
        AspectRatio := "VIDEO_ASPECT_RATIO_PORTRAIT"; SupportsImages := true; MinImages := 1; MaxImages := 2 |});
    ("veo_2_0_i2v_landscape",
     {| Type_ := "video"; VideoType := "i2v"; ModelName := ""; ModelKey := "veo_2_0_i2v";
        AspectRatio := "VIDEO_ASPECT_RATIO_LANDSCAPE"; SupportsImages := true; MinImages := 1; MaxImages := 2 |});
    ("veo_3_0_r2v_fast_portrait",
     {| Type_ := "video"; VideoType := "r2v"; ModelName := ""; ModelKey := "veo_3_0_r2v_fast";
        AspectRatio := "VIDEO_ASPECT_RATIO_PORTRAIT"; SupportsImages := true; MinImages := 0; MaxImages := (-1) |});
    ("veo_3_0_r2v_fast_landscape",
     {| Type_ := "video"; VideoType := "r2v"; ModelName := ""; ModelKey := "veo_3_0_r2v_fast";
        AspectRatio := "VIDEO_ASPECT_RATIO_LANDSCAPE"; SupportsImages := true; MinImages := 0; MaxImages := (-1) |})
  ].

Fixpoint lookup_model (model : string) (table : list (string * ModelConfig))
  : option ModelConfig :=
  match table with
  | [] => None
  | (name, c) :: rest => if String.eqb name model then Some c else lookup_model model rest
  end.

(* ===================================================================== *)
(** * ConcurrencyManager *)
(* ===================================================================== *)

Record Limit := mkLimit {
  imageLimit : Z;
  videoLimit : Z
}.

Record ConcurrencyManager := mkCM {
  imageSlots : gmap Z Z;
  videoSlots : gmap Z Z;
  limits : gmap Z Limit
}.

(** Reading a Go map at a missing key yields the zero value. *)
Definition slot_get (m : gmap Z Z) (tokenID : Z) : Z := default 0 (m !! tokenID).

Definition NewConcurrencyManager : ConcurrencyManager :=
  {| imageSlots := ∅; videoSlots := ∅; limits := ∅ |}.

Definition set_limit (cm : ConcurrencyManager) (tokenID : Z) (l : Limit)
  : ConcurrencyManager :=
  {| imageSlots := imageSlots cm; videoSlots := videoSlots cm;
     limits := <[tokenID := l]> (limits cm) |}.

Definition Initialize (tokens : list Token) (cm : ConcurrencyManager)
  : ConcurrencyManager :=
  foldl (fun cm token =>
           set_limit cm (ID token)
             {| imageLimit := ImageConcurrency token;
                videoLimit := VideoConcurrency token |})
        cm tokens.

Definition UpdateTokenLimits (tokenID imageLimit videoLimit : Z)
  (cm : ConcurrencyManager) : ConcurrencyManager :=
  set_limit cm tokenID {| imageLimit := imageLimit; videoLimit := videoLimit |}.

Definition CanAcquireImage (tokenID : Z) (cm : ConcurrencyManager) : bool :=
  match limits cm !! tokenID with
  | None => true
  | Some limit =>
      if imageLimit limit <? 0 then true
      else slot_get (imageSlots cm) tokenID <? imageLimit limit
  end.

Definition CanAcquireVideo (tokenID : Z) (cm : ConcurrencyManager) : bool :=
  match limits cm !! tokenID with
  | None => true
  | Some limit =>
      if videoLimit limit <? 0 then true
      else slot_get (videoSlots cm) tokenID <? videoLimit limit
  end.

Definition incr_image (tokenID : Z) (cm : ConcurrencyManager) : ConcurrencyManager :=
  {| imageSlots := <[tokenID := incr (slot_get (imageSlots cm) tokenID)]> (imageSlots cm);
     videoSlots := videoSlots cm; limits := limits cm |}.

Definition incr_video (tokenID : Z) (cm : ConcurrencyManager) : ConcurrencyManager :=
  {| imageSlots := imageSlots cm;
     videoSlots := <[tokenID := incr (slot_get (videoSlots cm) tokenID)]> (videoSlots cm);
     limits := limits cm |}.

Definition AcquireImage (tokenID : Z) (cm : ConcurrencyManager)
  : bool * ConcurrencyManager :=
  match limits cm !! tokenID with
  | None => (true, incr_image tokenID cm)
  | Some limit =>
      if imageLimit limit <? 0 then (true, incr_image tokenID cm)
      else if imageLimit limit <=? slot_get (imageSlots cm) tokenID then (false, cm)
      else (true, incr_image tokenID cm)
  end.

Definition ReleaseImage (tokenID : Z) (cm : ConcurrencyManager) : ConcurrencyManager :=
  if 0 <? slot_get (imageSlots cm) tokenID then
    {| imageSlots := <[tokenID := decr (slot_get (imageSlots cm) tokenID)]> (imageSlots cm);
       videoSlots := videoSlots cm; limits := limits cm |}
  else cm.

Definition AcquireVideo (tokenID : Z) (cm : ConcurrencyManager)
  : bool * ConcurrencyManager :=
  match limits cm !! tokenID with
  | None => (true, incr_video tokenID cm)
  | Some limit =>
      if videoLimit limit <? 0 then (true, incr_video tokenID cm)
      else if videoLimit limit <=? slot_get (videoSlots cm) tokenID then (false, cm)
      else (true, incr_video tokenID cm)
  end.

Definition ReleaseVideo (tokenID : Z) (cm : ConcurrencyManager) : ConcurrencyManager :=
  if 0 <? slot_get (videoSlots cm) tokenID then
    {| imageSlots := imageSlots cm;
       videoSlots := <[tokenID := decr (slot_get (videoSlots cm) tokenID)]> (videoSlots cm);
       limits := limits cm |}
  else cm.

(** The two media kinds, to speak about the image and the video operations
    at once. *)
Inductive Kind := KImage | KVideo.

#[global] Instance Kind_eq_dec : EqDecision Kind.
Proof. solve_decision. Defined.

Definition canAcquire (k : Kind) : Z -> ConcurrencyManager -> bool :=
  match k with KImage => CanAcquireImage | KVideo => CanAcquireVideo end.

Definition acquire (k : Kind) : Z -> ConcurrencyManager -> bool * ConcurrencyManager :=
  match k with KImage => AcquireImage | KVideo => AcquireVideo end.

Definition release (k : Kind) : Z -> ConcurrencyManager -> ConcurrencyManager :=
  match k with KImage => ReleaseImage | KVideo => ReleaseVideo end.

(** The counter of a credential for a kind, and its stored limit if any. *)
Definition counter (k : Kind) (cm : ConcurrencyManager) (tokenID : Z) : Z :=
  match k with
  | KImage => slot_get (imageSlots cm) tokenID
  | KVideo => slot_get (videoSlots cm) tokenID
  end.

Definition limit_of (k : Kind) (cm : ConcurrencyManager) (tokenID : Z) : option Z :=
  match k with
  | KImage => imageLimit <$> limits cm !! tokenID
  | KVideo => videoLimit <$> limits cm !! tokenID
  end.

(** The state after a granted [acquire]. *)
Definition granted (k : Kind) (id : Z) (cm : ConcurrencyManager) : ConcurrencyManager :=
  match k with KImage => incr_image id cm | KVideo => incr_video id cm end.

(** Whether the stored limit is met. *)
Definition limit_met (k : Kind) (id : Z) (cm : ConcurrencyManager) : bool :=
  match limit_of k cm id with
  | Some L => (0 <=? L) && (L <=? counter k cm id)
  | None => false
  end.

(** No limit stands in the way of [tokenID]: none is stored, or a negative one. *)
Definition unlimited (k : Kind) (tokenID : Z) (cm : ConcurrencyManager) : Prop :=
  match limit_of k cm tokenID with
  | Some L => L < 0
  | None => True
  end.

(** [n] calls of [release] in a row. *)
Fixpoint release_n (k : Kind) (tokenID : Z) (n : nat) (cm : ConcurrencyManager)
  : ConcurrencyManager :=
  match n with
  | O => cm
  | S n' => release_n k tokenID n' (release k tokenID cm)
  end.

(** [n] calls of [acquire] in a row, with the answers in call order. *)
Fixpoint acquire_n (k : Kind) (tokenID : Z) (n : nat) (cm : ConcurrencyManager)
  : list bool * ConcurrencyManager :=
  match n with
  | O => ([], cm)
  | S n' =>
      let '(b, cm1) := acquire k tokenID cm in
      let '(bs, cm2) := acquire_n k tokenID n' cm1 in
      (b :: bs, cm2)
  end.

(** The calls a client of the manager can make, and their effect. *)
Inductive Op :=
| OpInitialize (tokens : list Token)
| OpUpdateTokenLimits (tokenID imageLimit videoLimit : Z)
| OpAcquire (k : Kind) (tokenID : Z)
| OpRelease (k : Kind) (tokenID : Z).

Definition step (cm : ConcurrencyManager) (op : Op) : ConcurrencyManager :=
  match op with
  | OpInitialize tokens => Initialize tokens cm
  | OpUpdateTokenLimits tokenID il vl => UpdateTokenLimits tokenID il vl cm
  | OpAcquire k tokenID => snd (acquire k tokenID cm)
  | OpRelease k tokenID => release k tokenID cm
  end.

Definition run (cm : ConcurrencyManager) (ops : list Op) : ConcurrencyManager :=
  foldl step cm ops.

(** Whether [op] stores a limit pair for [tokenID]. *)
Definition registers (tokenID : Z) (op : Op) : bool :=
  match op with
  | OpInitialize tokens => existsb (fun token => ID token =? tokenID) tokens
  | OpUpdateTokenLimits id _ _ => id =? tokenID
  | _ => false
  end.

(** The counter is within the stored limit, or there is none to be within. *)
Definition within_limit (k : Kind) (tokenID : Z) (cm : ConcurrencyManager) : bool :=
  match limit_of k cm tokenID with
  | Some L => (L <? 0) || (counter k cm tokenID <=? L)
  | None => true
  end.

(** Every [Initialize] and [UpdateTokenLimits] of [ops], run from [cm],
    leaves the counter of [tokenID] within the limit it has just stored. *)
Fixpoint limits_stored_within (k : Kind) (tokenID : Z) (cm : ConcurrencyManager)
  (ops : list Op) : Prop :=
  match ops with
  | [] => True
  | op :: rest =>
      match op with
      | OpInitialize _ | OpUpdateTokenLimits _ _ _ =>
          within_limit k tokenID (step cm op) = true
      | _ => True
      end
      /\ limits_stored_within k tokenID (step cm op) rest
  end.

(* ===================================================================== *)
(** * Errors, JSON values and the outside world *)
(* ===================================================================== *)

(** A Go [error] is kept as its message; [None] is [nil]. *)
Definition error := option string.

(** The result of a call returning [(T, error)] with exactly one of the
    two set. *)
Inductive result (A : Type) :=
| Ok (a : A)
| Err (e : string).
Arguments Ok {A} a.
Arguments Err {A} e.

(** Values decoded by [encoding/json] into [interface{}]; an object is kept
    as its key/value pairs, and a number (a [float64]) as an exact
    rational. *)
Inductive json :=
| JNull
| JBool (b : bool)
| JNumber (q : Q)
| JString (s : string)
| JArray (l : list json)
| JObject (m : list (string * json)).

Definition jobject := list (string * json).

Fixpoint jget (key : string) (m : jobject) : option json :=
  match m with
  | [] => None
  | (k, v) :: rest => if String.eqb k key then Some v else jget key rest
  end.

(** [m[key].(string)], [m[key].([]interface{})], [m[key].(map[string]interface{})]
    and [m[key].(float64)]: [None] when the assertion fails. *)
Definition jstring (key : string) (m : jobject) : option string :=
  match jget key m with Some (JString s) => Some s | _ => None end.

Definition jarray (key : string) (m : jobject) : option (list json) :=
  match jget key m with Some (JArray l) => Some l | _ => None end.

Definition jmap (key : string) (m : jobject) : option jobject :=
  match jget key m with Some (JObject o) => Some o | _ => None end.

Definition jfloat (key : string) (m : jobject) : option Q :=
  match jget key m with Some (JNumber q) => Some q | _ => None end.

Definition as_map (v : json) : option jobject :=
  match v with JObject o => Some o | _ => None end.

(** [int(f)] for a [float64] within the range of [int]: truncation. *)
Definition int_of_float (q : Q) : Z := Z.quot (Qnum q) (Zpos (Qden q)).

(** [strings.Contains] and [strings.HasPrefix] *)
Definition Contains (s substr : string) : bool :=
  match String.index 0 substr s with Some _ => true | None => false end.

Definition HasPrefix (s prefix : string) : bool := String.prefix prefix s.

(** What a request does to the outside world, in the order it happens:
    the calls of [client.FlowClient], the download made by [cacheFile],
    the sleeps, and the strings sent on [chunkChan] (kept as the arguments
    of the function that renders them). *)
Inductive Event :=
| EvSTToAT (st : string)
| EvGetCredits (at_ : string)
| EvCreateProject (st title : string)
| EvUploadImage (at_ : string) (imageBytes : list Byte.byte) (aspectRatio : string)
| EvGenerateImage (at_ projectID prompt modelName aspectRatio : string)
    (imageInputs : list jobject)
| EvGenerateVideoText (at_ projectID prompt modelKey aspectRatio userPaygateTier : string)
| EvGenerateVideoReferenceImages (at_ projectID prompt modelKey aspectRatio : string)
    (referenceImages : list jobject) (userPaygateTier : string)
| EvGenerateVideoStartEnd
    (at_ projectID prompt modelKey aspectRatio startMediaID endMediaID userPaygateTier : string)
| EvCheckVideoStatus (at_ : string) (operations : list jobject)
| EvCacheFile (urlStr mediaType : string)
| EvSleep (d : Duration)
| EvStreamChunk (content finishReason : string) (isContent : bool)
| EvCompletionResponse (content mediaType : string) (isAvailabilityCheck : bool)
| EvErrorResponse (errMsg : string)
| EvClose.

(** The part of [config.Config] the services read.  [PollInterval] is the
    [time.Duration] that [pollVideoResult] computes from the configured
    number of seconds. *)
Record Config := mkConfig {
  MaxPollAttempts : Z;
  PollInterval : Duration;
  CacheEnabled : bool
}.

(** Everything the services do not decide themselves.  The upstream
    service and the clock answer as a function of all that has happened so
    far (the history ends with the call being answered), so that any
    sequence of answers can be described. *)
Record Env := mkEnv {
  cfg : Config;
  (** [time.Now()] *)
  Now : list Event -> Time;
  (** [t.Format("2006-01-02")] *)
  FormatDate : Time -> string;
  (** [t.Format("Jan 02 - 15:04")] *)
  FormatProjectName : Time -> string;
  (** [time.Parse(time.RFC3339, s)], [None] when it fails *)
  ParseRFC3339 : string -> option Time;
  (** answers of the calls returning [(map[string]interface{}, error)] *)
  answer_map : list Event -> result jobject;
  (** answers of the calls returning [(string, error)] *)
  answer_string : list Event -> result string;
  (** [min(int(float64(attempt)/float64(maxAttempts)*100), 95)]; the
      floating-point computation is not modelled *)
  progress_percent : Z -> Z -> Z
}.

(* ===================================================================== *)
(** * internal/database *)
(* ===================================================================== *)

(** [models.Project] and [models.Task] *)
Record Project := mkProject {
  ProjectID : string;
  ProjectTokenID : Z;
  ProjectName : string;
  ToolName : string;
  ProjectIsActive : bool
}.

Record Task := mkTask {
  TaskID : string;
  TokenID : Z;
  Model : string;
  Prompt : string;
  Status : string;
  Progress : Z;
  ResultURLs : list string;
  CompletedAt : option Time
}.

(** The tables the services use.  [tokens] lists the rows of the table of
    that name by increasing [id], its primary key (the order in which
    [GetAllTokens] and [GetActiveTokens] return them); [token_stats] is
    keyed by [token_id], and [admin_config] is the row with [id = 1] if it
    exists.  Columns of type INTEGER are unbounded integers, and failures of
    the SQL engine itself (I/O, a closed handle) are not modelled: a
    statement fails only where its result says so, as [sql.ErrNoRows]. *)
Record Database := mkDB {
  tokens : list Token;
  token_stats : gmap Z TokenStats;
  admin_config : option AdminConfig;
  projects : list Project;
  tasks : list Task
}.

Definition ErrNoRows : string := "sql: no rows in result set".

(** One entry of the [updates] map of [Database.UpdateToken]: a column and
    its new value ([nil] for a nullable column is [None]). *)
Inductive Update :=
| is_active (b : bool)
| ban_reason (r : option string)
| banned_at (bt : option Time)
| at_ (s : string)
| at_expires (e : Time)
| credits (n : Z)
| last_used_at (u : Time)
| current_project_id (s : string)
| current_project_name (s : string).

Definition apply_update (t : Token) (u : Update) : Token :=
  match u with
  | is_active b =>
      {| ID := ID t; ST := ST t; AT := AT t; ATExpires := ATExpires t; IsActive := b; LastUsedAt := LastUsedAt t; Credits := Credits t; UserPaygateTier := UserPaygateTier t; CurrentProjectID := CurrentProjectID t; CurrentProjectName := CurrentProjectName t; ImageEnabled := ImageEnabled t; VideoEnabled := VideoEnabled t; ImageConcurrency := ImageConcurrency t; VideoConcurrency := VideoConcurrency t; BanReason := BanReason t; BannedAt := BannedAt t |}
  | ban_reason r =>
      {| ID := ID t; ST := ST t; AT := AT t; ATExpires := ATExpires t; IsActive := IsActive t; LastUsedAt := LastUsedAt t; Credits := Credits t; UserPaygateTier := UserPaygateTier t; CurrentProjectID := CurrentProjectID t; CurrentProjectName := CurrentProjectName t; ImageEnabled := ImageEnabled t; VideoEnabled := VideoEnabled t; ImageConcurrency := ImageConcurrency t; VideoConcurrency := VideoConcurrency t; BanReason := default "" r; BannedAt := BannedAt t |}
  | banned_at bt =>
      {| ID := ID t; ST := ST t; AT := AT t; ATExpires := ATExpires t; IsActive := IsActive t; LastUsedAt := LastUsedAt t; Credits := Credits t; UserPaygateTier := UserPaygateTier t; CurrentProjectID := CurrentProjectID t; CurrentProjectName := CurrentProjectName t; ImageEnabled := ImageEnabled t; VideoEnabled := VideoEnabled t; ImageConcurrency := ImageConcurrency t; VideoConcurrency := VideoConcurrency t; BanReason := BanReason t; BannedAt := bt |}
  | at_ s =>
      {| ID := ID t; ST := ST t; AT := s; ATExpires := ATExpires t; IsActive := IsActive t; LastUsedAt := LastUsedAt t; Credits := Credits t; UserPaygateTier := UserPaygateTier t; CurrentProjectID := CurrentProjectID t; CurrentProjectName := CurrentProjectName t; ImageEnabled := ImageEnabled t; VideoEnabled := VideoEnabled t; ImageConcurrency := ImageConcurrency t; VideoConcurrency := VideoConcurrency t; BanReason := BanReason t; BannedAt := BannedAt t |}
  | at_expires e =>
      {| ID := ID t; ST := ST t; AT := AT t; ATExpires := Some e; IsActive := IsActive t; LastUsedAt := LastUsedAt t; Credits := Credits t; UserPaygateTier := UserPaygateTier t; CurrentProjectID := CurrentProjectID t; CurrentProjectName := CurrentProjectName t; ImageEnabled := ImageEnabled t; VideoEnabled := VideoEnabled t; ImageConcurrency := ImageConcurrency t; VideoConcurrency := VideoConcurrency t; BanReason := BanReason t; BannedAt := BannedAt t |}
  | credits n =>
      {| ID := ID t; ST := ST t; AT := AT t; ATExpires := ATExpires t; IsActive := IsActive t; LastUsedAt := LastUsedAt t; Credits := n; UserPaygateTier := UserPaygateTier t; CurrentProjectID := CurrentProjectID t; CurrentProjectName := CurrentProjectName t; ImageEnabled := ImageEnabled t; VideoEnabled := VideoEnabled t; ImageConcurrency := ImageConcurrency t; VideoConcurrency := VideoConcurrency t; BanReason := BanReason t; BannedAt := BannedAt t |}
  | last_used_at u =>
      {| ID := ID t; ST := ST t; AT := AT t; ATExpires := ATExpires t; IsActive := IsActive t; LastUsedAt := Some u; Credits := Credits t; UserPaygateTier := UserPaygateTier t; CurrentProjectID := CurrentProjectID t; CurrentProjectName := CurrentProjectName t; ImageEnabled := ImageEnabled t; VideoEnabled := VideoEnabled t; ImageConcurrency := ImageConcurrency t; VideoConcurrency := VideoConcurrency t; BanReason := BanReason t; BannedAt := BannedAt t |}
  | current_project_id s =>
      {| ID := ID t; ST := ST t; AT := AT t; ATExpires := ATExpires t; IsActive := IsActive t; LastUsedAt := LastUsedAt t; Credits := Credits t; UserPaygateTier := UserPaygateTier t; CurrentProjectID := s; CurrentProjectName := CurrentProjectName t; ImageEnabled := ImageEnabled t; VideoEnabled := VideoEnabled t; ImageConcurrency := ImageConcurrency t; VideoConcurrency := VideoConcurrency t; BanReason := BanReason t; BannedAt := BannedAt t |}
  | current_project_name s =>
      {| ID := ID t; ST := ST t; AT := AT t; ATExpires := ATExpires t; IsActive := IsActive t; LastUsedAt := LastUsedAt t; Credits := Credits t; UserPaygateTier := UserPaygateTier t; CurrentProjectID := CurrentProjectID t; CurrentProjectName := s; ImageEnabled := ImageEnabled t; VideoEnabled := VideoEnabled t; ImageConcurrency := ImageConcurrency t; VideoConcurrency := VideoConcurrency t; BanReason := BanReason t; BannedAt := BannedAt t |}
  end.

Definition with_tokens (d : Database) (ts : list Token) : Database :=
  {| tokens := ts; token_stats := token_stats d; admin_config := admin_config d;
     projects := projects d; tasks := tasks d |}.

Definition with_token_stats (d : Database) (st : gmap Z TokenStats) : Database :=
  {| tokens := tokens d; token_stats := st; admin_config := admin_config d;
     projects := projects d; tasks := tasks d |}.

Definition with_projects (d : Database) (ps : list Project) : Database :=
  {| tokens := tokens d; token_stats := token_stats d; admin_config := admin_config d;
     projects := ps; tasks := tasks d |}.

Definition with_tasks (d : Database) (tk : list Task) : Database :=
  {| tokens := tokens d; token_stats := token_stats d; admin_config := admin_config d;
     projects := projects d; tasks := tk |}.

Module DB.

Definition GetToken (id : Z) (d : Database) : result Token :=
  match List.find (fun t => ID t =? id) (tokens d) with
  | Some t => Ok t
  | None => Err ErrNoRows
  end.

Definition GetAllTokens (d : Database) : list Token := tokens d.

Definition GetActiveTokens (d : Database) : list Token :=
  List.filter IsActive (tokens d).

(** [UPDATE tokens SET ... WHERE id = ?] *)
Definition UpdateToken (id : Z) (updates : list Update) (d : Database) : Database :=
  match updates with
  | [] => d
  | _ =>
      with_tokens d
        (List.map (fun t => if ID t =? id then foldl apply_update t updates else t)
                  (tokens d))
  end.

Definition zero_stats : TokenStats :=
  {| ImageCount := 0; VideoCount := 0; SuccessCount := 0; ErrorCount := 0;
     TodayImageCount := 0; TodayVideoCount := 0; TodayErrorCount := 0;
     TodayDate := None; ConsecutiveErrorCount := 0 |}.

(** A credential without a row gets the zero statistics. *)
Definition GetTokenStats (tokenID : Z) (d : Database) : TokenStats :=
  default zero_stats (token_stats d !! tokenID).

Definition reset_today (today : string) (s : TokenStats) : TokenStats :=
  match TodayDate s with
  | Some day =>
      if String.eqb day today then s
      else {| ImageCount := ImageCount s; VideoCount := VideoCount s;
              SuccessCount := SuccessCount s; ErrorCount := ErrorCount s;
              TodayImageCount := 0; TodayVideoCount := 0; TodayErrorCount := 0;
              TodayDate := Some today;
              ConsecutiveErrorCount := ConsecutiveErrorCount s |}
  | None =>
      {| ImageCount := ImageCount s; VideoCount := VideoCount s;
         SuccessCount := SuccessCount s; ErrorCount := ErrorCount s;
         TodayImageCount := 0; TodayVideoCount := 0; TodayErrorCount := 0;
         TodayDate := Some today;
         ConsecutiveErrorCount := ConsecutiveErrorCount s |}
  end.

Definition count_image (s : TokenStats) : TokenStats :=
  {| ImageCount := ImageCount s + 1; VideoCount := VideoCount s;
     SuccessCount := SuccessCount s + 1; ErrorCount := ErrorCount s;
     TodayImageCount := TodayImageCount s + 1; TodayVideoCount := TodayVideoCount s;
     TodayErrorCount := TodayErrorCount s; TodayDate := TodayDate s;
     ConsecutiveErrorCount := 0 |}.

Definition count_video (s : TokenStats) : TokenStats :=
  {| ImageCount := ImageCount s; VideoCount := VideoCount s + 1;
     SuccessCount := SuccessCount s + 1; ErrorCount := ErrorCount s;
     TodayImageCount := TodayImageCount s; TodayVideoCount := TodayVideoCount s + 1;
     TodayErrorCount := TodayErrorCount s; TodayDate := TodayDate s;
     ConsecutiveErrorCount := 0 |}.

Definition count_error (s : TokenStats) : TokenStats :=
  {| ImageCount := ImageCount s; VideoCount := VideoCount s;
     SuccessCount := SuccessCount s; ErrorCount := ErrorCount s + 1;
     TodayImageCount := TodayImageCount s; TodayVideoCount := TodayVideoCount s;
     TodayErrorCount := TodayErrorCount s + 1; TodayDate := TodayDate s;
     ConsecutiveErrorCount := ConsecutiveErrorCount s + 1 |}.

Definition clear_consecutive (s : TokenStats) : TokenStats :=
  {| ImageCount := ImageCount s; VideoCount := VideoCount s;
     SuccessCount := SuccessCount s; ErrorCount := ErrorCount s;
     TodayImageCount := TodayImageCount s; TodayVideoCount := TodayVideoCount s;
     TodayErrorCount := TodayErrorCount s; TodayDate := TodayDate s;
     ConsecutiveErrorCount := 0 |}.

(** [today] is [time.Now().Format("2006-01-02")].  The statement that
    resets the counters of the day runs before [statType] is looked at. *)
Definition IncrementTokenStats (today : string) (tokenID : Z) (statType : string)
  (d : Database) : error * Database :=
  let d1 := with_token_stats d (alter (reset_today today) tokenID (token_stats d)) in
  if String.eqb statType "image" then
    (None, with_token_stats d1 (alter count_image tokenID (token_stats d1)))
  else if String.eqb statType "video" then
    (None, with_token_stats d1 (alter count_video tokenID (token_stats d1)))
  else if String.eqb statType "error" then
    (None, with_token_stats d1 (alter count_error tokenID (token_stats d1)))
  else (Some ("unknown stat type: " +:+ statType), d1).

Definition ResetErrorCount (tokenID : Z) (d : Database) : Database :=
  with_token_stats d (alter clear_consecutive tokenID (token_stats d)).

Definition AddProject (project : Project) (d : Database) : Database :=
  with_projects d (projects d ++ [project]).

(** [task_id] is UNIQUE: a second task of the same name is refused. *)
Definition CreateTask (task : Task) (d : Database) : Database :=
  if existsb (fun t => String.eqb (TaskID t) (TaskID task)) (tasks d) then d
  else with_tasks d (tasks d ++ [task]).

(** The update [pollVideoResult] makes on success. *)
Definition CompleteTask (taskID : string) (resultURLs : list string) (now : Time)
  (d : Database) : Database :=
  with_tasks d
    (List.map (fun t =>
                 if String.eqb (TaskID t) taskID then
                   {| TaskID := TaskID t; TokenID := TokenID t; Model := Model t;
                      Prompt := Prompt t; Status := "completed"; Progress := 100;
                      ResultURLs := resultURLs; CompletedAt := Some now |}
                 else t)
              (tasks d)).

(** [DELETE FROM tokens WHERE id = ?].  The tables [token_stats],
    [projects] and [tasks] refer to the credential with ON DELETE CASCADE,
    which SQLite follows only on a connection that enforces foreign keys:
    [foreign_keys] tells whether this one does. *)
Definition DeleteToken (foreign_keys : bool) (id : Z) (d : Database) : Database :=
  let kept := List.filter (fun t => negb (ID t =? id)) (tokens d) in
  if foreign_keys then
    {| tokens := kept;
       token_stats := delete id (token_stats d);
       admin_config := admin_config d;
       projects := List.filter (fun p => negb (ProjectTokenID p =? id)) (projects d);
       tasks := List.filter (fun t => negb (TokenID t =? id)) (tasks d) |}
  else with_tokens d kept.

Definition GetAdminConfig (d : Database) : result AdminConfig :=
  match admin_config d with
  | Some c => Ok c
  | None => Err ErrNoRows
  end.

End DB.

(* ===================================================================== *)
(** * The state the services share, and sequencing *)
(* ===================================================================== *)

(** The store, the slot table, and the history of what the request has
    done to the outside world so far. *)
Record World := mkWorld {
  db : Database;
  concurrencyManager : ConcurrencyManager;
  trace : list Event
}.

Definition M (A : Type) : Type := World -> A * World.

Definition ret {A} (a : A) : M A := fun w => (a, w).

Definition bind {A B} (m : M A) (k : A -> M B) : M B :=
  fun w => let (a, w') := m w in k a w'.

Notation "'let*' x ':=' m 'in' k" := (bind m (fun x => k))
  (at level 10, x pattern, m at level 100, k at level 200).
Notation "m ';;' k" := (bind m (fun _ => k))
  (at level 100, k at level 200, right associativity).

Definition get_db : M Database := fun w => (db w, w).

Definition modify_db (f : Database -> Database) : M unit :=
  fun w => (tt, {| db := f (db w); concurrencyManager := concurrencyManager w;
                   trace := trace w |}).

Definition get_cm : M ConcurrencyManager := fun w => (concurrencyManager w, w).

Definition put_cm (cm : ConcurrencyManager) : M unit :=
  fun w => (tt, {| db := db w; concurrencyManager := cm; trace := trace w |}).

(** Something observable happens. *)
Definition emit (e : Event) : M unit :=
  fun w => (tt, {| db := db w; concurrencyManager := concurrencyManager w;
                   trace := trace w ++ [e] |}).

Fixpoint forM {A} (l : list A) (f : A -> M unit) : M unit :=
  match l with
  | [] => ret tt
  | x :: rest => f x ;; forM rest f
  end.

(** How a function of the handler ends: it returns its [error], or a
    failed type assertion or a nil dereference makes it panic. *)
Inductive Outcome :=
| Returned (err : error)
| Panicked.

Section Services.

Context (env : Env).

Definition time_Now : M Time := fun w => (Now env (trace w), w).

(** ** client.FlowClient, as seen by its callers *)

Definition call_map (e : Event) : M (result jobject) :=
  emit e ;; fun w => (answer_map env (trace w), w).

Definition call_string (e : Event) : M (result string) :=
  emit e ;; fun w => (answer_string env (trace w), w).

Definition STToAT (st : string) := call_map (EvSTToAT st).
Definition GetCredits (at_ : string) := call_map (EvGetCredits at_).
Definition CreateProject (st title : string) := call_string (EvCreateProject st title).
Definition UploadImage (at_ : string) (imageBytes : list Byte.byte) (aspectRatio : string) :=
  call_string (EvUploadImage at_ imageBytes aspectRatio).
Definition GenerateImage (at_ projectID prompt modelName aspectRatio : string)
  (imageInputs : list jobject) :=
  call_map (EvGenerateImage at_ projectID prompt modelName aspectRatio imageInputs).
Definition GenerateVideoText (at_ projectID prompt modelKey aspectRatio tier : string) :=
  call_map (EvGenerateVideoText at_ projectID prompt modelKey aspectRatio tier).
Definition GenerateVideoReferenceImages (at_ projectID prompt modelKey aspectRatio : string)
  (referenceImages : list jobject) (tier : string) :=
  call_map (EvGenerateVideoReferenceImages at_ projectID prompt modelKey aspectRatio
              referenceImages tier).
Definition GenerateVideoStartEnd
  (at_ projectID prompt modelKey aspectRatio startMediaID endMediaID tier : string) :=
  call_map (EvGenerateVideoStartEnd at_ projectID prompt modelKey aspectRatio
              startMediaID endMediaID tier).
Definition CheckVideoStatus (at_ : string) (operations : list jobject) :=
  call_map (EvCheckVideoStatus at_ operations).

Definition Sleep (d : Duration) : M unit := emit (EvSleep d).

(** ** TokenManager *)

(** The operations of the administration ([UpdateToken], [RefreshAT],
    [RefreshCredits] and the like), which a generation request and the sweep
    do not use, follow further down. *)

Definition GetAllTokens : M (list Token) :=
  let* d := get_db in ret (DB.GetAllTokens d).

Definition GetActiveTokens : M (list Token) :=
  let* d := get_db in ret (DB.GetActiveTokens d).

Definition GetToken (id : Z) : M (result Token) :=
  let* d := get_db in ret (DB.GetToken id d).

Definition DisableToken (id : Z) : M error :=
  modify_db (DB.UpdateToken id [is_active false]) ;; ret None.

Definition refreshATInternal (id : Z) : M (bool * error) :=
  let* r := GetToken id in
  match r with
  | Err e => ret (false, Some e)
  | Ok token =>
      let* r := STToAT (ST token) in
      match r with
      | Err e =>
          DisableToken id ;;
          ret (false, Some e)
      | Ok result =>
          let newAT := default "" (jstring "access_token" result) in
          let expires := default "" (jstring "expires" result) in
          let newATExpires :=
            if String.eqb expires "" then None else ParseRFC3339 env expires in
          let updates :=
            match newATExpires with
            | Some e => [at_ newAT; at_expires e]
            | None => [at_ newAT]
            end in
          modify_db (DB.UpdateToken id updates) ;;
          let* r := GetCredits newAT in
          match r with
          | Ok creditsResult =>
              match jfloat "credits" creditsResult with
              | Some c =>
                  modify_db (DB.UpdateToken id [credits (int_of_float c)]) ;;
                  ret (true, None)
              | None => ret (true, None)
              end
          | Err _ => ret (true, None)
          end
      end
  end.

Definition IsATValid (id : Z) : M (bool * error) :=
  let* r := GetToken id in
  match r with
  | Err e => ret (false, Some e)
  | Ok token =>
      if String.eqb (AT token) "" then refreshATInternal id
      else
        match ATExpires token with
        | None => refreshATInternal id
        | Some expires =>
            let* now := time_Now in
            let timeUntilExpiry := Until now expires in
            if timeUntilExpiry <? Hour then refreshATInternal id
            else ret (true, None)
        end
  end.

Definition EnsureProjectExists (id : Z) : M (result string) :=
  let* r := GetToken id in
  match r with
  | Err _ => ret (Err "token not found")
  | Ok token =>
      if negb (String.eqb (CurrentProjectID token) "") then
        ret (Ok (CurrentProjectID token))
      else
        let* now := time_Now in
        let projectName := FormatProjectName env now in
        let* r := CreateProject (ST token) projectName in
        match r with
        | Err e => ret (Err ("failed to create project: " +:+ e))
        | Ok projectID =>
            modify_db (DB.UpdateToken id
                         [current_project_id projectID;
                          current_project_name projectName]) ;;
            modify_db (DB.AddProject
                         {| ProjectID := projectID; ProjectTokenID := id;
                            ProjectName := projectName; ToolName := "PINHOLE";
                            ProjectIsActive := true |}) ;;
            ret (Ok projectID)
        end
  end.

Definition IncrementTokenStats (id : Z) (statType : string) : M error :=
  let* now := time_Now in
  let today := FormatDate env now in
  fun w =>
    let (err, d) := DB.IncrementTokenStats today id statType (db w) in
    (err, {| db := d; concurrencyManager := concurrencyManager w; trace := trace w |}).

Definition RecordUsage (id : Z) (isVideo : bool) : M error :=
  let* now := time_Now in
  modify_db (DB.UpdateToken id [last_used_at now]) ;;
  let statType := if isVideo then "video" else "image" in
  IncrementTokenStats id statType.

Definition RecordError (id : Z) : M error :=
  let* err := IncrementTokenStats id "error" in
  match err with
  | Some e => ret (Some e)
  | None =>
      let* d := get_db in
      let stats := DB.GetTokenStats id d in
      match DB.GetAdminConfig d with
      | Err e => ret (Some e)
      | Ok adminConfig =>
          if ErrorBanThreshold adminConfig <=? ConsecutiveErrorCount stats then
            DisableToken id
          else ret None
      end
  end.

Definition RecordSuccess (id : Z) : M error :=
  modify_db (DB.ResetErrorCount id) ;; ret None.

Definition BanTokenFor429 (id : Z) : M error :=
  let* now := time_Now in
  modify_db (DB.UpdateToken id
               [is_active false; ban_reason (Some "429_rate_limit");
                banned_at (Some now)]) ;;
  ret None.

Definition AutoUnban429Tokens : M error :=
  let* tokens := GetAllTokens in
  let* now := time_Now in
  forM tokens (fun token =>
    if negb (String.eqb (BanReason token) "429_rate_limit") || IsActive token then ret tt
    else
      match BannedAt token with
      | None => ret tt
      | Some bannedAt =>
          if match ATExpires token with
             | Some expires => Before expires now
             | None => false
             end
          then ret tt
          else
            let timeSinceBan := Sub now bannedAt in
            if 12 * Hour <=? timeSinceBan then
              modify_db (DB.UpdateToken (ID token)
                           [is_active true; ban_reason None; banned_at None]) ;;
              modify_db (DB.ResetErrorCount (ID token))
            else ret tt
      end) ;;
  ret None.

(** ** LoadBalancer *)

(** The score of a candidate: its credits, plus one point per minute
    since its last use, or 1000 if it was never used. *)
Definition token_score (now : Time) (token : Token) : float64 :=
  let score := float64_of_int (Credits token) in
  match LastUsedAt token with
  | Some lastUsedAt =>
      let timeSinceUse := Sub now lastUsedAt in
      fadd score (fdiv (Seconds timeSinceUse) (float64_of_int 60))
  | None => fadd score (float64_of_int 1000)
  end.

(** One turn of the loop of [SelectToken] over [(bestToken, bestScore)]. *)
Definition select_step (cm : ConcurrencyManager) (now : Time) (forImage forVideo : bool)
  (best : option Token * float64) (token : Token) : option Token * float64 :=
  if forImage && negb (ImageEnabled token) then best
  else if forVideo && negb (VideoEnabled token) then best
  else if match ATExpires token with
          | Some expires => Before expires now
          | None => false
          end
  then best
  else if forImage && (0 <? ImageConcurrency token)
          && negb (CanAcquireImage (ID token) cm) then best
  else if forVideo && (0 <? VideoConcurrency token)
          && negb (CanAcquireVideo (ID token) cm) then best
  else
    let score := token_score now token in
    if fgt score (snd best) then (Some token, score) else best.

Definition SelectToken (forImage forVideo : bool) (model : string)
  : M (option Token * error) :=
  let* tokens := GetActiveTokens in
  let* now := time_Now in
  let* cm := get_cm in
  let best :=
    foldl (select_step cm now forImage forVideo) (None, float64_of_int (-1)) tokens in
  ret (fst best, None).

(** ** GenerationHandler *)

Definition nl : string := String (Ascii.ascii_of_nat 10) EmptyString.

Definition sendStreamChunk (content finishReason : string) (isContent : bool) : M unit :=
  emit (EvStreamChunk content finishReason isContent).

Definition sendErrorResponse (errMsg : string) : M unit :=
  emit (EvErrorResponse errMsg).

(** The two messages every failure path sends before it returns. *)
Definition sendFailure (errMsg : string) : M unit :=
  sendStreamChunk ("❌ " +:+ errMsg +:+ nl) "" false ;;
  sendErrorResponse errMsg.

(** [http.Get] of the media, its copy into the cache directory, and the
    address under which it is served. *)
Definition cacheFile (urlStr mediaType : string) : M (result string) :=
  call_string (EvCacheFile urlStr mediaType).

Definition getNoTokenErrorMessage (genType : string) : string :=
  if String.eqb genType "image" then
    "No tokens available for image generation. All tokens are disabled, cooling, locked, or expired."
  else
    "No tokens available for video generation. All tokens are disabled, cooling, quota exhausted, or expired.".

(** The loop of [pollVideoResult]: [remaining] turns are left and the
    next one is number [attempt], so [attempt < maxAttempts] holds as long
    as a turn is left.  [None]: the loop ran to its end. *)
Fixpoint poll_loop (token : Token) (operations : list jobject) (maxAttempts : Z)
  (remaining : nat) (attempt : Z) : M (option Outcome) :=
  match remaining with
  | O => ret None
  | S remaining' =>
      let continue := poll_loop token operations maxAttempts remaining' (attempt + 1) in
      Sleep (PollInterval (cfg env)) ;;
      let* r := CheckVideoStatus (AT token) operations in
      match r with
      | Err _ => continue
      | Ok result =>
          match jarray "operations" result with
          | None | Some [] => continue
          | Some (op0 :: _) =>
              match as_map op0 with
              | None => ret (Some Panicked)
              | Some op =>
                  let status := default "" (jstring "status" op) in
                  (if attempt mod 7 =? 0 then
                     let progress := progress_percent env attempt maxAttempts in
                     sendStreamChunk ("Progress: " +:+ pretty progress +:+ "%" +:+ nl) "" false
                   else ret tt) ;;
                  if String.eqb status "MEDIA_GENERATION_STATUS_SUCCESSFUL" then
                    match jmap "operation" op with
                    | None => ret (Some Panicked)
                    | Some opData =>
                    match jmap "metadata" opData with
                    | None => ret (Some Panicked)
                    | Some metadata =>
                    match jmap "video" metadata with
                    | None => ret (Some Panicked)
                    | Some video =>
                    match jstring "fifeUrl" video with
                    | None => ret (Some Panicked)
                    | Some videoURL =>
                        let* localURL :=
                          if CacheEnabled (cfg env) then
                            sendStreamChunk ("Caching video..." +:+ nl) "" false ;;
                            let* c := cacheFile videoURL "video" in
                            match c with
                            | Ok cachedURL =>
                                sendStreamChunk ("✅ Video cached" +:+ nl) "" false ;;
                                ret cachedURL
                            | Err _ => ret videoURL
                            end
                          else ret videoURL in
                        match jstring "name" opData with
                        | None => ret (Some Panicked)
                        | Some taskID =>
                            let* now := time_Now in
                            modify_db (DB.CompleteTask taskID [localURL] now) ;;
                            sendStreamChunk
                              ("<video src='" +:+ localURL
                                 +:+ "' controls style='max-width:100%'></video>")
                              "stop" true ;;
                            ret (Some (Returned None))
                        end
                    end end end end
                  else if HasPrefix status "MEDIA_GENERATION_STATUS_ERROR" then
                    let errMsg := "Video generation failed: " +:+ status in
                    sendFailure errMsg ;;
                    ret (Some (Returned (Some errMsg)))
                  else continue
              end
          end
      end
  end.

(** The message of the error returned at the end is [errMsg] itself: it
    holds no formatting verb for [fmt.Errorf] to expand, the same being
    assumed of an error status reported by the upstream service above. *)
Definition pollVideoResult (token : Token) (operations : list jobject) : M Outcome :=
  let maxAttempts := MaxPollAttempts (cfg env) in
  let* r := poll_loop token operations maxAttempts (Z.to_nat maxAttempts) 0 in
  match r with
  | Some out => ret out
  | None =>
      let errMsg :=
        "Video generation timeout (polled " +:+ pretty maxAttempts +:+ " times)" in
      sendFailure errMsg ;;
      ret (Returned (Some errMsg))
  end.

(** The uploads of [handleImageGeneration], image [i] (from 0) first;
    [n] is [len(images)]. *)
Fixpoint upload_reference_inputs (token : Token) (modelConfig : ModelConfig) (n : Z)
  (i : Z) (images : list (list Byte.byte)) (imageInputs : list jobject)
  : M (result (list jobject)) :=
  match images with
  | [] => ret (Ok imageInputs)
  | imgBytes :: rest =>
      let* r := UploadImage (AT token) imgBytes (AspectRatio modelConfig) in
      match r with
      | Err e => ret (Err ("failed to upload image " +:+ pretty (i + 1) +:+ ": " +:+ e))
      | Ok mediaID =>
          let imageInputs :=
            imageInputs ++ [[("name", JString mediaID);
                             ("imageInputType", JString "IMAGE_INPUT_TYPE_REFERENCE")]] in
          sendStreamChunk
            ("Uploaded image " +:+ pretty (i + 1) +:+ "/" +:+ pretty n +:+ nl) "" false ;;
          upload_reference_inputs token modelConfig n (i + 1) rest imageInputs
      end
  end.

Definition handleImageGeneration (token : Token) (projectID : string)
  (modelConfig : ModelConfig) (prompt : string) (images : list (list Byte.byte))
  : M Outcome :=
  let* cm := get_cm in
  let (acquired, cm') := AcquireImage (ID token) cm in
  if negb acquired then
    let errMsg := "Image concurrency limit reached" in
    sendFailure errMsg ;;
    ret (Returned (Some errMsg))
  else
    put_cm cm' ;;
    let* out :=
      (let* uploaded :=
         match images with
         | [] => ret (Ok [])
         | _ =>
             let n := Z.of_nat (length images) in
             sendStreamChunk
               ("Uploading " +:+ pretty n +:+ " reference image(s)..." +:+ nl) "" false ;;
             upload_reference_inputs token modelConfig n 0 images []
         end in
       match uploaded with
       | Err e => ret (Returned (Some e))
       | Ok imageInputs =>
           sendStreamChunk ("Generating image..." +:+ nl) "" false ;;
           let* r := GenerateImage (AT token) projectID prompt (ModelName modelConfig)
                       (AspectRatio modelConfig) imageInputs in
           match r with
           | Err e =>
               sendFailure ("Generation failed: " +:+ e) ;;
               ret (Returned (Some e))
           | Ok result =>
               match jarray "media" result with
               | None | Some [] =>
                   let errMsg := "Empty generation result" in
                   sendFailure errMsg ;;
                   ret (Returned (Some errMsg))
               | Some (media0 :: _) =>
                   match as_map media0 with
                   | None => ret Panicked
                   | Some mediaItem =>
                   match jmap "image" mediaItem with
                   | None => ret Panicked
                   | Some image =>
                   match jmap "generatedImage" image with
                   | None => ret Panicked
                   | Some genImage =>
                   match jstring "fifeUrl" genImage with
                   | None => ret Panicked
                   | Some imageURL =>
                       let* localURL :=
                         if CacheEnabled (cfg env) then
                           sendStreamChunk ("Caching image..." +:+ nl) "" false ;;
                           let* c := cacheFile imageURL "image" in
                           match c with
                           | Ok cachedURL =>
                               sendStreamChunk ("✅ Image cached" +:+ nl) "" false ;;
                               ret cachedURL
                           | Err e =>
                               sendStreamChunk ("⚠️ Cache failed: " +:+ e +:+ nl) "" false ;;
                               ret imageURL
                           end
                         else ret imageURL in
                       sendStreamChunk ("![Generated Image](" +:+ localURL +:+ ")")
                         "stop" true ;;
                       ret (Returned None)
                   end end end end
               end
           end
       end) in
    (* defer gh.concurrencyManager.ReleaseImage(token.ID) *)
    (let* cm := get_cm in put_cm (ReleaseImage (ID token) cm)) ;;
    ret out.

(** The uploads of the reference images of an r2v model. *)
Fixpoint upload_reference_images (token : Token) (modelConfig : ModelConfig)
  (i : Z) (images : list (list Byte.byte)) (referenceImages : list jobject)
  : M (result (list jobject)) :=
  match images with
  | [] => ret (Ok referenceImages)
  | img :: rest =>
      let* r := UploadImage (AT token) img (AspectRatio modelConfig) in
      match r with
      | Err e =>
          ret (Err ("failed to upload reference image " +:+ pretty (i + 1) +:+ ": " +:+ e))
      | Ok mediaID =>
          upload_reference_images token modelConfig (i + 1) rest
            (referenceImages ++ [[("imageUsageType", JString "IMAGE_USAGE_TYPE_ASSET");
                                  ("mediaId", JString mediaID)]])
      end
  end.

(** The uploads of [handleVideoGeneration]:
    [(startMediaID, endMediaID, referenceImages)]. *)
Definition upload_video_inputs (token : Token) (modelConfig : ModelConfig)
  (videoType : string) (images : list (list Byte.byte))
  : M (result (string * string * list jobject)) :=
  if String.eqb videoType "i2v" && negb (length images =? 0)%nat then
    match images with
    | [] => ret (Ok ("", "", []))
    | [image0] =>
        sendStreamChunk ("Uploading start frame..." +:+ nl) "" false ;;
        let* r := UploadImage (AT token) image0 (AspectRatio modelConfig) in
        match r with
        | Err e => ret (Err ("failed to upload start frame: " +:+ e))
        | Ok startMediaID => ret (Ok (startMediaID, "", []))
        end
    | image0 :: image1 :: _ =>
        sendStreamChunk ("Uploading start and end frames..." +:+ nl) "" false ;;
        let* r := UploadImage (AT token) image0 (AspectRatio modelConfig) in
        match r with
        | Err e => ret (Err ("failed to upload start frame: " +:+ e))
        | Ok startMediaID =>
            let* r := UploadImage (AT token) image1 (AspectRatio modelConfig) in
            match r with
            | Err e => ret (Err ("failed to upload end frame: " +:+ e))
            | Ok endMediaID => ret (Ok (startMediaID, endMediaID, []))
            end
        end
    end
  else if String.eqb videoType "r2v" && negb (length images =? 0)%nat then
    sendStreamChunk
      ("Uploading " +:+ pretty (Z.of_nat (length images)) +:+ " reference images..." +:+ nl)
      "" false ;;
    let* r := upload_reference_images token modelConfig 0 images [] in
    match r with
    | Err e => ret (Err e)
    | Ok referenceImages => ret (Ok ("", "", referenceImages))
    end
  else ret (Ok ("", "", [])).

Definition handleVideoGeneration (token : Token) (projectID : string)
  (modelConfig : ModelConfig) (prompt : string) (images : list (list Byte.byte))
  : M Outcome :=
  let* cm := get_cm in
  let (acquired, cm') := AcquireVideo (ID token) cm in
  if negb acquired then
    let errMsg := "Video concurrency limit reached" in
    sendFailure errMsg ;;
    ret (Returned (Some errMsg))
  else
    put_cm cm' ;;
    let* out :=
      (let videoType := VideoType modelConfig in
       let imageCount := Z.of_nat (length images) in
       let* validated :=
         if String.eqb videoType "t2v" && (0 <? imageCount) then
           sendStreamChunk ("⚠️ T2V model doesn't support images, ignoring..." +:+ nl)
             "" false ;;
           ret (Ok [])
         else if String.eqb videoType "i2v" then
           if (imageCount <? MinImages modelConfig) || (MaxImages modelConfig <? imageCount)
           then
             let errMsg :=
               "I2V model requires " +:+ pretty (MinImages modelConfig) +:+ "-"
                 +:+ pretty (MaxImages modelConfig) +:+ " images, got "
                 +:+ pretty imageCount in
             sendFailure errMsg ;;
             ret (Err errMsg)
           else ret (Ok images)
         else ret (Ok images) in
       match validated with
       | Err e => ret (Returned (Some e))
       | Ok images =>
           let* uploaded := upload_video_inputs token modelConfig videoType images in
           match uploaded with
           | Err e => ret (Returned (Some e))
           | Ok (startMediaID, endMediaID, referenceImages) =>
               sendStreamChunk ("Submitting video generation task..." +:+ nl) "" false ;;
               let userPaygateTier :=
                 if String.eqb (UserPaygateTier token) "" then "PAYGATE_TIER_ONE"
                 else UserPaygateTier token in
               let* r :=
                 if String.eqb videoType "i2v" && negb (String.eqb startMediaID "") then
                   GenerateVideoStartEnd (AT token) projectID prompt (ModelKey modelConfig)
                     (AspectRatio modelConfig) startMediaID endMediaID userPaygateTier
                 else if String.eqb videoType "r2v"
                         && negb (length referenceImages =? 0)%nat then
                   GenerateVideoReferenceImages (AT token) projectID prompt
                     (ModelKey modelConfig) (AspectRatio modelConfig) referenceImages
                     userPaygateTier
                 else
                   GenerateVideoText (AT token) projectID prompt (ModelKey modelConfig)
                     (AspectRatio modelConfig) userPaygateTier in
               match r with
               | Err e =>
                   sendFailure ("Video generation failed: " +:+ e) ;;
                   ret (Returned (Some e))
               | Ok result =>
                   match jarray "operations" result with
                   | None | Some [] =>
                       let errMsg := "No operations in response" in
                       sendFailure errMsg ;;
                       ret (Returned (Some errMsg))
                   | Some (operations0 :: _) =>
                       match as_map operations0 with
                       | None => ret Panicked
                       | Some operation =>
                       match jmap "operation" operation with
                       | None => ret Panicked
                       | Some operationData =>
                       match jstring "name" operationData with
                       | None => ret Panicked
                       | Some taskID =>
                           modify_db (DB.CreateTask
                                        {| TaskID := taskID; TokenID := ID token;
                                           Model := ModelKey modelConfig; Prompt := prompt;
                                           Status := "processing"; Progress := 0;
                                           ResultURLs := []; CompletedAt := None |}) ;;
                           sendStreamChunk ("Video generating..." +:+ nl) "" false ;;
                           pollVideoResult token [operation]
                       end end end
                   end
               end
           end
       end) in
    (* defer gh.concurrencyManager.ReleaseVideo(token.ID) *)
    (let* cm := get_cm in put_cm (ReleaseVideo (ID token) cm)) ;;
    ret out.

Definition HandleGeneration (model prompt : string) (images : list (list Byte.byte))
  (stream : bool) : M Outcome :=
  let* out :=
    match lookup_model model ModelConfigs with
    | None =>
        sendErrorResponse ("Unsupported model: " +:+ model) ;;
        ret (Returned (Some ("unsupported model: " +:+ model)))
    | Some modelConfig =>
        let generationType := Type_ modelConfig in
        let isImage := String.eqb generationType "image" in
        let isVideo := String.eqb generationType "video" in
        if negb stream then
          let* sel := SelectToken isImage isVideo model in
          let message :=
            match fst sel with
            | Some _ =>
                if isImage then
                  "Tokens available for image generation. Enable streaming to use generation."
                else
                  "Tokens available for video generation. Enable streaming to use generation."
            | None =>
                if isImage then "No tokens available for image generation"
                else "No tokens available for video generation"
            end in
          emit (EvCompletionResponse message "" true) ;;
          ret (Returned None)
        else
          sendStreamChunk
            ("✨ " +:+ (if isVideo then "Video" else "Image")
               +:+ " generation task started" +:+ nl) "" false ;;
          let* sel := SelectToken isImage isVideo model in
          match sel with
          | (_, Some _) | (None, None) =>
              let errMsg := getNoTokenErrorMessage generationType in
              sendFailure errMsg ;;
              ret (Returned (Some errMsg))
          | (Some token, None) =>
              sendStreamChunk ("Initializing generation environment..." +:+ nl) "" false ;;
              let* v := IsATValid (ID token) in
              match v with
              | (true, None) =>
                  let* r := GetToken (ID token) in
                  match r with
                  | Err _ => ret Panicked
                  | Ok token =>
                      let* p := EnsureProjectExists (ID token) in
                      match p with
                      | Err e =>
                          sendFailure ("Failed to ensure project: " +:+ e) ;;
                          ret (Returned (Some e))
                      | Ok projectID =>
                          let* genErr :=
                            if isImage then
                              handleImageGeneration token projectID modelConfig prompt images
                            else
                              handleVideoGeneration token projectID modelConfig prompt images in
                          match genErr with
                          | Panicked => ret Panicked
                          | Returned (Some e) =>
                              (if Contains e "429" then BanTokenFor429 (ID token)
                               else RecordError (ID token)) ;;
                              ret (Returned (Some e))
                          | Returned None =>
                              RecordUsage (ID token) isVideo ;;
                              RecordSuccess (ID token) ;;
                              ret (Returned None)
                          end
                      end
                  end
              | _ =>
                  let errMsg := "Token AT invalid or refresh failed" in
                  sendFailure errMsg ;;
                  ret (Returned (Some errMsg))
              end
          end
    end in
  (* defer close(chunkChan) *)
  emit EvClose ;;
  ret out.

(** The server runs every request in a goroutine of its own
    ([go func() { ... HandleGeneration(...) }()] in [ChatCompletions]), and
    all of them use the one slot table: between the selection of a credential,
    which looks at its slots, and the call of the function of the handler,
    which takes one, other requests may take and give back slots.
    [meanwhile others] is what they do to the slot table in that time, call
    by call, and [HandleGenerationAmong others] is [HandleGeneration] with
    these calls made before the function of the handler is called; with no
    call of another request it is [HandleGeneration]. *)
Definition meanwhile (others : list Op) : M unit :=
  forM others (fun op => let* cm := get_cm in put_cm (step cm op)).

Definition HandleGenerationAmong (others : list Op) (model prompt : string) (images : list (list Byte.byte))
  (stream : bool) : M Outcome :=
  let* out :=
    match lookup_model model ModelConfigs with
    | None =>
        sendErrorResponse ("Unsupported model: " +:+ model) ;;
        ret (Returned (Some ("unsupported model: " +:+ model)))
    | Some modelConfig =>
        let generationType := Type_ modelConfig in
        let isImage := String.eqb generationType "image" in
        let isVideo := String.eqb generationType "video" in
        if negb stream then
          let* sel := SelectToken isImage isVideo model in
          let message :=
            match fst sel with
            | Some _ =>
                if isImage then
                  "Tokens available for image generation. Enable streaming to use generation."
                else
                  "Tokens available for video generation. Enable streaming to use generation."
            | None =>
                if isImage then "No tokens available for image generation"
                else "No tokens available for video generation"
            end in
          emit (EvCompletionResponse message "" true) ;;
          ret (Returned None)
        else
          sendStreamChunk
            ("✨ " +:+ (if isVideo then "Video" else "Image")
               +:+ " generation task started" +:+ nl) "" false ;;
          let* sel := SelectToken isImage isVideo model in
          match sel with
          | (_, Some _) | (None, None) =>
              let errMsg := getNoTokenErrorMessage generationType in
              sendFailure errMsg ;;
              ret (Returned (Some errMsg))
          | (Some token, None) =>
              sendStreamChunk ("Initializing generation environment..." +:+ nl) "" false ;;
              let* v := IsATValid (ID token) in
              match v with
              | (true, None) =>
                  let* r := GetToken (ID token) in
                  match r with
                  | Err _ => ret Panicked
                  | Ok token =>
                      let* p := EnsureProjectExists (ID token) in
                      match p with
                      | Err e =>
                          sendFailure ("Failed to ensure project: " +:+ e) ;;
                          ret (Returned (Some e))
                      | Ok projectID =>
                          (* the other goroutines, on the shared slot table *)
                          meanwhile others ;;
                          let* genErr :=
                            if isImage then
                              handleImageGeneration token projectID modelConfig prompt images
                            else
                              handleVideoGeneration token projectID modelConfig prompt images in
                          match genErr with
                          | Panicked => ret Panicked
                          | Returned (Some e) =>
                              (if Contains e "429" then BanTokenFor429 (ID token)
                               else RecordError (ID token)) ;;
                              ret (Returned (Some e))
                          | Returned None =>
                              RecordUsage (ID token) isVideo ;;
                              RecordSuccess (ID token) ;;
                              ret (Returned None)
                          end
                      end
                  end
              | _ =>
                  let errMsg := "Token AT invalid or refresh failed" in
                  sendFailure errMsg ;;
                  ret (Returned (Some errMsg))
              end
          end
    end in
  (* defer close(chunkChan) *)
  emit EvClose ;;
  ret out.

End Services.

(** ** Notions used to state the properties *)

(** [token] passes the filters of [SelectToken]: it has the capability asked
    for, its access token is not known to have expired, and if it declares a
    positive limit for the kind asked for, the slot table has a free slot. *)
Definition survives (cm : ConcurrencyManager) (now : Time) (forImage forVideo : bool)
  (token : Token) : bool :=
  negb (forImage && negb (ImageEnabled token))
  && negb (forVideo && negb (VideoEnabled token))
  && negb (match ATExpires token with
           | Some expires => Before expires now
           | None => false
           end)
  && negb (forImage && (0 <? ImageConcurrency token)
           && negb (CanAcquireImage (ID token) cm))
  && negb (forVideo && (0 <? VideoConcurrency token)
           && negb (CanAcquireVideo (ID token) cm)).

(** The candidates of a selection, in the order the store lists them. *)
Definition candidates (env : Env) (forImage forVideo : bool) (w : World) : list Token :=
  List.filter (survives (concurrencyManager w) (Now env (trace w)) forImage forVideo)
              (DB.GetActiveTokens (db w)).

(** [res] is the first candidate of the highest score, if that score is
    above -1, and nothing otherwise: its score is above -1, no candidate
    before it has a score above its score or equal to it, and no candidate
    after it has a score above its score; and nothing, when no candidate has
    a score above -1.  The comparisons are those of [float64]. *)
Definition first_best (now : Time) (cands : list Token) (res : option Token) : Prop :=
  match res with
  | None => forall t, In t cands -> fgt (token_score now t) (float64_of_int (-1)) = false
  | Some t =>
      exists l1 l2,
        cands = l1 ++ t :: l2
        /\ fgt (token_score now t) (float64_of_int (-1)) = true
        /\ (forall t', In t' l1 -> fge (token_score now t') (token_score now t) = false)
        /\ (forall t', In t' l2 -> fgt (token_score now t') (token_score now t) = false)
  end.

(** Where a [float64] stands in the order of its comparisons: its sign and
    kind, then its exponent, then its mantissa; a NaN, of which no
    comparison holds, stands nowhere. *)
Definition rank (x : float64) : option (Z * Z * Z) :=
  match x with
  | S754_nan => None
  | S754_infinity s => Some (if s then -2 else 2, 0, 0)
  | S754_zero _ => Some (0, 0, 0)
  | S754_finite s m e => Some (if s then (-1, - e, - Zpos m) else (1, e, Zpos m))
  end.

Definition lex_lt (a b : Z * Z * Z) : Prop :=
  a.1.1 < b.1.1
  \/ (a.1.1 = b.1.1 /\ (a.1.2 < b.1.2 \/ (a.1.2 = b.1.2 /\ a.2 < b.2))).

(** [n] calls of [RecordError] in a row. *)
Fixpoint RecordError_n (env : Env) (id : Z) (n : nat) : M unit :=
  match n with
  | O => ret tt
  | S n' => RecordError env id ;; RecordError_n env id n'
  end.

(** The sweep reactivates [token] at [now]: it is inactive with the
    rate-limit ban reason, its ban is recorded and at least 12 hours old,
    and its access token is not known to have expired. *)
Definition unban_due (now : Time) (token : Token) : bool :=
  String.eqb (BanReason token) "429_rate_limit"
  && negb (IsActive token)
  && match BannedAt token with
     | Some bannedAt => 12 * Hour <=? now - bannedAt
     | None => false
     end
  && match ATExpires token with
     | Some expires => negb (expires <? now)
     | None => true
     end.

(** What the sweep makes of a credential it reactivates. *)
Definition reactivated (token : Token) : Token :=
  foldl apply_update token [is_active true; ban_reason None; banned_at None].

(** The sleeps and status probes of a history, in order. *)
Definition timeline (tr : list Event) : list Event :=
  List.filter (fun e => match e with
                        | EvSleep _ | EvCheckVideoStatus _ _ => true
                        | _ => false
                        end) tr.

(** The status probes of a history. *)
Definition probes (tr : list Event) : list Event :=
  List.filter (fun e => match e with EvCheckVideoStatus _ _ => true | _ => false end) tr.

(** [n] turns of sleeping for [interval] and then probing. *)
Fixpoint cycles (interval : Duration) (probe : Event) (n : nat) : list Event :=
  match n with
  | O => []
  | S n' => EvSleep interval :: probe :: cycles interval probe n'
  end.

(** The answer to a status probe is no terminal status: the probe failed,
    or it reports no operation, or a status that is neither the successful
    one nor an error. *)
Definition still_pending (r : result jobject) : bool :=
  match r with
  | Err _ => true
  | Ok result =>
      match jarray "operations" result with
      | None | Some [] => true
      | Some (op0 :: _) =>
          match as_map op0 with
          | None => false
          | Some op =>
              let status := default "" (jstring "status" op) in
              negb (String.eqb status "MEDIA_GENERATION_STATUS_SUCCESSFUL")
              && negb (HasPrefix status "MEDIA_GENERATION_STATUS_ERROR")
          end
      end
  end.

(** The kind of slot a model needs. *)
Definition kind_of (modelConfig : ModelConfig) : Kind :=
  if String.eqb (Type_ modelConfig) "image" then KImage else KVideo.

(** The message that opens a streamed request. *)
Definition started (modelConfig : ModelConfig) : string :=
  "✨ " +:+ (if String.eqb (Type_ modelConfig) "video" then "Video" else "Image")
     +:+ " generation task started" +:+ nl.

(** The streamed request for [model] gets as far as dispatching: the model
    is known, [SelectToken] hands out a credential, [IsATValid] accepts it,
    it is read back as [token], and [EnsureProjectExists] yields
    [projectID], which leaves the world [w']. *)
Definition dispatches (env : Env) (model : string) (w : World)
  (modelConfig : ModelConfig) (token : Token) (projectID : string) (w' : World) : Prop :=
  lookup_model model ModelConfigs = Some modelConfig
  /\ exists selected w0 w1 w2,
       sendStreamChunk (started modelConfig) "" false w = (tt, w0)
       /\ fst (SelectToken env (String.eqb (Type_ modelConfig) "image")
                 (String.eqb (Type_ modelConfig) "video") model w0)
          = (Some selected, None)
       /\ sendStreamChunk ("Initializing generation environment..." +:+ nl) "" false w0
          = (tt, w1)
       /\ IsATValid env (ID selected) w1 = ((true, None), w2)
       /\ DB.GetToken (ID selected) (db w2) = Ok token
       /\ EnsureProjectExists env (ID token) w2 = (Ok projectID, w').

(** Taking and giving back a slot, as the handlers do around their work. *)
Definition take_slot (k : Kind) (tokenID : Z) : M unit :=
  let* cm := get_cm in put_cm (snd (acquire k tokenID cm)).

Definition free_slot (k : Kind) (tokenID : Z) : M unit :=
  let* cm := get_cm in put_cm (release k tokenID cm).

(** The message of a refused slot. *)
Definition limit_reached (k : Kind) : string :=
  match k with
  | KImage => "Image concurrency limit reached"
  | KVideo => "Video concurrency limit reached"
  end.

(** The message of the validation of the number of images of an i2v model. *)
Definition i2v_message (modelConfig : ModelConfig) (imageCount : Z) : string :=
  "I2V model requires " +:+ pretty (MinImages modelConfig) +:+ "-"
    +:+ pretty (MaxImages modelConfig) +:+ " images, got " +:+ pretty imageCount.

(** The rows of the credentials once [id] has been disabled. *)
Definition disabled_rows (id : Z) (ts : list Token) : list Token :=
  List.map (fun t => if ID t =? id then apply_update t (is_active false) else t) ts.

(** The world right after the exchange has been asked for. *)
Definition asked (w : World) (token : Token) : World :=
  {| db := db w; concurrencyManager := concurrencyManager w;
     trace := trace w ++ [EvSTToAT (ST token)] |}.

(** What one turn of the loop of [AutoUnban429Tokens] does to the store. *)
Definition sweep_step (now : Time) (d : Database) (token : Token) : Database :=
  if unban_due now token then
    DB.ResetErrorCount (ID token)
      (DB.UpdateToken (ID token) [is_active true; ban_reason None; banned_at None] d)
  else d.

(** What the turn for [t] makes of the row [x]. *)
Definition sweep_row (now : Time) (x t : Token) : Token :=
  if unban_due now t && (ID x =? ID t) then reactivated x else x.

(** From [w], the computation ending in [res] made at most [r] turns of
    sleeping and probing and nothing else on the timeline, and exactly [r]
    if it ran the loop to its end. *)
Definition polled (env : Env) (token : Token) (operations : list jobject)
  (w : World) (res : option Outcome * World) (r : nat) : Prop :=
  exists new n,
    trace (snd res) = trace w ++ new
    /\ timeline new
       = cycles (PollInterval (cfg env)) (EvCheckVideoStatus (AT token) operations) n
    /\ (n <= r)%nat
    /\ (fst res = None -> n = r).

(** Whether [op] is a call for the slots of kind [k] of [tokenID], or
    stores limits for [tokenID]. *)
Definition concerns (k : Kind) (tokenID : Z) (op : Op) : bool :=
  match op with
  | OpAcquire k' id | OpRelease k' id => bool_decide (k' = k) && (id =? tokenID)
  | _ => registers tokenID op
  end.

(** Two managers hold the same for the slots of kind [k] of [tokenID]. *)
Definition agree (k : Kind) (tokenID : Z) (cm1 cm2 : ConcurrencyManager) : Prop :=
  counter k cm1 tokenID = counter k cm2 tokenID
  /\ limits cm1 !! tokenID = limits cm2 !! tokenID.

(** The limits a credential declares. *)
Definition declared (token : Token) : Limit :=
  {| imageLimit := ImageConcurrency token; videoLimit := VideoConcurrency token |}.

(** The statements that write to the table of statistics, and a run of
    them. *)
Inductive StatsOp :=
| OpIncrementTokenStats (today : string) (tokenID : Z) (statType : string)
| OpResetErrorCount (tokenID : Z).

Definition stats_step (d : Database) (op : StatsOp) : Database :=
  match op with
  | OpIncrementTokenStats today tokenID statType =>
      snd (DB.IncrementTokenStats today tokenID statType d)
  | OpResetErrorCount tokenID => DB.ResetErrorCount tokenID d
  end.

(** The counters of a row of statistics fit together: every success is an
    image or a video, the counters of the day are part of the totals, and
    the errors in a row are part of the errors. *)
Definition consistent (s : TokenStats) : Prop :=
  SuccessCount s = ImageCount s + VideoCount s
  /\ 0 <= TodayImageCount s <= ImageCount s
  /\ 0 <= TodayVideoCount s <= VideoCount s
  /\ 0 <= TodayErrorCount s <= ErrorCount s
  /\ 0 <= ConsecutiveErrorCount s <= ErrorCount s.

(** No total of [s'] is below that of [s]. *)
Definition grown (s s' : TokenStats) : Prop :=
  ImageCount s <= ImageCount s' /\ VideoCount s <= VideoCount s'
  /\ SuccessCount s <= SuccessCount s' /\ ErrorCount s <= ErrorCount s'.

(** What a statement makes of the row of [tokenID], if it finds one. *)
Definition stats_row (op : StatsOp) (tokenID : Z) (s : TokenStats) : TokenStats :=
  match op with
  | OpIncrementTokenStats today id statType =>
      if id =? tokenID then
        let s1 := DB.reset_today today s in
        if String.eqb statType "image" then DB.count_image s1
        else if String.eqb statType "video" then DB.count_video s1
        else if String.eqb statType "error" then DB.count_error s1
        else s1
      else s
  | OpResetErrorCount id => if id =? tokenID then DB.clear_consecutive s else s
  end.

(** A counter of the day as it stands on [today]: what the row holds if
    the row is of that day, and 0 otherwise. *)
Definition of_the_day (today : string) (s : TokenStats) (n : Z) : Z :=
  match TodayDate s with
  | Some day => if String.eqb day today then n else 0
  | None => 0
  end.

(** The column an entry of the [updates] map is for: its key. *)
Definition column (u : Update) : string :=
  match u with
  | is_active _ => "is_active"
  | ban_reason _ => "ban_reason"
  | banned_at _ => "banned_at"
  | at_ _ => "at"
  | at_expires _ => "at_expires"
  | credits _ => "credits"
  | last_used_at _ => "last_used_at"
  | current_project_id _ => "current_project_id"
  | current_project_name _ => "current_project_name"
  end.

(** The row of the task [taskID] once [pollVideoResult] has completed it. *)
Definition completed (t : Task) (resultURLs : list string) (now : Time) : Task :=
  {| TaskID := TaskID t; TokenID := TokenID t; Model := Model t; Prompt := Prompt t;
     Status := "completed"; Progress := 100; ResultURLs := resultURLs;
     CompletedAt := Some now |}.

(** ** What a computation does to the state the services share *)

(** [m] takes every world to one that [R] relates it to. *)
Definition effect (R : relation World) {A : Type} (m : M A) : Prop :=
  forall w, R w (snd (m w)).

(** The history has grown, by events that [allowed] admits. *)
Definition grows (allowed : Event -> bool) (w w' : World) : Prop :=
  exists new, trace w' = trace w ++ new /\ forallb allowed new = true.

(** The same, and the slot table is as it was. *)
Definition extends (allowed : Event -> bool) (w w' : World) : Prop :=
  concurrencyManager w' = concurrencyManager w /\ grows allowed w w'.

(** The rows of the credentials, their statistics and the configuration of
    the administration are as they were. *)
Definition same_rows (w w' : World) : Prop :=
  tokens (db w') = tokens (db w)
  /\ token_stats (db w') = token_stats (db w)
  /\ admin_config (db w') = admin_config (db w).

(** The store is as it was. *)
Definition same_store (w w' : World) : Prop := db w' = db w.

(** Every limit and every counter of the slot table is as it was, provided
    the counters were not negative and had room to go up. *)
Definition slots_kept (w w' : World) : Prop :=
  (forall k id, 0 <= counter k (concurrencyManager w) id < int_max) ->
  limits (concurrencyManager w') = limits (concurrencyManager w)
  /\ forall k id,
       counter k (concurrencyManager w') id = counter k (concurrencyManager w) id.

(** Of the rows of the credentials and of their statistics only those of
    the credential [id] may differ: no credential has come or gone, the other
    credentials are read as before, with their statistics, and the
    configuration of the administration is as it was. *)
Definition writes_only (id : Z) (w w' : World) : Prop :=
  List.map ID (tokens (db w')) = List.map ID (tokens (db w))
  /\ (forall id', id' <> id ->
        DB.GetToken id' (db w') = DB.GetToken id' (db w)
        /\ token_stats (db w') !! id' = token_stats (db w) !! id')
  /\ admin_config (db w') = admin_config (db w).

(** The events of the parts of a request: what is sent to the client; what
    polling for a video adds; what the generation of an image, of a video, and
    of a video from text alone may do; what checking the access token and the
    project of a credential may ask; and everything but the closing of the
    channel. *)
Definition sent (e : Event) : bool :=
  match e with
  | EvStreamChunk _ _ _ | EvErrorResponse _ | EvCompletionResponse _ _ _ => true
  | _ => false
  end.

Definition polling (e : Event) : bool :=
  sent e || match e with
            | EvSleep _ | EvCheckVideoStatus _ _ | EvCacheFile _ _ => true
            | _ => false
            end.

Definition image_event (e : Event) : bool :=
  sent e || match e with
            | EvUploadImage _ _ _ | EvGenerateImage _ _ _ _ _ _ | EvCacheFile _ _ => true
            | _ => false
            end.

Definition video_event (e : Event) : bool :=
  polling e || match e with
               | EvUploadImage _ _ _ | EvGenerateVideoText _ _ _ _ _ _
               | EvGenerateVideoReferenceImages _ _ _ _ _ _ _
               | EvGenerateVideoStartEnd _ _ _ _ _ _ _ _ => true
               | _ => false
               end.

Definition text_to_video (e : Event) : bool :=
  polling e || match e with EvGenerateVideoText _ _ _ _ _ _ => true | _ => false end.

Definition preparing (e : Event) : bool :=
  sent e || match e with
            | EvSTToAT _ | EvGetCredits _ | EvCreateProject _ _ => true
            | _ => false
            end.

Definition not_close (e : Event) : bool :=
  match e with EvClose => false | _ => true end.

(** No image is uploaded, and nothing is generated but a video from text. *)
Definition from_text_only (e : Event) : bool :=
  match e with
  | EvUploadImage _ _ _ | EvGenerateImage _ _ _ _ _ _
  | EvGenerateVideoReferenceImages _ _ _ _ _ _ _
  | EvGenerateVideoStartEnd _ _ _ _ _ _ _ _ => false
  | _ => true
  end.

(** A piece of work done with a slot, the way [handleImageGeneration] and
    [handleVideoGeneration] do theirs: the slot is asked for, the work is
    done if it is granted, and the slot is given back however the work
    ends. *)
Definition with_slot (k : Kind) (tokenID : Z) (body : M Outcome) : M Outcome :=
  let* cm := get_cm in
  let (acquired, cm') := acquire k tokenID cm in
  if negb acquired then
    let errMsg := limit_reached k in
    sendFailure errMsg ;;
    ret (Returned (Some errMsg))
  else
    put_cm cm' ;;
    let* out := body in
    (let* cm := get_cm in put_cm (release k tokenID cm)) ;;
    ret out.




(** The project [EnsureProjectExists] records for a credential. *)
Definition project_of (id : Z) (projectID projectName : string) : Project :=
  {| ProjectID := projectID; ProjectTokenID := id; ProjectName := projectName;
     ToolName := "PINHOLE"; ProjectIsActive := true |}.

(* ===================================================================== *)
(** * TokenManager: the operations of the administration *)
(* ===================================================================== *)

(** [updates[key] = value] on the map of the entries: the entry for the
    column replaces the one there is, if any. *)
Definition set_update (u : Update) (updates : list Update) : list Update :=
  List.filter (fun u' => negb (String.eqb (column u') (column u))) updates ++ [u].

Section Administration.

Context (env : Env).

(** [AddToken] is left out: it reports the [Email] of a credential, which
    the rows kept here do not hold.  [updates] is the map the caller has
    made, with at most one entry for a column (writing to a nil map panics);
    it holds entries for the columns of [Update]. *)

Definition DeleteToken (foreign_keys : bool) (id : Z) : M error :=
  modify_db (DB.DeleteToken foreign_keys id) ;; ret None.

Definition EnableToken (id : Z) : M error :=
  modify_db (DB.UpdateToken id [is_active true]) ;;
  modify_db (DB.ResetErrorCount id) ;;
  ret None.

Definition UpdateToken (id : Z) (updates : list Update) : M error :=
  let* r := GetToken id in
  match r with
  | Err e => ret (Some e)
  | Ok token =>
      let* updates :=
        if String.eqb (BanReason token) "429_rate_limit" then
          let* isExpired :=
            match ATExpires token with
            | Some expires => let* now := time_Now env in ret (Before expires now)
            | None => ret false
            end in
          if negb isExpired then
            ret (set_update (banned_at None) (set_update (ban_reason None) updates))
          else ret updates
        else ret updates in
      modify_db (DB.UpdateToken id updates) ;;
      ret None
  end.



Definition GetTokenStats (id : Z) : M TokenStats :=
  let* d := get_db in ret (DB.GetTokenStats id d).

End Administration.

(* ===================================================================== *)
(** * internal/api *)
(* ===================================================================== *)

(** [strings.HasPrefix(s, prefix)], with what is left of [s] behind the
    prefix. *)
Fixpoint cut_prefix (prefix s : string) : option string :=
  match prefix, s with
  | EmptyString, _ => Some s
  | String a prefix', String b s' => if Ascii.eqb a b then cut_prefix prefix' s' else None
  | String _ _, EmptyString => None
  end.

(** [strings.TrimPrefix] *)
Definition TrimPrefix (s prefix : string) : string :=
  match cut_prefix prefix s with
  | Some rest => rest
  | None => s
  end.

(** What a handler of the router answers: a status with an error message,
    or the call of the next handler. *)
Inductive Response : Type :=
  | StatusError (status : Z) (message : string)
  | Next.

(** [auth] is the value of the header [Authorization], empty when the
    request has none, and [configured] the API key of the configuration. *)
Definition authMiddleware (configured auth : string) : Response :=
  if String.eqb auth "" then StatusError 401 "Missing authorization"
  else
    let apiKey := TrimPrefix auth "Bearer " in
    if negb (String.eqb apiKey configured) then StatusError 401 "Invalid API key"
    else Next.

(** ** Concrete stores and outside worlds, to run the services on *)

Module Scenario.

(** The clock stands at [now]; every upstream call and download succeeds,
    with an answer that holds nothing. *)
Definition env_at (now : Time) (c : Config) : Env :=
  {| cfg := c;
     Now := fun _ => now;
     FormatDate := fun _ => "2025-01-01";
     FormatProjectName := fun _ => "Jan 01 - 00:00";
     ParseRFC3339 := fun _ => None;
     answer_map := fun _ => Ok [];
     answer_string := fun _ => Ok "";
     progress_percent := fun attempt maxAttempts => Z.min (attempt * 100 / maxAttempts) 95 |}.

Definition config0 : Config :=
  {| MaxPollAttempts := 3; PollInterval := 3 * Second; CacheEnabled := false |}.

(** As [env_at], but every upstream call answers that one operation is
    still pending. *)
Definition env_pending (now : Time) (c : Config) : Env :=
  {| cfg := c;
     Now := fun _ => now;
     FormatDate := fun _ => "2025-01-01";
     FormatProjectName := fun _ => "Jan 01 - 00:00";
     ParseRFC3339 := fun _ => None;
     answer_map := fun _ =>
       Ok [("operations",
            JArray [JObject [("status", JString "MEDIA_GENERATION_STATUS_PENDING")]])];
     answer_string := fun _ => Ok "";
     progress_percent := fun attempt maxAttempts => Z.min (attempt * 100 / maxAttempts) 95 |}.

(** An active credential with a project and an access token good for a
    day from the epoch, able to do both kinds, limited to [imageConcurrency]
    images at a time and unlimited for videos. *)
Definition token_with (id : Z) (credits : Z) (lastUsedAt : option Time)
  (imageConcurrency : Z) : Token :=
  {| ID := id; ST := "st"; AT := "at"; ATExpires := Some (24 * Hour); IsActive := true;
     LastUsedAt := lastUsedAt; Credits := credits; UserPaygateTier := "";
     CurrentProjectID := "project"; CurrentProjectName := "name";
     ImageEnabled := true; VideoEnabled := true;
     ImageConcurrency := imageConcurrency; VideoConcurrency := -1;
     BanReason := ""; BannedAt := None |}.

(** A store holding [ts], each with a fresh row of statistics, and the
    default ban threshold of 3; the slot table is seeded from it as [main]
    does at start. *)
Definition world_of (ts : list Token) : World :=
  {| db := {| tokens := ts;
              token_stats := list_to_map (List.map (fun t => (ID t, DB.zero_stats)) ts);
              admin_config := Some {| ErrorBanThreshold := 3 |};
              projects := []; tasks := [] |};
     concurrencyManager := Initialize ts NewConcurrencyManager;
     trace := [] |}.

(** As [env_at], with an upstream service that generates: an image is
    delivered at once, and a video is reported as pending by the first
    status probe and as made by the second. *)
Definition env_generating (now : Time) (c : Config) : Env :=
  {| cfg := c;
     Now := fun _ => now;
     FormatDate := fun _ => "2025-01-01";
     FormatProjectName := fun _ => "Jan 01 - 00:00";
     ParseRFC3339 := fun _ => None;
     answer_map := fun history =>
       match List.last history EvClose with
       | EvGenerateImage _ _ _ _ _ _ =>
           Ok [("media",
                JArray [JObject [("image",
                  JObject [("generatedImage",
                    JObject [("fifeUrl", JString "https://upstream/image")])])]])]
       | EvGenerateVideoText _ _ _ _ _ _ =>
           Ok [("operations",
                JArray [JObject [("operation", JObject [("name", JString "task-1")])]])]
       | EvCheckVideoStatus _ _ =>
           if (length (probes history) <? 2)%nat then
             Ok [("operations",
                  JArray [JObject [("status", JString "MEDIA_GENERATION_STATUS_PENDING")]])]
           else
             Ok [("operations",
                  JArray [JObject
                    [("status", JString "MEDIA_GENERATION_STATUS_SUCCESSFUL");
                     ("operation",
                      JObject [("name", JString "task-1");
                               ("metadata",
                                JObject [("video",
                                  JObject [("fifeUrl", JString "https://upstream/video")])])])]])]
       | _ => Ok []
       end;
     answer_string := fun _ => Ok "";
     progress_percent := fun attempt maxAttempts => Z.min (attempt * 100 / maxAttempts) 95 |}.

(** A streamed request for an image, by a credential that allows no image
    at all: it is selected, since the scheduler looks at the slots of positive
    limits only, and reaches the dispatch in the world [refused_world]. *)
Definition refused_token : Token := token_with 1 10 None 0.

Definition refused_model : ModelConfig :=
  {| Type_ := "image"; VideoType := ""; ModelName := "GEM_PIX"; ModelKey := "";
     AspectRatio := "IMAGE_ASPECT_RATIO_LANDSCAPE"; SupportsImages := false;
     MinImages := 0; MaxImages := 0 |}.

Definition refused_world : World :=
  snd ((sendStreamChunk (started refused_model) "" false ;;
        sendStreamChunk ("Initializing generation environment..." +:+ nl) "" false)
         (world_of [refused_token])).

(** The same request by a credential that allows one image at a time: it
    is selected while its slot is free, and another request takes the slot
    before the handler asks for it. *)
Definition busy_token : Token := token_with 1 10 None 1.

Definition busy_world : World :=
  snd ((sendStreamChunk (started refused_model) "" false ;;
        sendStreamChunk ("Initializing generation environment..." +:+ nl) "" false)
         (world_of [busy_token])).

Definition another_request : list Op := [OpAcquire KImage 1].

(** An active credential of 1000 credits, last used at [lastUsedAt], whose
    access token has no known expiry. *)
Definition idle_token (id : Z) (lastUsedAt : Time) : Token :=
  {| ID := id; ST := "st"; AT := "at"; ATExpires := None; IsActive := true;
     LastUsedAt := Some lastUsedAt; Credits := 1000; UserPaygateTier := "";
     CurrentProjectID := "project"; CurrentProjectName := "name";
     ImageEnabled := true; VideoEnabled := true;
     ImageConcurrency := -1; VideoConcurrency := -1;
     BanReason := ""; BannedAt := None |}.

End Scenario.

(* ===================================================================== *)
(** * Properties *)
(* ===================================================================== *)

(** ** Machine integers and durations *)

Lemma wrap_id z : is_int z -> wrap z = z.
Proof.
  unfold is_int, wrap, int_min, int_max. intros H.
  rewrite Z.mod_small; lia.
Qed.

Lemma wrap_is_int z : is_int (wrap z).
Proof.
  unfold is_int, wrap, int_min, int_max.
  pose proof (Z.mod_pos_bound (z + 2 ^ 63) (2 ^ 64)). lia.
Qed.

Lemma incr_exact z : is_int z -> z < int_max -> incr z = z + 1.
Proof.
  unfold incr, is_int, int_min, int_max. intros H1 H2.
  apply wrap_id. unfold is_int, int_min, int_max. lia.
Qed.

Lemma decr_exact z : is_int z -> int_min < z -> decr z = z - 1.
Proof.
  unfold decr, is_int, int_min, int_max. intros H1 H2.
  apply wrap_id. unfold is_int, int_min, int_max. lia.
Qed.

Lemma incr_is_int z : is_int (incr z).
Proof. apply wrap_is_int. Qed.

Lemma decr_is_int z : is_int (decr z).
Proof. apply wrap_is_int. Qed.

Lemma Sub_ge (t u : Time) (d : Duration) :
  minDuration < d <= maxDuration -> (d <= Sub t u <-> d <= t - u).
Proof.
  unfold Sub, minDuration, maxDuration. intros Hd.
  destruct (Z.ltb_spec (t - u) (- 2 ^ 63)); [lia|].
  destruct (Z.ltb_spec (2 ^ 63 - 1) (t - u)); lia.
Qed.

Lemma Sub_lt (t u : Time) (d : Duration) :
  minDuration < d <= maxDuration -> (Sub t u < d <-> t - u < d).
Proof.
  unfold Sub, minDuration, maxDuration. intros Hd.
  destruct (Z.ltb_spec (t - u) (- 2 ^ 63)); [lia|].
  destruct (Z.ltb_spec (2 ^ 63 - 1) (t - u)); lia.
Qed.


(** ** ConcurrencyManager *)

Section ConcurrencyManagerFacts.

Implicit Types (k : Kind) (cm : ConcurrencyManager) (id : Z).

Lemma slot_get_insert_eq (m : gmap Z Z) id v : slot_get (<[id := v]> m) id = v.
Proof. unfold slot_get. by rewrite lookup_insert_eq. Qed.

Lemma slot_get_insert_ne (m : gmap Z Z) id id' v :
  id <> id' -> slot_get (<[id := v]> m) id' = slot_get m id'.
Proof. intros Hne. unfold slot_get. by rewrite lookup_insert_ne. Qed.

Lemma acquire_unfold k id cm :
  acquire k id cm = if limit_met k id cm then (false, cm) else (true, granted k id cm).
Proof.
  unfold limit_met, limit_of, counter.
  destruct k; simpl; unfold AcquireImage, AcquireVideo;
    destruct (limits cm !! id) as [l|]; simpl; try reflexivity.
  - destruct (Z.ltb_spec (imageLimit l) 0), (Z.leb_spec 0 (imageLimit l)); try lia;
      simpl; reflexivity.
  - destruct (Z.ltb_spec (videoLimit l) 0), (Z.leb_spec 0 (videoLimit l)); try lia;
      simpl; reflexivity.
Qed.

Lemma canAcquire_unfold k id cm : canAcquire k id cm = negb (limit_met k id cm).
Proof.
  unfold limit_met, limit_of, counter.
  destruct k; simpl; unfold CanAcquireImage, CanAcquireVideo;
    destruct (limits cm !! id) as [l|]; simpl; try reflexivity.
  - destruct (Z.ltb_spec (imageLimit l) 0), (Z.leb_spec 0 (imageLimit l)); try lia;
      simpl; try reflexivity.
    all: rewrite Z.leb_antisym; by rewrite negb_involutive.
  - destruct (Z.ltb_spec (videoLimit l) 0), (Z.leb_spec 0 (videoLimit l)); try lia;
      simpl; try reflexivity.
    all: rewrite Z.leb_antisym; by rewrite negb_involutive.
Qed.

Lemma granted_limits k id cm : limits (granted k id cm) = limits cm.
Proof. by destruct k. Qed.

Lemma granted_limit_of k id cm k' id' :
  limit_of k' (granted k id cm) id' = limit_of k' cm id'.
Proof. by destruct k, k'. Qed.

Lemma granted_counter k id cm :
  counter k (granted k id cm) id = incr (counter k cm id).
Proof. destruct k; simpl; apply slot_get_insert_eq. Qed.

Lemma granted_counter_other k id cm k' id' :
  (k', id') <> (k, id) -> counter k' (granted k id cm) id' = counter k' cm id'.
Proof.
  intros Hne. destruct k, k'; simpl; try reflexivity;
    apply slot_get_insert_ne; congruence.
Qed.

Lemma release_unfold k id cm :
  release k id cm = cm \/
  (0 < counter k cm id /\ limits (release k id cm) = limits cm /\
   counter k (release k id cm) id = decr (counter k cm id)).
Proof.
  destruct k; simpl; unfold ReleaseImage, ReleaseVideo.
  - destruct (Z.ltb_spec 0 (slot_get (imageSlots cm) id)); [right|by left].
    simpl. by rewrite slot_get_insert_eq.
  - destruct (Z.ltb_spec 0 (slot_get (videoSlots cm) id)); [right|by left].
    simpl. by rewrite slot_get_insert_eq.
Qed.

Lemma release_at_zero k id cm : counter k cm id <= 0 -> release k id cm = cm.
Proof.
  destruct k; simpl; unfold ReleaseImage, ReleaseVideo; intros H.
  - destruct (Z.ltb_spec 0 (slot_get (imageSlots cm) id)); [lia|done].
  - destruct (Z.ltb_spec 0 (slot_get (videoSlots cm) id)); [lia|done].
Qed.

Lemma release_positive k id cm :
  0 < counter k cm id ->
  counter k (release k id cm) id = decr (counter k cm id).
Proof.
  destruct k; simpl; unfold ReleaseImage, ReleaseVideo; intros H.
  - destruct (Z.ltb_spec 0 (slot_get (imageSlots cm) id)); [|lia].
    simpl. by rewrite slot_get_insert_eq.
  - destruct (Z.ltb_spec 0 (slot_get (videoSlots cm) id)); [|lia].
    simpl. by rewrite slot_get_insert_eq.
Qed.

Lemma release_limits k id cm : limits (release k id cm) = limits cm.
Proof.
  destruct k; simpl; unfold ReleaseImage, ReleaseVideo.
  - by destruct (0 <? slot_get (imageSlots cm) id).
  - by destruct (0 <? slot_get (videoSlots cm) id).
Qed.

Lemma release_limit_of k id cm k' id' :
  limit_of k' (release k id cm) id' = limit_of k' cm id'.
Proof. unfold limit_of. by rewrite release_limits. Qed.

Lemma release_counter_other k id cm k' id' :
  (k', id') <> (k, id) -> counter k' (release k id cm) id' = counter k' cm id'.
Proof.
  intros Hne. destruct k; simpl; unfold ReleaseImage, ReleaseVideo.
  - destruct (0 <? slot_get (imageSlots cm) id); [|done].
    destruct k'; simpl; [|done]. apply slot_get_insert_ne. congruence.
  - destruct (0 <? slot_get (videoSlots cm) id); [|done].
    destruct k'; simpl; [done|]. apply slot_get_insert_ne. congruence.
Qed.

Lemma Initialize_counter tokens k cm id :
  counter k (Initialize tokens cm) id = counter k cm id.
Proof.
  unfold Initialize. revert cm.
  induction tokens as [|t ts IH]; intros cm; simpl; [done|].
  rewrite IH. by destruct k.
Qed.

Lemma Initialize_limits_other tokens cm id :
  existsb (fun token => ID token =? id) tokens = false ->
  limits (Initialize tokens cm) !! id = limits cm !! id.
Proof.
  unfold Initialize. revert cm.
  induction tokens as [|t ts IH]; intros cm; simpl; [done|].
  intros [Ht Hts]%orb_false_iff. rewrite IH by done.
  simpl. apply lookup_insert_ne. lia.
Qed.

Lemma UpdateTokenLimits_counter tokenID il vl k cm id :
  counter k (UpdateTokenLimits tokenID il vl cm) id = counter k cm id.
Proof. by destruct k. Qed.

Lemma acquire_n_S k id n cm :
  acquire_n k id (S n) cm =
    (fst (acquire k id cm) :: fst (acquire_n k id n (snd (acquire k id cm))),
     snd (acquire_n k id n (snd (acquire k id cm)))).
Proof.
  simpl. destruct (acquire k id cm) as [b cm1]. simpl.
  by destruct (acquire_n k id n cm1).
Qed.

Lemma limit_met_false_unlimited k id cm : unlimited k id cm -> limit_met k id cm = false.
Proof.
  unfold unlimited, limit_met. destruct (limit_of k cm id) as [L|]; [|done].
  intros HL. destruct (Z.leb_spec 0 L); [lia|done].
Qed.

(** Without a limit in the way every call is granted. *)
Lemma acquire_n_unlimited k id n : forall cm,
  unlimited k id cm ->
  fst (acquire_n k id n cm) = repeat true n /\
  unlimited k id (snd (acquire_n k id n cm)).
Proof.
  induction n as [|n IH]; intros cm Hun; [done|].
  rewrite acquire_n_S, acquire_unfold, limit_met_false_unlimited by done. simpl.
  destruct (IH (granted k id cm)) as [IH1 IH2].
  { unfold unlimited. by rewrite granted_limit_of. }
  by rewrite IH1.
Qed.

(** Under a limit [L >= 0], from a counter [c <= L]: the next [L - c]
    calls are granted and all later ones refused. *)
Lemma acquire_n_limited k id L n : forall cm,
  limit_of k cm id = Some L -> is_int L ->
  0 <= counter k cm id <= L ->
  let free := Z.to_nat (L - counter k cm id) in
  fst (acquire_n k id n cm) = repeat true (Nat.min n free) ++ repeat false (n - free) /\
  limit_of k (snd (acquire_n k id n cm)) id = Some L /\
  counter k (snd (acquire_n k id n cm)) id = Z.min L (counter k cm id + Z.of_nat n).
Proof.
  induction n as [|n IH]; intros cm HL HiL Hc free.
  { simpl. split; [done|]. split; [done|]. lia. }
  rewrite acquire_n_S, acquire_unfold.
  destruct (limit_met k id cm) eqn:Hmet; unfold limit_met in Hmet; rewrite HL in Hmet; simpl.
  - apply andb_true_iff in Hmet as [_ Hge%Z.leb_le].
    destruct (IH cm HL HiL Hc) as (IH1 & IH2 & IH3).
    assert (free = 0%nat) as Hfree by (unfold free; lia).
    rewrite IH1, IH2, IH3. fold free. rewrite Hfree.
    rewrite Nat.min_0_r, Nat.sub_0_r. simpl.
    split; [done|]. split; [done|]. lia.
  - apply andb_false_iff in Hmet as [Hlt%Z.leb_gt|Hlt%Z.leb_gt]; [lia|].
    assert (counter k (granted k id cm) id = counter k cm id + 1) as Hc'.
    { rewrite granted_counter. apply incr_exact; unfold is_int, int_min, int_max in *; lia. }
    destruct (IH (granted k id cm)) as (IH1 & IH2 & IH3).
    { by rewrite granted_limit_of. }
    { done. }
    { lia. }
    rewrite IH1, IH2, IH3, Hc'.
    assert (free = S (Z.to_nat (L - (counter k cm id + 1)))) as Hfree by (unfold free; lia).
    rewrite Hfree. simpl.
    split; [done|]. split; [done|]. lia.
Qed.

Lemma release_n_limits k id n : forall cm, limits (release_n k id n cm) = limits cm.
Proof.
  induction n as [|n IH]; intros cm; [done|].
  simpl. by rewrite IH, release_limits.
Qed.

(** Releasing floors the counter at 0. *)
Lemma release_n_counter k id n : forall cm,
  0 <= counter k cm id -> is_int (counter k cm id) ->
  counter k (release_n k id n cm) id = Z.max 0 (counter k cm id - Z.of_nat n).
Proof.
  induction n as [|n IH]; intros cm Hc Hint; [simpl; lia|].
  simpl. destruct (Z.le_gt_cases (counter k cm id) 0) as [Hz|Hpos].
  - rewrite release_at_zero by done. rewrite IH by done. lia.
  - assert (counter k (release k id cm) id = counter k cm id - 1) as Hr.
    { rewrite release_positive by lia. apply decr_exact; [done|].
      unfold int_min. lia. }
    rewrite IH; rewrite Hr; unfold is_int, int_min, int_max in *; lia.
Qed.

(** One call moves a non-negative counter by at most one, and not below 0. *)
Lemma step_counter k id cm op :
  0 <= counter k cm id < int_max ->
  0 <= counter k (step cm op) id <= counter k cm id + 1.
Proof.
  intros Hc. destruct op as [tokens|tokenID il vl|k' id'|k' id']; simpl.
  - rewrite Initialize_counter. lia.
  - rewrite UpdateTokenLimits_counter. lia.
  - rewrite acquire_unfold. destruct (limit_met k' id' cm); simpl; [lia|].
    destruct (decide ((k, id) = (k', id'))) as [[= <- <-]|Hne].
    + rewrite granted_counter, incr_exact; unfold is_int, int_min, int_max in *; lia.
    + rewrite granted_counter_other by done. lia.
  - destruct (decide ((k, id) = (k', id'))) as [[= <- <-]|Hne].
    + destruct (Z.le_gt_cases (counter k cm id) 0) as [Hz|Hpos].
      * rewrite release_at_zero by done. lia.
      * rewrite release_positive, decr_exact by
          (unfold is_int, int_min, int_max in *; lia). lia.
    + rewrite release_counter_other by done. lia.
Qed.

Lemma run_counter_bounds k id ops : forall cm,
  0 <= counter k cm id ->
  counter k cm id + Z.of_nat (length ops) <= int_max ->
  0 <= counter k (run cm ops) id <= counter k cm id + Z.of_nat (length ops).
Proof.
  unfold run.
  induction ops as [|op ops IH]; intros cm Hc Hlen; cbn [foldl length] in *; [lia|].
  rewrite Nat2Z.inj_succ in *.
  pose proof (step_counter k id cm op ltac:(lia)) as Hs.
  specialize (IH (step cm op) ltac:(lia) ltac:(lia)). lia.
Qed.

(** [acquire] and [release] keep the counter within the stored limit. *)
Lemma step_within_limit k id cm op :
  0 <= counter k cm id < int_max ->
  within_limit k id cm = true ->
  match op with
  | OpInitialize _ | OpUpdateTokenLimits _ _ _ => True
  | _ => within_limit k id (step cm op) = true
  end.
Proof.
  intros Hc Hw. destruct op as [tokens|tokenID il vl|k' id'|k' id']; simpl; [done|done| |].
  - rewrite acquire_unfold. destruct (limit_met k' id' cm) eqn:Hmet; simpl; [done|].
    unfold within_limit in *. rewrite granted_limit_of.
    destruct (limit_of k cm id) as [L|] eqn:HL; [|done].
    destruct (decide ((k, id) = (k', id'))) as [[= <- <-]|Hne].
    + rewrite granted_counter, incr_exact by
        (unfold is_int, int_min, int_max in *; lia).
      unfold limit_met in Hmet. rewrite HL in Hmet.
      apply orb_true_iff. apply andb_false_iff in Hmet as [Hlt%Z.leb_gt|Hlt%Z.leb_gt].
      * left. by apply Z.ltb_lt.
      * right. apply Z.leb_le. lia.
    + by rewrite granted_counter_other.
  - unfold within_limit in *. rewrite release_limit_of.
    destruct (limit_of k cm id) as [L|] eqn:HL; [|done].
    destruct (decide ((k, id) = (k', id'))) as [[= <- <-]|Hne].
    + destruct (Z.le_gt_cases (counter k cm id) 0) as [Hz|Hpos].
      * by rewrite release_at_zero.
      * rewrite release_positive, decr_exact by
          (unfold is_int, int_min, int_max in *; lia).
        apply orb_true_iff. apply orb_true_iff in Hw as [Hw%Z.ltb_lt|Hw%Z.leb_le].
        -- left. by apply Z.ltb_lt.
        -- right. apply Z.leb_le. lia.
    + by rewrite release_counter_other.
Qed.

Lemma run_within_limit k id ops : forall cm,
  0 <= counter k cm id ->
  counter k cm id + Z.of_nat (length ops) <= int_max ->
  within_limit k id cm = true ->
  limits_stored_within k id cm ops ->
  within_limit k id (run cm ops) = true.
Proof.
  unfold run.
  induction ops as [|op ops IH]; intros cm Hc Hlen Hw Hst;
    cbn [foldl length limits_stored_within] in *; [done|].
  rewrite Nat2Z.inj_succ in *.
  destruct Hst as [Hop Hrest].
  pose proof (step_counter k id cm op ltac:(lia)) as Hs.
  apply (IH (step cm op)); [lia|lia| |done].
  pose proof (step_within_limit k id cm op ltac:(lia) Hw) as Hk.
  by destruct op.
Qed.

Lemma run_unregistered id ops : forall cm,
  forallb (fun op => negb (registers id op)) ops = true ->
  limits (run cm ops) !! id = limits cm !! id.
Proof.
  unfold run.
  induction ops as [|op ops IH]; intros cm Hall; cbn [foldl forallb] in *; [done|].
  apply andb_true_iff in Hall as [Hop%negb_true_iff Hall].
  rewrite IH by done.
  destruct op as [tokens|tokenID il vl|k' id'|k' id']; simpl in *.
  - by apply Initialize_limits_other.
  - apply lookup_insert_ne. lia.
  - rewrite acquire_unfold. destruct (limit_met k' id' cm); simpl; [done|].
    by rewrite granted_limits.
  - by rewrite release_limits.
Qed.

Lemma counter_new k id : counter k NewConcurrencyManager id = 0.
Proof. by destruct k. Qed.

Lemma run_counter_is_int k id ops :
  Z.of_nat (length ops) <= int_max ->
  is_int (counter k (run NewConcurrencyManager ops) id).
Proof.
  intros Hlen.
  pose proof (run_counter_bounds k id ops NewConcurrencyManager) as H.
  rewrite counter_new in H. specialize (H ltac:(lia) ltac:(lia)).
  unfold is_int, int_min. lia.
Qed.

End ConcurrencyManagerFacts.

(** C1.  [acquire] checks and increments in one step, for either kind.
    With a stored limit [L]: if [L >= 0] and the counter has reached [L], the
    call answers [false] and changes nothing; otherwise ([L < 0], or the
    counter is below [L]) it answers [true] and the counter of that
    credential and kind goes up by one ([++] on a Go [int]), nothing else
    changing.  So from a counter of zero exactly [L] calls in a row are
    granted and every later one is refused, until a [release] frees a slot;
    and with [L < 0] every call is granted. *)
Theorem acquire_checks_and_increments
  (k : Kind) (tokenID : Z) (cm : ConcurrencyManager) (L : Z) :
  limit_of k cm tokenID = Some L ->
  is_int L ->
  is_int (counter k cm tokenID) ->
  (0 <= L -> L <= counter k cm tokenID -> acquire k tokenID cm = (false, cm))
  /\ (L < 0 \/ counter k cm tokenID < L ->
      acquire k tokenID cm = (true, granted k tokenID cm)
      /\ counter k (granted k tokenID cm) tokenID = incr (counter k cm tokenID)
      /\ (counter k cm tokenID < int_max ->
          counter k (granted k tokenID cm) tokenID = counter k cm tokenID + 1)
      /\ limits (granted k tokenID cm) = limits cm
      /\ (forall k' id', (k', id') <> (k, tokenID) ->
            counter k' (granted k tokenID cm) id' = counter k' cm id'))
  /\ (0 <= L -> counter k cm tokenID = 0 ->
      forall n : nat,
        fst (acquire_n k tokenID n cm)
        = repeat true (Nat.min n (Z.to_nat L)) ++ repeat false (n - Z.to_nat L))
  /\ (0 < L -> counter k cm tokenID = 0 ->
      forall n : nat, (Z.to_nat L <= n)%nat ->
        let full := snd (acquire_n k tokenID n cm) in
        fst (acquire k tokenID full) = false
        /\ fst (acquire k tokenID (release k tokenID full)) = true)
  /\ (L < 0 -> forall n : nat, fst (acquire_n k tokenID n cm) = repeat true n).
Proof.
  intros HL HiL Hic. repeat split.
  - intros H0 Hge. rewrite acquire_unfold. unfold limit_met. rewrite HL.
    destruct (Z.leb_spec 0 L); [|lia].
    destruct (Z.leb_spec L (counter k cm tokenID)); [done|lia].
  - rewrite acquire_unfold. unfold limit_met. rewrite HL.
    destruct (Z.leb_spec 0 L); [|done].
    destruct (Z.leb_spec L (counter k cm tokenID)); [lia|done].
  - apply granted_counter.
  - intros Hlt. rewrite granted_counter. by apply incr_exact.
  - apply granted_limits.
  - intros k' id' Hne. by apply granted_counter_other.
  - intros H0 Hz n.
    destruct (acquire_n_limited k tokenID L n cm HL HiL ltac:(lia)) as [Hres _].
    rewrite Hres, Hz. by rewrite Z.sub_0_r.
  - destruct (acquire_n_limited k tokenID L n cm HL HiL ltac:(lia)) as (_ & HL' & Hc').
    rewrite acquire_unfold. unfold limit_met. rewrite HL', Hc'.
    destruct (Z.leb_spec 0 L); [|lia].
    destruct (Z.leb_spec L (Z.min L (counter k cm tokenID + Z.of_nat n))); [done|lia].
  - destruct (acquire_n_limited k tokenID L n cm HL HiL ltac:(lia)) as (_ & HL' & Hc').
    rewrite acquire_unfold. unfold limit_met.
    rewrite release_limit_of, HL'.
    rewrite release_positive by lia. rewrite Hc'.
    rewrite decr_exact by (unfold is_int, int_min, int_max in *; lia).
    destruct (Z.leb_spec 0 L); [|lia].
    destruct (Z.leb_spec L (Z.min L (counter k cm tokenID + Z.of_nat n) - 1)); [lia|done].
  - intros Hneg n. apply acquire_n_unlimited. unfold unlimited. by rewrite HL.
Qed.

Lemma acquire_checks_and_increments_witness :
  let cm := UpdateTokenLimits 7 2 (-1) NewConcurrencyManager in
  fst (acquire_n KImage 7 4 cm) = [true; true; false; false]
  /\ fst (acquire_n KVideo 7 4 cm) = [true; true; true; true].
Proof.
  set (cm := UpdateTokenLimits 7 2 (-1) NewConcurrencyManager).
  split.
  - refine (proj1 (proj2 (proj2
              (acquire_checks_and_increments KImage 7 cm 2 eq_refl _ _))) _ eq_refl 4%nat);
      unfold is_int, int_min, int_max; vm_compute; try split; discriminate.
  - refine (proj2 (proj2 (proj2 (proj2
              (acquire_checks_and_increments KVideo 7 cm (-1) eq_refl _ _)))) _ 4%nat);
      unfold is_int, int_min, int_max; vm_compute; try split; try reflexivity; discriminate.
Defined.

(** C10.  A credential that no [Initialize] and no [UpdateTokenLimits] has
    registered is unlimited for both kinds, whatever calls came before:
    [canAcquire] answers [true], and [acquire] answers [true] and still
    counts the slot, however often it is called. *)
Theorem unregistered_credential_is_unlimited (k : Kind) (tokenID : Z) (ops : list Op) :
  forallb (fun op => negb (registers tokenID op)) ops = true ->
  let cm := run NewConcurrencyManager ops in
  canAcquire k tokenID cm = true
  /\ acquire k tokenID cm = (true, granted k tokenID cm)
  /\ counter k (granted k tokenID cm) tokenID = incr (counter k cm tokenID)
  /\ (Z.of_nat (length ops) < int_max ->
      counter k (granted k tokenID cm) tokenID = counter k cm tokenID + 1)
  /\ (forall n : nat, fst (acquire_n k tokenID n cm) = repeat true n).
Proof.
  intros Hun cm.
  assert (limits cm !! tokenID = None) as Hnone.
  { unfold cm. by rewrite run_unregistered. }
  assert (unlimited k tokenID cm) as Hu.
  { unfold unlimited, limit_of. destruct k; by rewrite Hnone. }
  repeat split.
  - by rewrite canAcquire_unfold, limit_met_false_unlimited.
  - by rewrite acquire_unfold, limit_met_false_unlimited.
  - apply granted_counter.
  - intros Hlen. rewrite granted_counter.
    pose proof (run_counter_bounds k tokenID ops NewConcurrencyManager) as Hb.
    rewrite counter_new in Hb. specialize (Hb ltac:(lia) ltac:(lia)). fold cm in Hb.
    apply incr_exact; unfold is_int, int_min, int_max in *; lia.
  - intros n. by apply acquire_n_unlimited.
Qed.

Lemma unregistered_credential_is_unlimited_witness :
  let cm := run NewConcurrencyManager
              [OpUpdateTokenLimits 1 0 0; OpAcquire KVideo 2; OpAcquire KVideo 2;
               OpAcquire KImage 1] in
  canAcquire KVideo 2 cm = true
  /\ acquire KVideo 2 cm = (true, granted KVideo 2 cm)
  /\ counter KVideo (granted KVideo 2 cm) 2 = 3.
Proof.
  pose proof (unregistered_credential_is_unlimited KVideo 2
                [OpUpdateTokenLimits 1 0 0; OpAcquire KVideo 2; OpAcquire KVideo 2;
                 OpAcquire KImage 1] eq_refl) as (H1 & H2 & _ & H3 & _).
  split; [exact H1|]. split; [exact H2|].
  exact (H3 ltac:(vm_compute; reflexivity)).
Defined.

(** C3, as the code has it.  On every sequence of [Initialize], [acquire],
    [release] and [UpdateTokenLimits] calls (short enough for the [int]
    counter not to overflow) the counter of a credential and kind is never
    negative.  [acquire] and [release] never take it beyond a stored limit
    [L >= 0]: it is within the limit whenever each [Initialize] and
    [UpdateTokenLimits] of the sequence stored a limit the counter was
    within.  Those two calls leave the counters alone, so a limit stored
    below the slots in use is exceeded until enough of them are released,
    and [acquire] is refused meanwhile.  Releasing more often than acquired
    stops at 0, after which exactly [L] calls are granted again. *)
Theorem slot_counter_invariant (k : Kind) (tokenID : Z) (ops : list Op) :
  Z.of_nat (length ops) <= int_max ->
  let cm := run NewConcurrencyManager ops in
  0 <= counter k cm tokenID
  /\ (limits_stored_within k tokenID NewConcurrencyManager ops ->
      forall L, limit_of k cm tokenID = Some L -> 0 <= L -> counter k cm tokenID <= L)
  /\ (forall L, limit_of k cm tokenID = Some L -> 0 <= L -> L <= counter k cm tokenID ->
        acquire k tokenID cm = (false, cm))
  /\ (forall n : nat,
        counter k (release_n k tokenID n cm) tokenID
        = Z.max 0 (counter k cm tokenID - Z.of_nat n))
  /\ (forall (n : nat) L,
        counter k cm tokenID <= Z.of_nat n ->
        limit_of k cm tokenID = Some L -> 0 <= L -> is_int L ->
        forall m : nat,
          fst (acquire_n k tokenID m (release_n k tokenID n cm))
          = repeat true (Nat.min m (Z.to_nat L)) ++ repeat false (m - Z.to_nat L)).
Proof.
  intros Hlen cm.
  pose proof (run_counter_bounds k tokenID ops NewConcurrencyManager) as Hb.
  rewrite counter_new in Hb. specialize (Hb ltac:(lia) ltac:(lia)). fold cm in Hb.
  assert (is_int (counter k cm tokenID)) as Hint.
  { unfold is_int, int_min. lia. }
  split; [lia|]. split; [|split; [|split]].
  - intros Hst L HL H0.
    pose proof (run_within_limit k tokenID ops NewConcurrencyManager) as Hw.
    rewrite counter_new in Hw.
    specialize (Hw ltac:(lia) ltac:(lia) ltac:(by destruct k) Hst). fold cm in Hw.
    unfold within_limit in Hw. rewrite HL in Hw.
    apply orb_true_iff in Hw as [Hw%Z.ltb_lt|Hw%Z.leb_le]; lia.
  - intros L HL H0 Hge. rewrite acquire_unfold. unfold limit_met. rewrite HL.
    destruct (Z.leb_spec 0 L); [|lia].
    destruct (Z.leb_spec L (counter k cm tokenID)); [done|lia].
  - intros n. apply release_n_counter; [lia|done].
  - intros n L Hn HL H0 HiL m.
    assert (counter k (release_n k tokenID n cm) tokenID = 0) as Hz.
    { rewrite release_n_counter by (done || lia). lia. }
    destruct (acquire_n_limited k tokenID L m (release_n k tokenID n cm)) as [Hres _].
    { unfold limit_of in *. by rewrite release_n_limits. }
    { done. }
    { lia. }
    rewrite Hres, Hz. by rewrite Z.sub_0_r.
Qed.

Lemma slot_counter_invariant_witness :
  let cm := run NewConcurrencyManager
              [OpUpdateTokenLimits 1 2 2; OpAcquire KImage 1; OpRelease KImage 1;
               OpRelease KImage 1; OpAcquire KImage 1] in
  0 <= counter KImage cm 1 /\ counter KImage cm 1 <= 2.
Proof.
  pose proof (slot_counter_invariant KImage 1
                [OpUpdateTokenLimits 1 2 2; OpAcquire KImage 1; OpRelease KImage 1;
                 OpRelease KImage 1; OpAcquire KImage 1]
                ltac:(vm_compute; discriminate)) as (H1 & H2 & _).
  split; [exact H1|].
  apply (H2 ltac:(vm_compute; tauto) 2 eq_refl ltac:(lia)).
Defined.

(** C3 as stated fails: [UpdateTokenLimits] keeps the counters, so a limit
    stored below the slots in use is exceeded. *)
Lemma limit_stored_below_slots_in_use :
  ~ (forall (k : Kind) (tokenID : Z) (ops : list Op),
       let cm := run NewConcurrencyManager ops in
       0 <= counter k cm tokenID
       /\ (forall L, limit_of k cm tokenID = Some L -> 0 <= L -> counter k cm tokenID <= L)).
Proof.
  intros H.
  destruct (H KImage 1 [OpAcquire KImage 1; OpAcquire KImage 1; OpUpdateTokenLimits 1 1 1])
    as [_ Hle].
  specialize (Hle 1 eq_refl ltac:(lia)).
  vm_compute in Hle. by apply Hle.
Qed.


(** ** LoadBalancer *)

(** The comparisons of [float64] order the numbers by their rank. *)
Lemma SFcompare_rank x y a b :
  rank x = Some a -> rank y = Some b ->
  SFcompare x y
  = Some (if decide (lex_lt a b) then Lt else if decide (lex_lt b a) then Gt else Eq).
Proof.
  destruct x as [sx|sx| |sx mx ex], y as [sy|sy| |sy my ey]; try done;
    intros [= <-] [= <-]; unfold lex_lt; cbn;
    try (destruct sx, sy; cbn; repeat case_decide; try done; exfalso; lia).
  change (Pos.compare_cont Eq mx my) with (Pos.compare mx my).
  destruct sx, sy; cbn;
    destruct (Z.compare_spec ex ey), (Pos.compare_spec mx my); cbn;
    repeat case_decide; try done; exfalso; lia.
Qed.

Lemma fgt_true x y :
  fgt x y = true <-> exists a b, rank x = Some a /\ rank y = Some b /\ lex_lt b a.
Proof.
  unfold fgt, SFltb. destruct (rank x) as [a|] eqn:Hx, (rank y) as [b|] eqn:Hy.
  - rewrite (SFcompare_rank y x b a Hy Hx). split.
    + intros H. exists a, b. split_and!; try done. by repeat case_decide.
    + intros (a' & b' & [= <-] & [= <-] & Hlt). by rewrite decide_True.
  - split; [|by intros (a' & b' & _ & [=] & _)]. by destruct x, y.
  - split; [|by intros (a' & b' & [=] & _)]. by destruct x, y.
  - split; [|by intros (a' & b' & [=] & _)]. by destruct x, y.
Qed.

Lemma fge_true x y :
  fge x y = true <-> exists a b, rank x = Some a /\ rank y = Some b /\ ~ lex_lt a b.
Proof.
  unfold fge, SFleb. destruct (rank x) as [a|] eqn:Hx, (rank y) as [b|] eqn:Hy.
  - rewrite (SFcompare_rank y x b a Hy Hx). split.
    + intros H. exists a, b. split_and!; try done. intros Hlt.
      unfold lex_lt in *. repeat case_decide; try done; lia.
    + intros (a' & b' & [= <-] & [= <-] & Hlt). by repeat case_decide.
  - split; [|by intros (a' & b' & _ & [=] & _)]. by destruct x, y.
  - split; [|by intros (a' & b' & [=] & _)]. by destruct x, y.
  - split; [|by intros (a' & b' & [=] & _)]. by destruct x, y.
Qed.

Lemma fgt_trans x y z : fgt x y = true -> fgt y z = true -> fgt x z = true.
Proof.
  rewrite !fgt_true. intros (a & b & Ha & Hb & H1) (b' & c & Hb' & Hc & H2).
  exists a, c. split_and!; try done. rewrite Hb in Hb'. injection Hb' as <-.
  unfold lex_lt in *. lia.
Qed.



Lemma fgt_not_fge x y : fgt x y = true -> fge y x = false.
Proof.
  intros (a & b & Ha & Hb & H)%fgt_true. destruct (fge y x) eqn:E; [|done].
  apply fge_true in E as (b' & a' & Hb' & Ha' & H').
  rewrite Ha in Ha'. rewrite Hb in Hb'. injection Ha' as <-. injection Hb' as <-.
  unfold lex_lt in *. lia.
Qed.

(** What is not above the best so far is below everything above it. *)
Lemma not_fgt_below x y z : fgt y x = true -> fgt z x = false -> fge z y = false.
Proof.
  intros (b & a & Hb & Ha & H)%fgt_true Hz. destruct (fge z y) eqn:E; [|done].
  apply fge_true in E as (c & b' & Hc & Hb' & H').
  rewrite Hb in Hb'. injection Hb' as <-.
  assert (fgt z x = true) as Hgt; [|congruence].
  apply fgt_true. exists c, a. split_and!; try done. unfold lex_lt in *. lia.
Qed.

Lemma not_fgt_trans x y z : fgt y x = true -> fgt z x = false -> fgt z y = false.
Proof.
  intros Hy Hz. destruct (fgt z y) eqn:E; [|done].
  by rewrite (fgt_trans z y x E Hy) in Hz.
Qed.


Section LoadBalancerFacts.

Context (cm : ConcurrencyManager) (now : Time) (forImage forVideo : bool).

Lemma select_step_unfold best token :
  select_step cm now forImage forVideo best token =
    if survives cm now forImage forVideo token && fgt (token_score now token) (snd best)
    then (Some token, token_score now token) else best.
Proof.
  unfold select_step, survives.
  destruct (forImage && negb (ImageEnabled token)); [done|].
  destruct (forVideo && negb (VideoEnabled token)); [done|].
  destruct (match ATExpires token with Some e => Before e now | None => false end); [done|].
  destruct (forImage && (0 <? ImageConcurrency token)
            && negb (CanAcquireImage (ID token) cm)); [done|].
  destruct (forVideo && (0 <? VideoConcurrency token)
            && negb (CanAcquireVideo (ID token) cm)); done.
Qed.

Local Notation "'score'" := (token_score now).
Local Notation "'ok'" := (survives cm now forImage forVideo).

(** What the loop of [SelectToken] computes from any start. *)
Lemma select_loop_spec l : forall bt bs,
  let r := foldl (select_step cm now forImage forVideo) (bt, bs) l in
  (r = (bt, bs)
   /\ forall t, In t l -> ok t = true -> fgt (score t) bs = false)
  \/ (exists t l1 l2,
        r = (Some t, score t) /\ l = l1 ++ t :: l2 /\ ok t = true
        /\ fgt (score t) bs = true
        /\ (forall t', In t' l1 -> ok t' = true -> fge (score t') (score t) = false)
        /\ (forall t', In t' l2 -> ok t' = true -> fgt (score t') (score t) = false)).
Proof.
  induction l as [|a l IH]; intros bt bs; cbn [foldl].
  { left. split; [done|]. intros t []. }
  rewrite select_step_unfold. cbn [snd].
  destruct (ok a) eqn:Hok; cbn [andb];
    [destruct (fgt (score a) bs) eqn:Hgt|].
  - destruct (IH (Some a) (score a)) as [[Hr Hall]|(t & l1 & l2 & Hr & Hl & Ht & Hlt & H1 & H2)].
    + right. exists a, [], l. split_and!; try done.
    + right. exists t, (a :: l1), l2. subst l. split_and!; try done.
      * by apply fgt_trans with (score a).
      * intros t' [<-|Hin] Hok'; [by apply fgt_not_fge|]. by apply H1.
  - destruct (IH bt bs) as [[Hr Hall]|(t & l1 & l2 & Hr & Hl & Ht & Hlt & H1 & H2)].
    + left. split; [done|]. intros t [<-|Hin] Hok'; [done|]. by apply Hall.
    + right. exists t, (a :: l1), l2. subst l. split_and!; try done.
      intros t' [<-|Hin] Hok'; [|by apply H1].
      by apply not_fgt_below with bs.
  - destruct (IH bt bs) as [[Hr Hall]|(t & l1 & l2 & Hr & Hl & Ht & Hlt & H1 & H2)].
    + left. split; [done|]. intros t [<-|Hin] Hok'; [congruence|]. by apply Hall.
    + right. exists t, (a :: l1), l2. subst l. split_and!; try done.
      intros t' [<-|Hin] Hok'; [congruence|]. by apply H1.
Qed.

Lemma filter_split (l l1 l2 : list Token) (t : Token) :
  l = l1 ++ t :: l2 -> ok t = true ->
  List.filter ok l = List.filter ok l1 ++ t :: List.filter ok l2.
Proof.
  intros -> Ht. rewrite List.filter_app. cbn [List.filter]. by rewrite Ht.
Qed.

(** The loop returns the first best of the tokens that pass the filters. *)
Lemma select_loop_first_best l :
  first_best now (List.filter ok l)
    (fst (foldl (select_step cm now forImage forVideo) (None, float64_of_int (-1)) l)).
Proof.
  destruct (select_loop_spec l None (float64_of_int (-1)))
    as [[Hr Hall]|(t & l1 & l2 & Hr & Hl & Ht & Hlt & H1 & H2)]; rewrite Hr; cbn [fst].
  - intros t [Hin Hok]%List.filter_In. by apply Hall.
  - exists (List.filter ok l1), (List.filter ok l2).
    split; [by apply filter_split|]. split; [done|].
    split; intros t' [Hin Hok]%List.filter_In; auto.
Qed.

End LoadBalancerFacts.

Lemma SelectToken_unfold env forImage forVideo model w :
  SelectToken env forImage forVideo model w =
    ((fst (foldl (select_step (concurrencyManager w) (Now env (trace w)) forImage forVideo)
                 (None, float64_of_int (-1)) (DB.GetActiveTokens (db w))), None), w).
Proof. reflexivity. Qed.

Lemma SelectToken_first_best env forImage forVideo model w :
  first_best (Now env (trace w)) (candidates env forImage forVideo w)
    (fst (fst (SelectToken env forImage forVideo model w))).
Proof. rewrite SelectToken_unfold. apply select_loop_first_best. Qed.

Lemma survives_true cm now forImage forVideo token :
  survives cm now forImage forVideo token = true <->
  (forImage = true -> ImageEnabled token = true)
  /\ (forVideo = true -> VideoEnabled token = true)
  /\ (forall expires, ATExpires token = Some expires -> Before expires now = false)
  /\ (forImage = true -> 0 < ImageConcurrency token ->
      CanAcquireImage (ID token) cm = true)
  /\ (forVideo = true -> 0 < VideoConcurrency token ->
      CanAcquireVideo (ID token) cm = true).
Proof.
  unfold survives. rewrite !andb_true_iff, !negb_true_iff, !andb_false_iff,
    !negb_false_iff, !Z.ltb_ge.
  split.
  - intros ((((H1 & H2) & H3) & H4) & H5). repeat split.
    + intros ->. by destruct H1.
    + intros ->. by destruct H2.
    + intros e He. by rewrite He in H3.
    + intros -> Hpos. destruct H4 as [[H4|H4]|H4]; [done|lia|done].
    + intros -> Hpos. destruct H5 as [[H5|H5]|H5]; [done|lia|done].
  - intros (H1 & H2 & H3 & H4 & H5). repeat split.
    + destruct forImage; [right; by apply H1|by left].
    + destruct forVideo; [right; by apply H2|by left].
    + destruct (ATExpires token) as [e|]; [by apply H3|done].
    + destruct forImage; [|by left; left].
      destruct (Z.le_gt_cases (ImageConcurrency token) 0); [by left; right|].
      right. apply H4; [done|lia].
    + destruct forVideo; [|by left; left].
      destruct (Z.le_gt_cases (VideoConcurrency token) 0); [by left; right|].
      right. apply H5; [done|lia].
Qed.





(** C4.  [SelectToken] hands out only a credential taken from the active
    ones that has the capability asked for, whose access token is not known
    to have expired, and which, if it declares a positive limit for the kind
    asked for, has a free slot by the check of the slot table; and it hands
    out none when no active credential passes these filters.  It reports no
    error and changes nothing. *)
Theorem SelectToken_respects_filters
  (env : Env) (forImage forVideo : bool) (model : string) (w : World) :
  let now := Now env (trace w) in
  let cm := concurrencyManager w in
  let res := SelectToken env forImage forVideo model w in
  match fst (fst res) with
  | Some token =>
      In token (tokens (db w))
      /\ IsActive token = true
      /\ (forImage = true -> ImageEnabled token = true)
      /\ (forVideo = true -> VideoEnabled token = true)
      /\ (forall expires, ATExpires token = Some expires -> ~ expires < now)
      /\ (forImage = true -> 0 < ImageConcurrency token ->
          canAcquire KImage (ID token) cm = true)
      /\ (forVideo = true -> 0 < VideoConcurrency token ->
          canAcquire KVideo (ID token) cm = true)
  | None => True
  end
  /\ ((forall token, In token (tokens (db w)) -> IsActive token = true ->
         survives cm now forImage forVideo token = false) ->
      fst (fst res) = None)
  /\ snd (fst res) = None
  /\ snd res = w.
Proof.
  intros now cm res.
  pose proof (SelectToken_first_best env forImage forVideo model w) as Hfb.
  fold res now in Hfb. split; [|split; [|done]].
  - destruct (fst (fst res)) as [token|]; [|done].
    destruct Hfb as (l1 & l2 & Hl & _).
    assert (In token (candidates env forImage forVideo w)) as Hin.
    { rewrite Hl. apply in_or_app. right. by left. }
    unfold candidates, DB.GetActiveTokens in Hin.
    apply List.filter_In in Hin as [[Hin Hact]%List.filter_In Hok].
    apply survives_true in Hok as (H1 & H2 & H3 & H4 & H5).
    split_and!; try done.
    intros expires He Hlt. specialize (H3 expires He).
    unfold Before in H3. apply Z.ltb_ge in H3. lia.
  - intros Hnone. destruct (fst (fst res)) as [token|]; [|done].
    destruct Hfb as (l1 & l2 & Hl & _).
    assert (In token (candidates env forImage forVideo w)) as Hin.
    { rewrite Hl. apply in_or_app. right. by left. }
    unfold candidates, DB.GetActiveTokens in Hin.
    apply List.filter_In in Hin as [[Hin Hact]%List.filter_In Hok].
    specialize (Hnone token Hin Hact). unfold cm, now in Hnone. congruence.
Qed.



(** The two scores of the example, and the score that is not above -1. *)
Example rounded_scores :
  let now := 200 * (24 * Hour) + 1 in
  token_score now (Scenario.idle_token 1 1) = token_score now (Scenario.idle_token 2 0)
  /\ token_score now (Scenario.idle_token 1 1)
     = fadd (float64_of_int 1000) (float64_of_int 288000)
  /\ fgt (token_score 0 (Scenario.token_with 1 (-5) (Some 0) (-1))) (float64_of_int (-1))
     = false.
Proof. vm_compute. by split_and!. Qed.


(** ** The store *)

Lemma apply_update_ID t u : ID (apply_update t u) = ID t.
Proof. by destruct u. Qed.

Lemma apply_updates_ID updates : forall t, ID (foldl apply_update t updates) = ID t.
Proof.
  induction updates as [|u us IH]; intros t; cbn [foldl]; [done|].
  by rewrite IH, apply_update_ID.
Qed.

Lemma find_map_update (id : Z) (f : Token -> Token) (l : list Token) :
  (forall t, ID (f t) = ID t) ->
  List.find (fun t => ID t =? id) (List.map (fun t => if ID t =? id then f t else t) l)
  = f <$> List.find (fun t => ID t =? id) l.
Proof.
  intros Hf. induction l as [|a l IH]; [done|]. cbn [List.map List.find].
  destruct (ID a =? id) eqn:Ha.
  - by rewrite Hf, Ha.
  - by rewrite Ha.
Qed.

Lemma GetToken_UpdateToken id updates d :
  updates <> [] ->
  DB.GetToken id (DB.UpdateToken id updates d)
  = match DB.GetToken id d with
    | Ok t => Ok (foldl apply_update t updates)
    | Err e => Err e
    end.
Proof.
  intros Hne. unfold DB.GetToken, DB.UpdateToken.
  destruct updates as [|u us]; [done|]. cbn [tokens with_tokens].
  rewrite find_map_update by (intros; apply apply_updates_ID).
  by destruct (List.find _ (tokens d)).
Qed.

Lemma UpdateToken_token_stats id updates d :
  token_stats (DB.UpdateToken id updates d) = token_stats d.
Proof. unfold DB.UpdateToken. by destruct updates. Qed.

Lemma UpdateToken_admin_config id updates d :
  admin_config (DB.UpdateToken id updates d) = admin_config d.
Proof. unfold DB.UpdateToken. by destruct updates. Qed.

Lemma GetToken_ID id d t : DB.GetToken id d = Ok t -> ID t = id.
Proof.
  unfold DB.GetToken. destruct (List.find _ (tokens d)) as [t'|] eqn:Hf; [|done].
  intros [= <-]. apply List.find_some in Hf as [_ Hid]. lia.
Qed.

(** ** TokenManager: errors and successes *)

Section RecordFacts.

Context (env : Env).

Lemma IncrementTokenStats_error id w :
  IncrementTokenStats env id "error" w
  = (None,
     {| db := with_token_stats (db w)
                (alter (fun s => DB.count_error
                                   (DB.reset_today (FormatDate env (Now env (trace w))) s))
                       id (token_stats (db w)));
        concurrencyManager := concurrencyManager w;
        trace := trace w |}).
Proof.
  unfold IncrementTokenStats, bind, time_Now, DB.IncrementTokenStats.
  cbn [String.eqb Ascii.eqb Bool.eqb andb]. cbn [with_token_stats token_stats].
  by rewrite alter_alter_eq.
Qed.

Lemma consecutive_count_error today s :
  ConsecutiveErrorCount (DB.count_error (DB.reset_today today s))
  = ConsecutiveErrorCount s + 1.
Proof.
  unfold DB.reset_today. destruct (TodayDate s) as [day|]; [|done].
  by destruct (String.eqb day today).
Qed.

(** What one [RecordError] does, for a credential with a row of statistics
    and a configured threshold. *)
Lemma RecordError_spec id w s c :
  token_stats (db w) !! id = Some s ->
  admin_config (db w) = Some c ->
  exists s',
    ConsecutiveErrorCount s' = ConsecutiveErrorCount s + 1
    /\ fst (RecordError env id w) = None
    /\ concurrencyManager (snd (RecordError env id w)) = concurrencyManager w
    /\ trace (snd (RecordError env id w)) = trace w
    /\ admin_config (db (snd (RecordError env id w))) = Some c
    /\ token_stats (db (snd (RecordError env id w))) = <[id := s']> (token_stats (db w))
    /\ tokens (db (snd (RecordError env id w)))
       = if ErrorBanThreshold c <=? ConsecutiveErrorCount s + 1
         then tokens (DB.UpdateToken id [is_active false] (db w))
         else tokens (db w).
Proof.
  intros Hs Hc.
  exists (DB.count_error (DB.reset_today (FormatDate env (Now env (trace w))) s)).
  split; [apply consecutive_count_error|].
  unfold RecordError, bind. rewrite IncrementTokenStats_error.
  unfold get_db, DB.GetAdminConfig, DB.GetTokenStats.
  cbn [db with_token_stats admin_config token_stats]. rewrite Hc.
  rewrite lookup_alter_eq, Hs. cbn [fmap option_fmap option_map default from_option].
  unfold Datatypes.id. rewrite consecutive_count_error.
  assert (alter (fun s0 => DB.count_error
                             (DB.reset_today (FormatDate env (Now env (trace w))) s0))
                id (token_stats (db w))
          = <[id := DB.count_error
                      (DB.reset_today (FormatDate env (Now env (trace w))) s)]>
              (token_stats (db w))) as Halter.
  { apply map_eq. intros j. destruct (decide (id = j)) as [<-|Hne].
    - by rewrite lookup_alter_eq, lookup_insert_eq, Hs.
    - by rewrite lookup_alter_ne, lookup_insert_ne. }
  rewrite Halter.
  destruct (ErrorBanThreshold c <=? ConsecutiveErrorCount s + 1); cbn; split_and!; done.
Qed.

Lemma RecordSuccess_spec id w :
  fst (RecordSuccess id w) = None
  /\ tokens (db (snd (RecordSuccess id w))) = tokens (db w)
  /\ admin_config (db (snd (RecordSuccess id w))) = admin_config (db w)
  /\ token_stats (db (snd (RecordSuccess id w)))
     = alter DB.clear_consecutive id (token_stats (db w)).
Proof. done. Qed.

End RecordFacts.

Section ConsecutiveErrors.

Context (env : Env) (id : Z).

Local Notation "'disabled_rows'" := (disabled_rows id).

Lemma UpdateToken_disable d :
  tokens (DB.UpdateToken id [is_active false] d) = disabled_rows (tokens d).
Proof. reflexivity. Qed.

Lemma disabled_rows_idem ts : disabled_rows (disabled_rows ts) = disabled_rows ts.
Proof.
  unfold disabled_rows. rewrite List.map_map. apply List.map_ext. intros t.
  destruct (ID t =? id) eqn:Hid; [|by rewrite Hid].
  by rewrite apply_update_ID, Hid.
Qed.

Lemma GetToken_disabled_rows d d' token :
  tokens d' = disabled_rows (tokens d) ->
  DB.GetToken id d = Ok token ->
  DB.GetToken id d' = Ok (apply_update token (is_active false)).
Proof.
  intros Ht Hg. unfold DB.GetToken in *. rewrite Ht. unfold disabled_rows.
  rewrite find_map_update by (intros; apply apply_update_ID).
  destruct (List.find _ (tokens d)); [|done]. by injection Hg as ->.
Qed.

(** A run of [n] errors from a count of [k] ends at [k + n], and has
    disabled the credential if and only if the threshold was reached on
    the way. *)
Lemma RecordError_n_spec c n : forall w s,
  token_stats (db w) !! id = Some s ->
  admin_config (db w) = Some c ->
  let after := snd (RecordError_n env id n w) in
  ConsecutiveErrorCount (DB.GetTokenStats id (db after))
  = ConsecutiveErrorCount s + Z.of_nat n
  /\ tokens (db after)
     = if (0 <? Z.of_nat n) && (ErrorBanThreshold c <=? ConsecutiveErrorCount s + Z.of_nat n)
       then disabled_rows (tokens (db w)) else tokens (db w).
Proof.
  induction n as [|n IH]; intros w s Hs Hc.
  { cbn. unfold DB.GetTokenStats. rewrite Hs. cbn. split; [lia|done]. }
  cbn [RecordError_n]. unfold bind.
  destruct (RecordError_spec env id w s c Hs Hc)
    as (s' & Hcount & _ & _ & _ & Hc' & Hst & Htok).
  destruct (RecordError env id w) as [err w1]. cbn [fst snd] in *.
  assert (token_stats (db w1) !! id = Some s') as Hs' by (by rewrite Hst, lookup_insert_eq).
  destruct (IH w1 s' Hs' Hc') as [IH1 IH2]. cbn zeta in *.
  rewrite IH1, IH2, Hcount, Htok, UpdateToken_disable. split; [lia|].
  replace (0 <? Z.of_nat (S n)) with true by (symmetry; apply Z.ltb_lt; lia).
  cbn [andb].
  destruct (Z.leb_spec (ErrorBanThreshold c) (ConsecutiveErrorCount s + 1)),
           (Z.leb_spec (ErrorBanThreshold c) (ConsecutiveErrorCount s + 1 + Z.of_nat n)),
           (Z.leb_spec (ErrorBanThreshold c) (ConsecutiveErrorCount s + Z.of_nat (S n))),
           (Z.ltb_spec 0 (Z.of_nat n));
    try lia; cbn [andb]; rewrite ?disabled_rows_idem; done.
Qed.

End ConsecutiveErrors.

(** C6.  For a credential with a row of statistics, under a configured
    threshold: each [RecordError] raises the count of consecutive errors by
    one, and when the new count has reached the threshold it clears the
    active flag and nothing else of the credential (no ban reason, no ban
    time), while below the threshold the credentials are left as they are.
    [RecordSuccess] puts the count back to 0 and changes no credential, so
    that after it a run of [n] errors counts to [n], leaves the credentials
    alone as long as [n] is below the threshold, and has disabled the
    credential once [n] has reached it. *)
Theorem consecutive_errors_disable
  (env : Env) (id : Z) (w : World) (s : TokenStats) (c : AdminConfig) (token : Token) :
  token_stats (db w) !! id = Some s ->
  admin_config (db w) = Some c ->
  DB.GetToken id (db w) = Ok token ->
  let after := snd (RecordError env id w) in
  let reset := snd (RecordSuccess id w) in
  ConsecutiveErrorCount (DB.GetTokenStats id (db after)) = ConsecutiveErrorCount s + 1
  /\ (ErrorBanThreshold c <= ConsecutiveErrorCount s + 1 ->
      exists token',
        DB.GetToken id (db after) = Ok token'
        /\ token' = apply_update token (is_active false)
        /\ IsActive token' = false
        /\ BanReason token' = BanReason token
        /\ BannedAt token' = BannedAt token)
  /\ (ConsecutiveErrorCount s + 1 < ErrorBanThreshold c ->
      tokens (db after) = tokens (db w))
  /\ ConsecutiveErrorCount (DB.GetTokenStats id (db reset)) = 0
  /\ tokens (db reset) = tokens (db w)
  /\ (forall n : nat,
        let run := snd (RecordError_n env id n reset) in
        ConsecutiveErrorCount (DB.GetTokenStats id (db run)) = Z.of_nat n
        /\ (Z.of_nat n < ErrorBanThreshold c -> tokens (db run) = tokens (db w))
        /\ ((0 < n)%nat -> ErrorBanThreshold c <= Z.of_nat n ->
            exists token',
              DB.GetToken id (db run) = Ok token'
              /\ IsActive token' = false
              /\ BanReason token' = BanReason token
              /\ BannedAt token' = BannedAt token)).
Proof.
  intros Hs Hc Hg after reset.
  destruct (RecordError_spec env id w s c Hs Hc)
    as (s' & Hcount & _ & _ & _ & _ & Hst & Htok). fold after in Hst, Htok.
  split_and!.
  - unfold DB.GetTokenStats. by rewrite Hst, lookup_insert_eq.
  - intros Hge. exists (apply_update token (is_active false)).
    split_and!; try done.
    apply (GetToken_disabled_rows id (db w)); [|done].
    rewrite Htok. destruct (Z.leb_spec (ErrorBanThreshold c) (ConsecutiveErrorCount s + 1));
      [done|lia].
  - intros Hlt. rewrite Htok.
    destruct (Z.leb_spec (ErrorBanThreshold c) (ConsecutiveErrorCount s + 1)); [lia|done].
  - unfold reset, DB.GetTokenStats. cbn. by rewrite lookup_alter_eq, Hs.
  - done.
  - intros n run.
    assert (token_stats (db reset) !! id = Some (DB.clear_consecutive s)) as Hs0.
    { unfold reset. cbn. by rewrite lookup_alter_eq, Hs. }
    destruct (RecordError_n_spec env id c n reset _ Hs0 Hc) as [H1 H2].
    fold run in H1, H2. cbn [DB.clear_consecutive ConsecutiveErrorCount] in H1, H2.
    rewrite Z.add_0_l in H1, H2. split_and!.
    + done.
    + intros Hlt. rewrite H2.
      destruct (Z.leb_spec (ErrorBanThreshold c) (Z.of_nat n)); [lia|].
      by rewrite andb_false_r.
    + intros Hpos Hge. exists (apply_update token (is_active false)).
      split_and!; try done.
      apply (GetToken_disabled_rows id (db w)); [|done].
      rewrite H2.
      destruct (Z.leb_spec (ErrorBanThreshold c) (Z.of_nat n)); [|lia].
      destruct (Z.ltb_spec 0 (Z.of_nat n)); [done|lia].
Qed.

Lemma consecutive_errors_disable_witness :
  let w := Scenario.world_of [Scenario.token_with 1 10 None (-1)] in
  let run n := snd (RecordError_n (Scenario.env_at 0 Scenario.config0) 1 n
                      (snd (RecordSuccess 1 (snd (RecordError (Scenario.env_at 0 Scenario.config0) 1 w))))) in
  tokens (db (run 2%nat)) = tokens (db w)
  /\ exists token', DB.GetToken 1 (db (run 3%nat)) = Ok token' /\ IsActive token' = false.
Proof.
  set (env := Scenario.env_at 0 Scenario.config0).
  set (w := Scenario.world_of [Scenario.token_with 1 10 None (-1)]).
  set (w1 := snd (RecordError env 1 w)).
  assert (exists s, token_stats (db w1) !! 1 = Some s) as [s Hs].
  { vm_compute. eauto. }
  pose proof (consecutive_errors_disable env 1 w1 s {| ErrorBanThreshold := 3 |}
                (Scenario.token_with 1 10 None (-1)) Hs eq_refl eq_refl)
    as (_ & _ & _ & _ & _ & Hrun).
  split.
  - destruct (Hrun 2%nat) as (_ & H & _). apply H. cbn. lia.
  - destruct (Hrun 3%nat) as (_ & _ & H).
    destruct H as (token' & Hg & Hact & _); [lia|cbn; lia|]. eauto.
Defined.

(** ** TokenManager: freshness of the access token *)

(** Runs the sequencing of a computation whose steps are known. *)
Ltac run_M :=
  unfold bind, ret, get_db, get_cm, put_cm, modify_db, emit, time_Now;
  cbn beta iota zeta.

(** A computation in two steps, run from [w]. *)
Lemma bind_at {A B} (m : M A) (k : A -> M B) (w : World) :
  (let* a := m in k a) w = k (fst (m w)) (snd (m w)).
Proof. unfold bind. by destruct (m w). Qed.

Lemma snd_bind {A B} (m : M A) (k : A -> M B) w :
  snd ((let* a := m in k a) w) = snd (k (fst (m w)) (snd (m w))).
Proof. unfold bind. by destruct (m w). Qed.

Section Freshness.

Context (env : Env) (id : Z) (w : World) (token : Token).
Hypothesis Hget : DB.GetToken id (db w) = Ok token.

Local Notation "'asked'" := (asked w token).

Lemma IsATValid_fresh expires :
  AT token <> "" -> ATExpires token = Some expires ->
  Hour <= expires - Now env (trace w) ->
  IsATValid env id w = ((true, None), w).
Proof.
  intros Hat Hexp Hfar. unfold IsATValid, GetToken. run_M. rewrite Hget.
  apply String.eqb_neq in Hat. rewrite Hat, Hexp. unfold Until.
  assert (Hour <= Sub expires (Now env (trace w))) as Hs.
  { apply Sub_ge; [|done]. unfold minDuration, maxDuration, Hour, Minute, Second. lia. }
  destruct (Z.ltb_spec (Sub expires (Now env (trace w))) Hour); [lia|done].
Qed.

Lemma IsATValid_stale :
  (AT token = ""
   \/ ATExpires token = None
   \/ exists expires, ATExpires token = Some expires /\ expires - Now env (trace w) < Hour) ->
  IsATValid env id w = refreshATInternal env id w.
Proof.
  intros Hstale. unfold IsATValid, GetToken. run_M. rewrite Hget.
  destruct (String.eqb_spec (AT token) ""); [done|].
  destruct (ATExpires token) as [expires|] eqn:Hexp; [|done].
  destruct Hstale as [?|[?|(e' & [= <-] & Hnear)]]; [done|done|].
  unfold Until.
  assert (Sub expires (Now env (trace w)) < Hour) as Hs.
  { apply Sub_lt; [|done]. unfold minDuration, maxDuration, Hour, Minute, Second. lia. }
  destruct (Z.ltb_spec (Sub expires (Now env (trace w))) Hour); [done|lia].
Qed.

Lemma refresh_failed e :
  answer_map env (trace asked) = Err e ->
  refreshATInternal env id w
  = ((false, Some e),
     {| db := DB.UpdateToken id [is_active false] (db w);
        concurrencyManager := concurrencyManager w;
        trace := trace asked |}).
Proof.
  intros Hans. unfold refreshATInternal, GetToken, STToAT, DisableToken, call_map. run_M.
  rewrite Hget. cbn beta iota zeta. fold asked. by rewrite Hans.
Qed.

Lemma refresh_succeeded result :
  answer_map env (trace asked) = Ok result ->
  fst (refreshATInternal env id w) = (true, None)
  /\ exists rest tail,
       trace (snd (refreshATInternal env id w)) = trace asked ++ rest
       /\ DB.GetToken id (db (snd (refreshATInternal env id w)))
          = Ok (foldl apply_update token
                  (at_ (default "" (jstring "access_token" result)) :: tail))
       /\ Forall (fun u => match u with at_expires _ | credits _ => True | _ => False end)
                 tail.
Proof.
  intros Hans. unfold refreshATInternal, GetToken, STToAT, GetCredits, call_map. run_M.
  rewrite Hget. cbn beta iota zeta. fold asked. rewrite Hans.
  set (newAT := default "" (jstring "access_token" result)).
  set (updates := match (if String.eqb (default "" (jstring "expires" result)) ""
                         then None
                         else ParseRFC3339 env (default "" (jstring "expires" result)))
                  with
                  | Some e => [at_ newAT; at_expires e]
                  | None => [at_ newAT]
                  end).
  assert (exists tail0, updates = at_ newAT :: tail0
            /\ Forall (fun u => match u with at_expires _ | credits _ => True | _ => False end)
                      tail0) as (tail0 & Hupd & Htail0).
  { unfold updates.
    destruct (if String.eqb _ "" then None else ParseRFC3339 env _) as [e|].
    - exists [at_expires e]. split; [done|]. by constructor.
    - exists []. split; [done|]. constructor. }
  assert (updates <> []) as Hne by (rewrite Hupd; done).
  cbn [db concurrencyManager trace].
  destruct (answer_map env ((trace asked) ++ [EvGetCredits newAT])) as [creditsResult|e'];
    [destruct (jfloat "credits" creditsResult) as [c|]|]; cbn [fst snd db trace];
    change (db asked) with (db w).
  - split; [done|]. exists [EvGetCredits newAT], (tail0 ++ [credits (int_of_float c)]).
    split; [done|]. split.
    + rewrite !GetToken_UpdateToken, Hget by done.
      by rewrite Hupd, <- foldl_app.
    + apply Forall_app. split; [done|]. by constructor.
  - split; [done|]. exists [EvGetCredits newAT], tail0.
    split; [done|]. split; [|done].
    by rewrite !GetToken_UpdateToken, Hget, Hupd.
  - split; [done|]. exists [EvGetCredits newAT], tail0.
    split; [done|]. split; [|done].
    by rewrite !GetToken_UpdateToken, Hget, Hupd.
Qed.

Lemma refresh_asks : exists rest,
  trace (snd (refreshATInternal env id w)) = trace w ++ EvSTToAT (ST token) :: rest.
Proof.
  destruct (answer_map env (trace asked)) as [result|e] eqn:Hans.
  - destruct (refresh_succeeded result Hans) as (_ & rest & tail & Htr & _).
    exists rest. rewrite Htr. cbn. by rewrite <- app_assoc.
  - rewrite (refresh_failed e Hans). exists []. done.
Qed.

End Freshness.

Lemma AT_kept_by_expiry_and_credits tail : forall t,
  Forall (fun u => match u with at_expires _ | credits _ => True | _ => False end) tail ->
  AT (foldl apply_update t tail) = AT t.
Proof.
  induction tail as [|u tail IH]; intros t Hall; [done|].
  apply Forall_cons in Hall as [Hu Hall]. cbn [foldl]. rewrite IH by done.
  by destruct u.
Qed.

(** C7.  For a stored credential, [IsATValid] answers [true] without
    calling the exchange when the access token is present and expires an
    hour or more from now.  When the access token is absent, its expiry is
    unknown, or the expiry is less than an hour away (or past), it calls the
    exchange with the session token: if the exchange succeeds the answer is
    [true] and the new access token is stored; if it fails the answer is
    [false] with the error of the exchange, and the credential is disabled,
    its active flag cleared and its ban reason and ban time left as they
    were. *)
Theorem IsATValid_refreshes_when_stale
  (env : Env) (id : Z) (w : World) (token : Token) :
  DB.GetToken id (db w) = Ok token ->
  let now := Now env (trace w) in
  let exchange := trace w ++ [EvSTToAT (ST token)] in
  (forall expires,
     AT token <> "" -> ATExpires token = Some expires -> Hour <= expires - now ->
     IsATValid env id w = ((true, None), w))
  /\ ((AT token = ""
       \/ ATExpires token = None
       \/ exists expires, ATExpires token = Some expires /\ expires - now < Hour) ->
      (exists rest, trace (snd (IsATValid env id w)) = exchange ++ rest)
      /\ (forall result,
            answer_map env exchange = Ok result ->
            fst (IsATValid env id w) = (true, None)
            /\ exists token',
                 DB.GetToken id (db (snd (IsATValid env id w))) = Ok token'
                 /\ AT token' = default "" (jstring "access_token" result))
      /\ (forall e,
            answer_map env exchange = Err e ->
            IsATValid env id w
            = ((false, Some e),
               {| db := DB.UpdateToken id [is_active false] (db w);
                  concurrencyManager := concurrencyManager w;
                  trace := exchange |})
            /\ exists token',
                 DB.GetToken id (db (snd (IsATValid env id w))) = Ok token'
                 /\ IsActive token' = false
                 /\ BanReason token' = BanReason token
                 /\ BannedAt token' = BannedAt token)).
Proof.
  intros Hget now exchange. split.
  - intros expires. by apply IsATValid_fresh.
  - intros Hstale. rewrite (IsATValid_stale env id w token Hget Hstale). split_and!.
    + destruct (refresh_asks env id w token Hget) as [rest Hrest].
      exists rest. rewrite Hrest. unfold exchange. by rewrite <- app_assoc.
    + intros result Hans.
      destruct (refresh_succeeded env id w token Hget result Hans)
        as (Hfst & rest & tail & _ & Hg & Htail).
      split; [done|]. eexists. split; [exact Hg|].
      cbn [foldl]. by rewrite AT_kept_by_expiry_and_credits.
    + intros e Hans. rewrite (refresh_failed env id w token Hget e Hans).
      split; [done|]. exists (apply_update token (is_active false)).
      cbn [snd db]. rewrite GetToken_UpdateToken, Hget by done. done.
Qed.

Lemma IsATValid_refreshes_when_stale_witness :
  let env := Scenario.env_at 0 Scenario.config0 in
  let fresh := apply_update (Scenario.token_with 1 10 None (-1)) (at_expires (2 * Hour)) in
  let w := Scenario.world_of [fresh] in
  IsATValid env 1 w = ((true, None), w).
Proof.
  exact (proj1 (IsATValid_refreshes_when_stale (Scenario.env_at 0 Scenario.config0) 1
                  (Scenario.world_of
                     [apply_update (Scenario.token_with 1 10 None (-1)) (at_expires (2 * Hour))])
                  (apply_update (Scenario.token_with 1 10 None (-1)) (at_expires (2 * Hour)))
                  eq_refl)
               (2 * Hour) ltac:(discriminate) eq_refl ltac:(vm_compute; discriminate)).
Defined.

(** ** TokenManager: the sweep that lifts rate-limit bans *)

Section Sweep.

Context (now : Time).

Local Notation "'sweep_step'" := (sweep_step now).
Local Notation "'sweep_row'" := (sweep_row now).

Lemma reactivated_ID x : ID (reactivated x) = ID x.
Proof. done. Qed.

Lemma tokens_sweep_step d t :
  tokens (sweep_step d t) = List.map (fun x => sweep_row x t) (tokens d).
Proof.
  unfold sweep_step, sweep_row. destruct (unban_due now t); cbn [andb].
  - done.
  - by rewrite List.map_id.
Qed.

Lemma tokens_sweep todo : forall d,
  tokens (foldl sweep_step d todo) = List.map (fun x => foldl sweep_row x todo) (tokens d).
Proof.
  induction todo as [|t todo IH]; intros d; cbn [foldl].
  - by rewrite List.map_id.
  - by rewrite IH, tokens_sweep_step, List.map_map.
Qed.

Lemma sweep_row_miss todo : forall x,
  (forall t, In t todo -> ID t <> ID x) -> foldl sweep_row x todo = x.
Proof.
  induction todo as [|t todo IH]; intros x Hmiss; cbn [foldl]; [done|].
  assert (sweep_row x t = x) as ->.
  { unfold sweep_row. destruct (Z.eqb_spec (ID x) (ID t)) as [Heq|]; [|by rewrite andb_false_r].
    exfalso. apply (Hmiss t); [by left|done]. }
  apply IH. intros t' Hin. apply Hmiss. by right.
Qed.

Lemma sweep_row_hit todo : forall x,
  NoDup (List.map ID todo) -> In x todo ->
  foldl sweep_row x todo = if unban_due now x then reactivated x else x.
Proof.
  induction todo as [|t todo IH]; intros x Hnd Hin; [done|].
  cbn [List.map] in Hnd. apply NoDup_cons in Hnd as [Hfresh Hnd].
  assert (forall t', In t' todo -> ID t' <> ID t) as Hother.
  { intros t' Hin' Heq. apply Hfresh. rewrite <- Heq.
    apply list_elem_of_In. by apply List.in_map. }
  cbn [foldl]. destruct Hin as [->|Hin].
  - unfold sweep_row at 2. rewrite Z.eqb_refl, andb_true_r.
    apply sweep_row_miss. intros t' Hin'.
    destruct (unban_due now x); [rewrite reactivated_ID|]; by apply Hother.
  - assert (sweep_row x t = x) as ->.
    { unfold sweep_row. destruct (Z.eqb_spec (ID x) (ID t)) as [Heq|]; [|by rewrite andb_false_r].
      exfalso. by apply (Hother x). }
    by apply IH.
Qed.

Lemma stats_sweep todo id : forall d,
  token_stats (foldl sweep_step d todo) !! id
  = if existsb (fun t => unban_due now t && (ID t =? id)) todo
    then DB.clear_consecutive <$> token_stats d !! id
    else token_stats d !! id.
Proof.
  induction todo as [|t todo IH]; intros d; cbn [foldl existsb]; [done|].
  rewrite IH.
  assert (token_stats (sweep_step d t) !! id
          = if unban_due now t && (ID t =? id)
            then DB.clear_consecutive <$> token_stats d !! id
            else token_stats d !! id) as ->.
  { unfold sweep_step. destruct (unban_due now t); cbn [andb]; [|done].
    unfold DB.ResetErrorCount. cbn [token_stats with_token_stats].
    rewrite UpdateToken_token_stats.
    destruct (Z.eqb_spec (ID t) id) as [->|Hne].
    - by rewrite lookup_alter_eq.
    - by rewrite lookup_alter_ne. }
  destruct (unban_due now t && (ID t =? id)); cbn [orb]; [|done].
  destruct (existsb _ todo); [|done].
  by destruct (token_stats d !! id).
Qed.

End Sweep.

Lemma forM_db {A} (l : list A) (f : A -> M unit) (g : Database -> A -> Database) :
  (forall a w, f a w = (tt, {| db := g (db w) a; concurrencyManager := concurrencyManager w;
                               trace := trace w |})) ->
  forall w,
    forM l f w = (tt, {| db := foldl g (db w) l; concurrencyManager := concurrencyManager w;
                         trace := trace w |}).
Proof.
  intros Hf. induction l as [|a l IH]; intros w; cbn [forM foldl].
  - by destruct w.
  - unfold bind. rewrite Hf, IH. done.
Qed.

Lemma AutoUnban429Tokens_unfold env w :
  AutoUnban429Tokens env w
  = (None, {| db := foldl (sweep_step (Now env (trace w))) (db w) (tokens (db w));
              concurrencyManager := concurrencyManager w;
              trace := trace w |}).
Proof.
  unfold AutoUnban429Tokens, GetAllTokens, DB.GetAllTokens. run_M.
  rewrite (forM_db _ _ (sweep_step (Now env (trace w)))); [done|].
  intros token w'. unfold sweep_step, unban_due.
  destruct (String.eqb (BanReason token) "429_rate_limit"); cbn [negb andb orb];
    [|by destruct w'].
  destruct (IsActive token); cbn [negb andb orb]; [by destruct w'|].
  destruct (BannedAt token) as [bannedAt|]; cbn [negb andb orb]; [|by destruct w'].
  assert ((12 * Hour <=? Sub (Now env (trace w)) bannedAt)
          = (12 * Hour <=? Now env (trace w) - bannedAt)) as ->.
  { pose proof (Sub_ge (Now env (trace w)) bannedAt (12 * Hour)) as Hs.
    destruct (Z.leb_spec (12 * Hour) (Sub (Now env (trace w)) bannedAt)),
             (Z.leb_spec (12 * Hour) (Now env (trace w) - bannedAt)); try done;
      unfold minDuration, maxDuration, Hour, Minute, Second in *; lia. }
  destruct (ATExpires token) as [expires|]; unfold Before.
  - destruct (expires <? Now env (trace w)); cbn [negb andb];
      [rewrite andb_false_r; by destruct w'|rewrite andb_true_r].
    destruct (12 * Hour <=? Now env (trace w) - bannedAt); [done|by destruct w'].
  - rewrite andb_true_r.
    destruct (12 * Hour <=? Now env (trace w) - bannedAt); [done|by destruct w'].
Qed.

Lemma unban_due_true now t :
  unban_due now t = true <->
  BanReason t = "429_rate_limit"
  /\ IsActive t = false
  /\ (exists bannedAt, BannedAt t = Some bannedAt /\ 12 * Hour <= now - bannedAt)
  /\ (forall expires, ATExpires t = Some expires -> now <= expires).
Proof.
  unfold unban_due. rewrite !andb_true_iff, String.eqb_eq, negb_true_iff. split.
  - intros (((Hr & Ha) & Hb) & He). split_and!; try done.
    + destruct (BannedAt t) as [b|]; [|done]. exists b. split; [done|]. by apply Z.leb_le.
    + intros expires Hexp. rewrite Hexp in He.
      apply negb_true_iff, Z.ltb_ge in He. lia.
  - intros (Hr & Ha & (b & Hb & Hage) & He). split_and!; try done.
    + rewrite Hb. by apply Z.leb_le.
    + destruct (ATExpires t) as [expires|]; [|done].
      apply negb_true_iff, Z.ltb_ge. by apply He.
Qed.

(** C8.  [AutoUnban429Tokens] reactivates exactly the credentials that are
    inactive with the rate-limit ban reason, carry a ban time at least
    12 hours old, and whose access token is not known to have expired: each
    of them gets its active flag set and its ban reason and ban time
    cleared, and its count of consecutive errors put back to 0; every other
    credential and row of statistics is left as it is, in particular a
    credential banned less than 12 hours ago, as [BanTokenFor429] leaves one
    (inactive, with the rate-limit reason and the time of the ban). *)
Theorem AutoUnban_reactivates_the_due (env : Env) (w : World) :
  NoDup (List.map ID (tokens (db w))) ->
  let now := Now env (trace w) in
  let after := snd (AutoUnban429Tokens env w) in
  tokens (db after)
  = List.map (fun t => if unban_due now t then reactivated t else t) (tokens (db w))
  /\ (forall t,
        unban_due now t = true <->
        BanReason t = "429_rate_limit"
        /\ IsActive t = false
        /\ (exists bannedAt, BannedAt t = Some bannedAt /\ 12 * Hour <= now - bannedAt)
        /\ (forall expires, ATExpires t = Some expires -> now <= expires))
  /\ (forall t,
        IsActive (reactivated t) = true
        /\ BanReason (reactivated t) = ""
        /\ BannedAt (reactivated t) = None)
  /\ (forall id,
        token_stats (db after) !! id
        = if existsb (fun t => unban_due now t && (ID t =? id)) (tokens (db w))
          then DB.clear_consecutive <$> token_stats (db w) !! id
          else token_stats (db w) !! id)
  /\ (forall t bannedAt,
        BannedAt t = Some bannedAt -> now - bannedAt < 12 * Hour ->
        unban_due now t = false)
  /\ (forall id token,
        DB.GetToken id (db w) = Ok token ->
        exists banned,
          DB.GetToken id (db (snd (BanTokenFor429 env id w))) = Ok banned
          /\ IsActive banned = false
          /\ BanReason banned = "429_rate_limit"
          /\ BannedAt banned = Some now)
  /\ (forall t,
        In t (tokens (db w)) -> unban_due now t = true ->
        ConsecutiveErrorCount (DB.GetTokenStats (ID t) (db after)) = 0
        /\ forall s,
             token_stats (db w) !! ID t = Some s ->
             exists s',
               token_stats (db after) !! ID t = Some s'
               /\ ConsecutiveErrorCount s' = 0
               /\ ImageCount s' = ImageCount s /\ VideoCount s' = VideoCount s
               /\ SuccessCount s' = SuccessCount s /\ ErrorCount s' = ErrorCount s
               /\ TodayImageCount s' = TodayImageCount s
               /\ TodayVideoCount s' = TodayVideoCount s
               /\ TodayErrorCount s' = TodayErrorCount s
               /\ TodayDate s' = TodayDate s).
Proof.
  intros Hnd now after. unfold after. rewrite AutoUnban429Tokens_unfold. cbn [snd db].
  fold now. split_and!.
  - rewrite tokens_sweep. apply List.map_ext_in. intros x Hin.
    by apply sweep_row_hit.
  - intros t. apply unban_due_true.
  - done.
  - intros id. apply stats_sweep.
  - intros t bannedAt Hb Hyoung. unfold unban_due. rewrite Hb.
    destruct (Z.leb_spec (12 * Hour) (now - bannedAt)); [lia|].
    by rewrite andb_false_r.
  - intros id token Hg. eexists. split.
    + unfold BanTokenFor429. run_M. cbn [snd db].
      rewrite GetToken_UpdateToken, Hg by done. reflexivity.
    + done.
  - intros t Hin Hdue.
    assert (existsb (fun t' => unban_due now t' && (ID t' =? ID t)) (tokens (db w)) = true)
      as Hex.
    { apply existsb_exists. exists t. split; [done|]. by rewrite Hdue, Z.eqb_refl. }
    unfold DB.GetTokenStats. rewrite stats_sweep. unfold DB.GetAllTokens. rewrite Hex.
    split.
    + by destruct (token_stats (db w) !! ID t).
    + intros s ->. exists (DB.clear_consecutive s). by split_and!.
Qed.

Lemma AutoUnban_reactivates_the_due_witness :
  let env0 := Scenario.env_at 0 Scenario.config0 in
  let failed := snd (RecordError env0 1
                       (Scenario.world_of [Scenario.token_with 1 10 None (-1)])) in
  let banned := snd (BanTokenFor429 env0 1 failed) in
  let early := snd (AutoUnban429Tokens (Scenario.env_at (11 * Hour) Scenario.config0) banned) in
  let late := snd (AutoUnban429Tokens (Scenario.env_at (12 * Hour) Scenario.config0) banned) in
  List.map IsActive (tokens (db early)) = [false]
  /\ List.map IsActive (tokens (db late)) = [true]
  /\ ConsecutiveErrorCount (DB.GetTokenStats 1 (db banned)) = 1
  /\ ConsecutiveErrorCount (DB.GetTokenStats 1 (db early)) = 1
  /\ ConsecutiveErrorCount (DB.GetTokenStats 1 (db late)) = 0
  /\ ErrorCount (DB.GetTokenStats 1 (db late)) = 1.
Proof.
  intros env0 failed banned early late.
  assert (NoDup (List.map ID (tokens (db banned)))) as Hnd by apply NoDup_singleton.
  pose proof (AutoUnban_reactivates_the_due
                (Scenario.env_at (11 * Hour) Scenario.config0) banned Hnd) as Hearly.
  pose proof (AutoUnban_reactivates_the_due
                (Scenario.env_at (12 * Hour) Scenario.config0) banned Hnd) as Hlate.
  cbv zeta in Hearly, Hlate. fold early in Hearly. fold late in Hlate.
  destruct Hearly as (He & _). destruct Hlate as (Hl & _ & _ & _ & _ & _ & Hreset).
  split_and!.
  - rewrite He. reflexivity.
  - rewrite Hl. reflexivity.
  - reflexivity.
  - reflexivity.
  - apply (Hreset (foldl apply_update (Scenario.token_with 1 10 None (-1))
                     [is_active false; ban_reason (Some "429_rate_limit");
                      banned_at (Some 0)])).
    + left. reflexivity.
    + reflexivity.
  - reflexivity.
Defined.


(** ** GenerationHandler: polling *)

(** Unfolds the sending of messages and the calls of the outside world. *)
Ltac unfold_calls :=
  unfold sendFailure, sendStreamChunk, sendErrorResponse, cacheFile, Sleep,
    CheckVideoStatus, call_string, call_map;
  run_M.

Section Polling.

Context (env : Env) (token : Token) (operations : list jobject).

Local Notation "'interval'" := (PollInterval (cfg env)).
Local Notation "'probe'" := (EvCheckVideoStatus (AT token) operations).
Local Notation "'polled'" := (polled env token operations).

Lemma polled_prefix w w1 pre res r :
  trace w1 = trace w ++ pre -> timeline pre = [] -> polled w1 res r -> polled w res r.
Proof.
  intros Hpre Hq (new & n & Htr & Htl & Hle & Hex).
  exists (pre ++ new), n. split_and!; try done.
  - by rewrite Htr, Hpre, app_assoc.
  - unfold timeline in *. by rewrite List.filter_app, Hq, Htl.
Qed.

Lemma polled_cycle w w1 res r :
  trace w1 = trace w ++ [EvSleep interval; probe] ->
  polled w1 res r -> polled w res (S r).
Proof.
  intros Hpre (new & n & Htr & Htl & Hle & Hex).
  exists ([EvSleep interval; probe] ++ new), (S n). split_and!.
  - by rewrite Htr, Hpre, app_assoc.
  - unfold timeline in *. rewrite List.filter_app, Htl. done.
  - lia.
  - intros Hnone. by rewrite Hex.
Qed.

Lemma polled_done w res r new out :
  trace (snd res) = trace w ++ new -> timeline new = [] -> fst res = Some out ->
  polled w res r.
Proof.
  intros Htr Hq Hout. exists new, 0%nat. split_and!; try done; [lia|].
  by rewrite Hout.
Qed.


(** Closes a goal [polled] for a computation that ends without further
    sleeping or probing, by cases on all it inspects. *)
Ltac polled_terminal :=
  unfold_calls;
  repeat (match goal with
          | |- context [match ?x with _ => _ end] =>
              lazymatch x with
              | context [match _ with _ => _ end] => fail
              | _ => destruct x
              end
          end; cbn beta iota zeta);
  (eapply polled_done;
   [cbn [snd trace];
    first [symmetry; apply app_nil_r | rewrite <- ?app_assoc; reflexivity]
   | reflexivity | reflexivity]).

Lemma poll_loop_polled maxAttempts remaining : forall attempt w,
  polled w (poll_loop env token operations maxAttempts remaining attempt w) remaining.
Proof.
  induction remaining as [|r IH]; intros attempt w.
  { exists [], 0%nat. cbn. by rewrite app_nil_r. }
  cbn [poll_loop]. unfold Sleep, CheckVideoStatus, call_map. run_M.
  cbn [db concurrencyManager trace].
  set (w1 := {| db := db w; concurrencyManager := concurrencyManager w;
                trace := (trace w ++ [EvSleep interval]) ++ [probe] |}).
  apply (polled_cycle w w1); [cbn; by rewrite <- app_assoc|].
  destruct (answer_map env _) as [result0|e]; [|apply IH].
  destruct (jarray "operations" result0) as [[|op0 ops]|]; [apply IH| |apply IH].
  destruct (as_map op0) as [op|]; [|polled_terminal].
  assert (exists w2 pre,
            (if attempt mod 7 =? 0
             then sendStreamChunk
                    ("Progress: " +:+ pretty (progress_percent env attempt maxAttempts)
                       +:+ "%" +:+ nl) "" false
             else fun w0 : World => (tt, w0)) w1 = (tt, w2)
            /\ trace w2 = trace w1 ++ pre /\ timeline pre = []) as (w2 & pre & -> & Hpre & Hq).
  { destruct (attempt mod 7 =? 0).
    - eexists _, [_]. split; [reflexivity|]. split; reflexivity.
    - exists w1, []. split; [done|]. split; [by rewrite app_nil_r|done]. }
  apply (polled_prefix w1 w2 pre); [done|done|].
  clearbody w1. clear Hpre Hq w1 pre.
  destruct (String.eqb _ "MEDIA_GENERATION_STATUS_SUCCESSFUL"); [polled_terminal|].
  destruct (HasPrefix _ "MEDIA_GENERATION_STATUS_ERROR"); [polled_terminal|apply IH].
Qed.

Lemma poll_loop_pending maxAttempts remaining :
  (forall h, still_pending (answer_map env (h ++ [probe])) = true) ->
  forall attempt w,
    fst (poll_loop env token operations maxAttempts remaining attempt w) = None.
Proof.
  intros Hpending. induction remaining as [|r IH]; intros attempt w; [done|].
  cbn [poll_loop]. unfold Sleep, CheckVideoStatus, call_map. run_M.
  cbn [db concurrencyManager trace].
  specialize (Hpending (trace w ++ [EvSleep interval])). unfold still_pending in Hpending.
  destruct (answer_map env _) as [result0|e]; [|apply IH].
  destruct (jarray "operations" result0) as [[|op0 ops]|]; [apply IH| |apply IH].
  destruct (as_map op0) as [op|]; [|done].
  cbn zeta in Hpending. apply andb_true_iff in Hpending as [Hs%negb_true_iff He%negb_true_iff].
  rewrite Hs, He.
  destruct (attempt mod 7 =? 0); unfold_calls; apply IH.
Qed.

Lemma probes_timeline tr : probes tr = probes (timeline tr).
Proof.
  unfold probes, timeline. induction tr as [|e tr IH]; [done|].
  destruct e; cbn [List.filter]; by rewrite ?IH.
Qed.

Lemma probes_cycles n : length (probes (cycles interval probe n)) = n.
Proof.
  induction n as [|n IH]; [done|]. cbn [cycles]. unfold probes in *.
  cbn [List.filter length]. by rewrite IH.
Qed.

Lemma pollVideoResult_polled w :
  exists new n,
    trace (snd (pollVideoResult env token operations w)) = trace w ++ new
    /\ timeline new = cycles interval probe n
    /\ (n <= Z.to_nat (MaxPollAttempts (cfg env)))%nat
    /\ (fst (poll_loop env token operations (MaxPollAttempts (cfg env))
               (Z.to_nat (MaxPollAttempts (cfg env))) 0 w) = None ->
        n = Z.to_nat (MaxPollAttempts (cfg env))).
Proof.
  destruct (poll_loop_polled (MaxPollAttempts (cfg env))
              (Z.to_nat (MaxPollAttempts (cfg env))) 0 w)
    as (new & n & Htr & Htl & Hle & Hex).
  unfold pollVideoResult. run_M.
  destruct (poll_loop env token operations _ _ 0 w) as [[out|] w1]; cbn [fst snd] in *.
  - exists new, n. done.
  - unfold_calls. cbn [snd trace].
    exists (new ++ [EvStreamChunk
                      ("❌ " +:+ ("Video generation timeout (polled "
                                   +:+ pretty (MaxPollAttempts (cfg env)) +:+ " times)")
                         +:+ nl) "" false;
                    EvErrorResponse
                      ("Video generation timeout (polled "
                         +:+ pretty (MaxPollAttempts (cfg env)) +:+ " times)")]), n.
    split_and!; try done.
    + rewrite Htr, <- !app_assoc. done.
    + unfold timeline in *. rewrite List.filter_app, Htl. cbn. by rewrite app_nil_r.
Qed.

End Polling.

(** C5.  [pollVideoResult] always returns, having made at most
    [MaxPollAttempts] status probes, each right after a sleep of the
    configured interval and with no other sleep.  A probe that fails or
    reports no terminal status uses up its attempt: if no probe gets a
    terminal status, the result is the timeout error, after exactly
    [MaxPollAttempts] probes. *)
Theorem pollVideoResult_stops
  (env : Env) (token : Token) (operations : list jobject) (w : World) :
  let maxAttempts := MaxPollAttempts (cfg env) in
  let probe := EvCheckVideoStatus (AT token) operations in
  let res := pollVideoResult env token operations w in
  (exists new n,
     trace (snd res) = trace w ++ new
     /\ timeline new = cycles (PollInterval (cfg env)) probe n
     /\ length (probes new) = n
     /\ (n <= Z.to_nat maxAttempts)%nat)
  /\ ((forall h, still_pending (answer_map env (h ++ [probe])) = true) ->
      fst res
      = Returned (Some ("Video generation timeout (polled " +:+ pretty maxAttempts
                          +:+ " times)"))
      /\ exists new,
           trace (snd res) = trace w ++ new
           /\ timeline new = cycles (PollInterval (cfg env)) probe (Z.to_nat maxAttempts)
           /\ length (probes new) = Z.to_nat maxAttempts).
Proof.
  intros maxAttempts probe res.
  destruct (pollVideoResult_polled env token operations w) as (new & n & Htr & Htl & Hle & Hex).
  split.
  - exists new, n. split_and!; try done.
    by rewrite probes_timeline, Htl, probes_cycles.
  - intros Hpending.
    pose proof (poll_loop_pending env token operations maxAttempts (Z.to_nat maxAttempts)
                  Hpending 0 w) as Hnone.
    split.
    + unfold res, pollVideoResult. run_M. fold maxAttempts.
      destruct (poll_loop env token operations maxAttempts _ 0 w) as [[out|] w1];
        cbn [fst] in Hnone; [done|]. by unfold_calls.
    + exists new. unfold maxAttempts. rewrite <- (Hex Hnone). split_and!; try done.
      by rewrite probes_timeline, Htl, probes_cycles.
Qed.

Lemma pollVideoResult_stops_witness :
  let env := Scenario.env_pending 0 Scenario.config0 in
  let token := Scenario.token_with 1 10 None (-1) in
  let res := pollVideoResult env token [] (Scenario.world_of [token]) in
  fst res = Returned (Some "Video generation timeout (polled 3 times)")
  /\ length (probes (trace (snd res))) = 3%nat.
Proof.
  pose proof (pollVideoResult_stops (Scenario.env_pending 0 Scenario.config0)
                (Scenario.token_with 1 10 None (-1)) []
                (Scenario.world_of [Scenario.token_with 1 10 None (-1)])) as [_ H].
  destruct (H ltac:(intros h; reflexivity)) as (Hres & new & Htr & _ & Hn).
  split; [exact Hres|]. rewrite Htr. exact Hn.
Defined.


(** ** GenerationHandler: what a refused request does to the credential *)

Section Dispatch.

Context (env : Env) (model prompt : string) (images : list (list Byte.byte)).
Context (w : World) (modelConfig : ModelConfig) (token : Token) (projectID : string)
        (w' : World).
Hypothesis Hdispatch : dispatches env model w modelConfig token projectID w'.

Lemma HandleGeneration_dispatched :
  HandleGeneration env model prompt images true w
  = (let* genErr :=
       if String.eqb (Type_ modelConfig) "image" then
         handleImageGeneration env token projectID modelConfig prompt images
       else
         handleVideoGeneration env token projectID modelConfig prompt images in
     let* out :=
       match genErr with
       | Panicked => ret Panicked
       | Returned (Some e) =>
           (if Contains e "429" then BanTokenFor429 env (ID token)
            else RecordError env (ID token)) ;;
           ret (Returned (Some e))
       | Returned None =>
           RecordUsage env (ID token) (String.eqb (Type_ modelConfig) "video") ;;
           RecordSuccess (ID token) ;;
           ret (Returned None)
       end in
     emit EvClose ;; ret out) w'.
Proof.
  destruct Hdispatch as (Hmodel & selected & w0 & w1 & w2 & H0 & Hsel & H1 & Hvalid & Hget & Hproj).
  assert (SelectToken env (String.eqb (Type_ modelConfig) "image")
            (String.eqb (Type_ modelConfig) "video") model w0
          = ((Some selected, None), w0)) as Hsel'.
  { rewrite SelectToken_unfold in *. cbn [fst] in Hsel. by rewrite Hsel. }
  unfold HandleGeneration. rewrite Hmodel. cbn [negb].
  unfold bind at 1. unfold bind at 1. fold (started modelConfig). rewrite H0.
  unfold bind at 1. rewrite Hsel'. cbn beta iota zeta.
  unfold bind at 1. rewrite H1.
  unfold bind at 1. rewrite Hvalid. cbn beta iota zeta.
  unfold bind at 1. unfold GetToken at 1. run_M. rewrite Hget, Hproj.
  by destruct (if String.eqb (Type_ modelConfig) "image" then _ else _) as [[[e|]|] w3].
Qed.

Lemma HandleGenerationAmong_dispatched others :
  HandleGenerationAmong env others model prompt images true w
  = (meanwhile others ;;
     let* genErr :=
       if String.eqb (Type_ modelConfig) "image" then
         handleImageGeneration env token projectID modelConfig prompt images
       else
         handleVideoGeneration env token projectID modelConfig prompt images in
     let* out :=
       match genErr with
       | Panicked => ret Panicked
       | Returned (Some e) =>
           (if Contains e "429" then BanTokenFor429 env (ID token)
            else RecordError env (ID token)) ;;
           ret (Returned (Some e))
       | Returned None =>
           RecordUsage env (ID token) (String.eqb (Type_ modelConfig) "video") ;;
           RecordSuccess (ID token) ;;
           ret (Returned None)
       end in
     emit EvClose ;; ret out) w'.
Proof.
  destruct Hdispatch as (Hmodel & selected & w0 & w1 & w2 & H0 & Hsel & H1 & Hvalid & Hget & Hproj).
  assert (SelectToken env (String.eqb (Type_ modelConfig) "image")
            (String.eqb (Type_ modelConfig) "video") model w0
          = ((Some selected, None), w0)) as Hsel'.
  { rewrite SelectToken_unfold in *. cbn [fst] in Hsel. by rewrite Hsel. }
  unfold HandleGenerationAmong. rewrite Hmodel. cbn [negb].
  unfold bind at 1. unfold bind at 1. fold (started modelConfig). rewrite H0.
  unfold bind at 1. rewrite Hsel'. cbn beta iota zeta.
  unfold bind at 1. rewrite H1.
  unfold bind at 1. rewrite Hvalid. cbn beta iota zeta.
  unfold bind at 1. unfold GetToken at 1. run_M. rewrite Hget, Hproj.
  destruct (meanwhile others w') as [[] w3].
  by destruct (if String.eqb (Type_ modelConfig) "image" then _ else _) as [[[e|]|] w4].
Qed.

Lemma handleImageGeneration_refused :
  fst (AcquireImage (ID token) (concurrencyManager w')) = false ->
  handleImageGeneration env token projectID modelConfig prompt images w'
  = (Returned (Some (limit_reached KImage)), snd (sendFailure (limit_reached KImage) w')).
Proof.
  intros Hden. unfold handleImageGeneration. run_M.
  destruct (AcquireImage (ID token) (concurrencyManager w')) as [acquired cm'].
  cbn [fst] in Hden. subst acquired. cbn [negb]. by unfold_calls.
Qed.

Lemma handleVideoGeneration_refused :
  fst (AcquireVideo (ID token) (concurrencyManager w')) = false ->
  handleVideoGeneration env token projectID modelConfig prompt images w'
  = (Returned (Some (limit_reached KVideo)), snd (sendFailure (limit_reached KVideo) w')).
Proof.
  intros Hden. unfold handleVideoGeneration. run_M.
  destruct (AcquireVideo (ID token) (concurrencyManager w')) as [acquired cm'].
  cbn [fst] in Hden. subst acquired. cbn [negb]. by unfold_calls.
Qed.

Lemma handleVideoGeneration_i2v_invalid :
  fst (AcquireVideo (ID token) (concurrencyManager w')) = true ->
  VideoType modelConfig = "i2v" ->
  (Z.of_nat (length images) < MinImages modelConfig
   \/ MaxImages modelConfig < Z.of_nat (length images)) ->
  handleVideoGeneration env token projectID modelConfig prompt images w'
  = (Returned (Some (i2v_message modelConfig (Z.of_nat (length images)))),
     snd ((take_slot KVideo (ID token) ;;
           sendFailure (i2v_message modelConfig (Z.of_nat (length images))) ;;
           free_slot KVideo (ID token)) w')).
Proof.
  intros Hacq Hty Hbad. unfold handleVideoGeneration, take_slot, free_slot. run_M.
  cbn [acquire release].
  destruct (AcquireVideo (ID token) (concurrencyManager w')) as [acquired cm'].
  cbn [fst] in Hacq. subst acquired. cbn [negb snd]. rewrite Hty.
  cbn [String.eqb Ascii.eqb Bool.eqb andb].
  assert ((Z.of_nat (length images) <? MinImages modelConfig)
          || (MaxImages modelConfig <? Z.of_nat (length images)) = true) as ->.
  { apply orb_true_iff. destruct Hbad; [left|right]; by apply Z.ltb_lt. }
  fold (i2v_message modelConfig (Z.of_nat (length images))). by unfold_calls.
Qed.

End Dispatch.

(** What the other requests have done to the slot table meanwhile. *)
Lemma meanwhile_unfold others : forall w,
  meanwhile others w
  = (tt, {| db := db w; concurrencyManager := run (concurrencyManager w) others;
            trace := trace w |}).
Proof.
  unfold meanwhile, run. induction others as [|op others IH]; intros w; cbn [forM foldl].
  - by destruct w.
  - rewrite bind_at, IH. reflexivity.
Qed.

(** With no call of another request, the request is [HandleGeneration]. *)
Lemma HandleGenerationAmong_alone env model prompt images stream :
  HandleGenerationAmong env [] model prompt images stream
  = HandleGeneration env model prompt images stream.
Proof. reflexivity. Qed.

Lemma RecordError_frame env id w :
  concurrencyManager (snd (RecordError env id w)) = concurrencyManager w
  /\ token_stats (db (snd (RecordError env id w)))
     = alter (fun s => DB.count_error
                         (DB.reset_today (FormatDate env (Now env (trace w))) s))
             id (token_stats (db w)).
Proof.
  unfold RecordError, bind. rewrite IncrementTokenStats_error.
  unfold get_db, DB.GetAdminConfig, DisableToken. run_M.
  cbn [db with_token_stats admin_config token_stats].
  destruct (admin_config (db w)) as [c|]; [|done].
  destruct (ErrorBanThreshold c <=? _); [|done].
  cbn [snd db concurrencyManager]. by rewrite UpdateToken_token_stats.
Qed.

Lemma error_counted today s :
  ErrorCount (DB.count_error (DB.reset_today today s)) = ErrorCount s + 1.
Proof.
  unfold DB.reset_today. destruct (TodayDate s) as [day|]; [|done].
  by destruct (String.eqb day today).
Qed.

(** Taking a slot and giving it back leaves every counter where it was. *)
Lemma release_granted_counter k id cm :
  0 <= counter k cm id < int_max ->
  forall k' id', counter k' (release k id (granted k id cm)) id' = counter k' cm id'.
Proof.
  intros Hc k' id'. destruct (decide ((k', id') = (k, id))) as [[= -> ->]|Hne].
  - rewrite release_positive; rewrite granted_counter, incr_exact;
      try (unfold is_int, int_min, int_max in *; lia).
    rewrite decr_exact; unfold is_int, int_min, int_max in *; lia.
  - by rewrite release_counter_other, granted_counter_other.
Qed.

(** Enough calls of [acquire] for a credential reach its limit. *)
Lemma acquires_reach_the_limit k id others limit : forall cm,
  limit_of k cm id = Some limit -> 0 <= limit <= int_max ->
  0 <= counter k cm id ->
  (forall op, In op others -> op = OpAcquire k id) ->
  limit <= counter k cm id + Z.of_nat (length others) ->
  fst (acquire k id (run cm others)) = false.
Proof.
  unfold run. induction others as [|op others IH]; intros cm Hl Hlim Hc Hall Hfull.
  - cbn [foldl length] in *. rewrite acquire_unfold. unfold limit_met. rewrite Hl.
    destruct (Z.leb_spec 0 limit), (Z.leb_spec limit (counter k cm id)); try lia. done.
  - rewrite (Hall op) by by left. cbn [foldl step length] in *.
    rewrite (acquire_unfold k id cm).
    destruct (limit_met k id cm) eqn:Hmet; cbn [snd].
    + unfold limit_met in Hmet. rewrite Hl in Hmet.
      apply andb_true_iff in Hmet as [_ Hge%Z.leb_le].
      apply IH; try done; [intros op' Hop; apply Hall; by right|lia].
    + unfold limit_met in Hmet. rewrite Hl in Hmet.
      apply andb_false_iff in Hmet as [Hneg%Z.leb_gt|Hlt%Z.leb_gt]; [lia|].
      assert (counter k (granted k id cm) id = counter k cm id + 1) as Hincr.
      { rewrite granted_counter. apply incr_exact; unfold is_int, int_min, int_max in *; lia. }
      apply IH.
      * by rewrite granted_limit_of.
      * done.
      * lia.
      * intros op' Hop. apply Hall. by right.
      * lia.
Qed.

(** C2, as the code has it.  Once a streamed request has a credential and
    reaches the dispatch, a refused slot and a refused number of images of an
    i2v model are errors of the generation like any other: the request sends
    its two failure messages and invokes [RecordError] once for the
    credential (when the message of the error does not contain 429), which
    raises its error counts; it invokes neither [RecordUsage] nor
    [RecordSuccess].  The slot is refused when the limit of the credential is
    reached in the slot table as the other requests have left it, [others]
    being their calls between the selection and the dispatch; with a limit
    above 0 that takes such calls, with a limit of 0 it does not.  A refused
    slot leaves the slot table as it was, and after the refused number of
    images the slot taken has been given back. *)
Theorem refused_request_is_recorded_as_error
  (env : Env) (model prompt : string) (images : list (list Byte.byte)) (w : World)
  (modelConfig : ModelConfig) (token : Token) (projectID : string) (w' : World)
  (others : list Op) :
  dispatches env model w modelConfig token projectID w' ->
  let k := kind_of modelConfig in
  let id := ID token in
  let slots := run (concurrencyManager w') others in
  let request := HandleGenerationAmong env others model prompt images true w in
  let errors_counted :=
    forall s, token_stats (db w') !! id = Some s ->
      exists s', token_stats (db (snd request)) !! id = Some s'
                 /\ ErrorCount s' = ErrorCount s + 1
                 /\ ConsecutiveErrorCount s' = ConsecutiveErrorCount s + 1 in
  (fst (acquire k id slots) = false ->
   request
   = (Returned (Some (limit_reached k)),
      snd ((meanwhile others ;; sendFailure (limit_reached k) ;; RecordError env id ;;
            emit EvClose) w'))
   /\ concurrencyManager (snd request) = slots
   /\ errors_counted)
  /\ (k = KVideo -> VideoType modelConfig = "i2v" ->
      (Z.of_nat (length images) < MinImages modelConfig
       \/ MaxImages modelConfig < Z.of_nat (length images)) ->
      fst (acquire k id slots) = true ->
      let errMsg := i2v_message modelConfig (Z.of_nat (length images)) in
      Contains errMsg "429" = false ->
      request
      = (Returned (Some errMsg),
         snd ((meanwhile others ;; take_slot KVideo id ;; sendFailure errMsg ;;
               free_slot KVideo id ;; RecordError env id ;; emit EvClose) w'))
      /\ (0 <= counter KVideo slots id < int_max ->
          forall k' id',
            counter k' (concurrencyManager (snd request)) id' = counter k' slots id')
      /\ errors_counted)
  /\ HandleGenerationAmong env [] model prompt images true
     = HandleGeneration env model prompt images true
  /\ (forall limit,
        limit_of k (concurrencyManager w') id = Some limit -> 0 <= limit <= int_max ->
        0 <= counter k (concurrencyManager w') id ->
        (forall op, In op others -> op = OpAcquire k id) ->
        limit <= counter k (concurrencyManager w') id + Z.of_nat (length others) ->
        fst (acquire k id slots) = false).
Proof.
  intros Hd k id slots request errors_counted.
  assert (Contains (limit_reached KImage) "429" = false) as Hi by (vm_compute; reflexivity).
  assert (Contains (limit_reached KVideo) "429" = false) as Hv by (vm_compute; reflexivity).
  set (w1 := {| db := db w'; concurrencyManager := slots; trace := trace w' |}).
  assert (request
          = (let* genErr :=
               if String.eqb (Type_ modelConfig) "image" then
                 handleImageGeneration env token projectID modelConfig prompt images
               else
                 handleVideoGeneration env token projectID modelConfig prompt images in
             let* out :=
               match genErr with
               | Panicked => ret Panicked
               | Returned (Some e) =>
                   (if Contains e "429" then BanTokenFor429 env (ID token)
                    else RecordError env (ID token)) ;;
                   ret (Returned (Some e))
               | Returned None =>
                   RecordUsage env (ID token) (String.eqb (Type_ modelConfig) "video") ;;
                   RecordSuccess (ID token) ;;
                   ret (Returned None)
               end in
             emit EvClose ;; ret out) w1) as Hreq.
  { unfold request.
    rewrite (HandleGenerationAmong_dispatched env model prompt images w modelConfig token
               projectID w' Hd others).
    by rewrite bind_at, meanwhile_unfold. }
  assert (forall m : M unit, snd ((meanwhile others ;; m) w') = snd (m w1)) as Hmw.
  { intros m. by rewrite snd_bind, meanwhile_unfold. }
  (* what either refusal leaves behind, given the world [w2] in which
     [RecordError] runs *)
  assert (forall w2,
            db w2 = db w' ->
            (forall s, token_stats (db w') !! id = Some s ->
               exists s',
                 token_stats (db (snd ((RecordError env id ;; emit EvClose) w2))) !! id
                 = Some s'
                 /\ ErrorCount s' = ErrorCount s + 1
                 /\ ConsecutiveErrorCount s' = ConsecutiveErrorCount s + 1)
            /\ concurrencyManager (snd ((RecordError env id ;; emit EvClose) w2))
               = concurrencyManager w2) as Hrec.
  { intros w2 Hdb. run_M.
    destruct (RecordError_frame env id w2) as [Hcm Hst].
    destruct (RecordError env id w2) as [err w3]. cbn [snd fst db concurrencyManager] in *.
    split; [|done]. intros s Hs. eexists. rewrite Hst, lookup_alter_eq, Hdb, Hs.
    split; [reflexivity|]. split; [apply error_counted|apply consecutive_count_error]. }
  split_and!.
  - intros Hden. rewrite Hmw.
    assert (request = (Returned (Some (limit_reached k)),
                       snd ((sendFailure (limit_reached k) ;; RecordError env id ;;
                             emit EvClose) w1))) as Hrun.
    { rewrite Hreq. unfold k, kind_of in *. unfold bind at 1.
      destruct (String.eqb (Type_ modelConfig) "image").
      - rewrite (handleImageGeneration_refused env prompt images modelConfig token
                   projectID w1 Hden).
        rewrite Hi. unfold sendFailure, sendStreamChunk, sendErrorResponse. run_M.
        cbn [fst snd db concurrencyManager trace]. unfold id.
        by destruct (RecordError env (ID token) _).
      - rewrite (handleVideoGeneration_refused env prompt images modelConfig token
                   projectID w1 Hden).
        rewrite Hv. unfold sendFailure, sendStreamChunk, sendErrorResponse. run_M.
        cbn [fst snd db concurrencyManager trace]. unfold id.
        by destruct (RecordError env (ID token) _). }
    split; [done|]. unfold errors_counted. rewrite Hrun. cbn [snd].
    set (w2 := {| db := db w'; concurrencyManager := slots;
                  trace := (trace w' ++ [EvStreamChunk ("❌ " +:+ limit_reached k +:+ nl)
                                           "" false])
                           ++ [EvErrorResponse (limit_reached k)] |}).
    change (snd ((sendFailure (limit_reached k) ;; RecordError env id ;; emit EvClose) w1))
      with (snd ((RecordError env id ;; emit EvClose) w2)).
    destruct (Hrec w2 eq_refl) as [Hs Hcm].
    split; [by rewrite Hcm|done].
  - intros Hk Hty Hbad Hacq errMsg H429. rewrite Hmw.
    assert (request = (Returned (Some errMsg),
                       snd ((take_slot KVideo id ;; sendFailure errMsg ;;
                             free_slot KVideo id ;; RecordError env id ;;
                             emit EvClose) w1))) as Hrun.
    { rewrite Hreq. unfold k, kind_of in *. unfold bind at 1.
      destruct (String.eqb (Type_ modelConfig) "image"); [done|].
      rewrite (handleVideoGeneration_i2v_invalid env prompt images modelConfig token
                 projectID w1 Hacq Hty Hbad).
      fold errMsg. rewrite H429.
      unfold take_slot, free_slot, sendFailure, sendStreamChunk, sendErrorResponse. run_M.
      cbn [fst snd db concurrencyManager trace acquire release]. unfold id.
      by destruct (RecordError env (ID token) _). }
    split; [done|]. unfold errors_counted. rewrite Hrun. cbn [snd].
    set (w2 := {| db := db w';
                  concurrencyManager := release KVideo id (snd (acquire KVideo id slots));
                  trace := (trace w' ++ [EvStreamChunk ("❌ " +:+ errMsg +:+ nl) "" false])
                           ++ [EvErrorResponse errMsg] |}).
    change (snd ((take_slot KVideo id ;; sendFailure errMsg ;; free_slot KVideo id ;;
                  RecordError env id ;; emit EvClose) w1))
      with (snd ((RecordError env id ;; emit EvClose) w2)).
    destruct (Hrec w2 eq_refl) as [Hs Hcm].
    split; [|done].
    intros Hc k' id'. rewrite Hcm. cbn [w2 concurrencyManager].
    rewrite Hk in Hacq. rewrite acquire_unfold in *.
    destruct (limit_met KVideo id slots); [done|].
    cbn [snd]. by apply release_granted_counter.
  - reflexivity.
  - intros limit Hl H0 Hc Hall Hfull. by apply (acquires_reach_the_limit k id others limit).
Qed.

(** The requests of the scenarios get as far as dispatching. *)
Lemma refused_dispatches :
  dispatches (Scenario.env_at 0 Scenario.config0) "gemini-2.5-flash-image-landscape"
    (Scenario.world_of [Scenario.refused_token]) Scenario.refused_model
    Scenario.refused_token "project" Scenario.refused_world.
Proof.
  split; [reflexivity|].
  exists Scenario.refused_token,
    (snd (sendStreamChunk (started Scenario.refused_model) "" false
            (Scenario.world_of [Scenario.refused_token]))),
    Scenario.refused_world, Scenario.refused_world.
  split_and!; try reflexivity; vm_compute; reflexivity.
Qed.

Lemma busy_dispatches :
  dispatches (Scenario.env_at 0 Scenario.config0) "gemini-2.5-flash-image-landscape"
    (Scenario.world_of [Scenario.busy_token]) Scenario.refused_model
    Scenario.busy_token "project" Scenario.busy_world.
Proof.
  split; [reflexivity|].
  exists Scenario.busy_token,
    (snd (sendStreamChunk (started Scenario.refused_model) "" false
            (Scenario.world_of [Scenario.busy_token]))),
    Scenario.busy_world, Scenario.busy_world.
  split_and!; try reflexivity; vm_compute; reflexivity.
Qed.

Lemma refused_request_is_recorded_as_error_witness :
  let env := Scenario.env_at 0 Scenario.config0 in
  let request := HandleGenerationAmong env Scenario.another_request
                   "gemini-2.5-flash-image-landscape" "a cat" [] true
                   (Scenario.world_of [Scenario.busy_token]) in
  ImageConcurrency Scenario.busy_token = 1
  /\ fst request = Returned (Some "Image concurrency limit reached")
  /\ ErrorCount (DB.GetTokenStats 1 (db (snd request))) = 1.
Proof.
  destruct (proj1 (refused_request_is_recorded_as_error
                     (Scenario.env_at 0 Scenario.config0)
                     "gemini-2.5-flash-image-landscape" "a cat" [] _ _ _ _ _
                     Scenario.another_request busy_dispatches) eq_refl)
    as (Hrun & _ & _).
  cbv zeta. rewrite Hrun. split; [reflexivity|]. split; vm_compute; reflexivity.
Defined.

(** C2 as stated fails: a request refused its slot has [RecordError]
    invoked for its credential, whose statistics change; so for a credential
    that allows no image at all, and so for one that allows one image, when
    another request has taken its slot. *)
Lemma refused_slot_changes_statistics :
  ~ (forall (env : Env) (model prompt : string) (images : list (list Byte.byte))
            (w : World) (modelConfig : ModelConfig) (token : Token) (projectID : string)
            (w' : World),
       dispatches env model w modelConfig token projectID w' ->
       fst (acquire (kind_of modelConfig) (ID token) (concurrencyManager w')) = false ->
       token_stats (db (snd (HandleGeneration env model prompt images true w))) !! ID token
       = token_stats (db w') !! ID token)
  /\ ~ (forall (env : Env) (model prompt : string) (images : list (list Byte.byte))
               (w : World) (modelConfig : ModelConfig) (token : Token)
               (projectID : string) (w' : World) (others : list Op),
          dispatches env model w modelConfig token projectID w' ->
          0 < ImageConcurrency token ->
          fst (acquire (kind_of modelConfig) (ID token)
                 (run (concurrencyManager w') others)) = false ->
          token_stats
            (db (snd (HandleGenerationAmong env others model prompt images true w)))
            !! ID token
          = token_stats (db w') !! ID token).
Proof.
  split.
  - intros H.
    specialize (H (Scenario.env_at 0 Scenario.config0)
                  "gemini-2.5-flash-image-landscape" "a cat" [] _ _ _ _ _
                  refused_dispatches eq_refl).
    vm_compute in H. discriminate.
  - intros H.
    specialize (H (Scenario.env_at 0 Scenario.config0)
                  "gemini-2.5-flash-image-landscape" "a cat" [] _ _ _ _ _
                  Scenario.another_request busy_dispatches eq_refl eq_refl).
    vm_compute in H. discriminate.
Qed.


(** ** The services at work *)

(** An image request by a credential with one image slot: the image is
    delivered, the use and the success are recorded, the slot is free again. *)
Example image_request_succeeds :
  let w := Scenario.world_of [Scenario.token_with 1 10 None 1] in
  let run := HandleGeneration (Scenario.env_generating (5 * Minute) Scenario.config0)
               "gemini-2.5-flash-image-landscape" "a cat" [] true w in
  fst run = Returned None
  /\ trace (snd run)
     = [EvStreamChunk ("✨ Image generation task started" +:+ nl) "" false;
        EvStreamChunk ("Initializing generation environment..." +:+ nl) "" false;
        EvStreamChunk ("Generating image..." +:+ nl) "" false;
        EvGenerateImage "at" "project" "a cat" "GEM_PIX" "IMAGE_ASPECT_RATIO_LANDSCAPE" [];
        EvStreamChunk "![Generated Image](https://upstream/image)" "stop" true;
        EvClose]
  /\ ImageCount (DB.GetTokenStats 1 (db (snd run))) = 1
  /\ List.map LastUsedAt (tokens (db (snd run))) = [Some (5 * Minute)]
  /\ counter KImage (concurrencyManager (snd run)) 1 = 0.
Proof. vm_compute. repeat split; reflexivity. Qed.

(** A video request: the task is recorded, the second probe finds the video,
    and the task is completed. *)
Example video_request_succeeds :
  let w := Scenario.world_of [Scenario.token_with 1 10 None 1] in
  let run := HandleGeneration (Scenario.env_generating 0 Scenario.config0)
               "veo_3_1_t2v_fast_portrait" "a cat" [] true w in
  fst run = Returned None
  /\ length (probes (trace (snd run))) = 2%nat
  /\ List.map (fun t => (TaskID t, Status t, ResultURLs t)) (tasks (db (snd run)))
     = [("task-1", "completed", ["https://upstream/video"])]
  /\ VideoCount (DB.GetTokenStats 1 (db (snd run))) = 1
  /\ counter KVideo (concurrencyManager (snd run)) 1 = 0.
Proof. vm_compute. repeat split; reflexivity. Qed.

(** Without streaming the request only reports whether a credential is
    available. *)
Example availability_check :
  let w := Scenario.world_of [Scenario.token_with 1 10 None 1] in
  HandleGeneration (Scenario.env_at 0 Scenario.config0)
    "veo_3_1_t2v_fast_portrait" "a cat" [] false w
  = (Returned None,
     {| db := db w; concurrencyManager := concurrencyManager w;
        trace := [EvCompletionResponse
                    "Tokens available for video generation. Enable streaming to use generation."
                    "" true;
                  EvClose] |}).
Proof. vm_compute. reflexivity. Qed.

(** Of two credentials of equal credits the scheduler takes the one never
    used, whichever comes first. *)
Example never_used_is_preferred :
  let used := Scenario.token_with 1 10 (Some 0) (-1) in
  let fresh := Scenario.token_with 2 10 None (-1) in
  let env := Scenario.env_at (5 * Minute) Scenario.config0 in
  fst (fst (SelectToken env true false "" (Scenario.world_of [used; fresh]))) = Some fresh
  /\ fst (fst (SelectToken env true false "" (Scenario.world_of [fresh; used]))) = Some fresh.
Proof. vm_compute. split; reflexivity. Qed.

(* ===================================================================== *)
(** * Further properties *)
(* ===================================================================== *)

(** ** ConcurrencyManager *)

Section Interference.

Context (k : Kind) (tokenID : Z).

Local Notation "'agree'" := (agree k tokenID).

Lemma agree_refl cm : agree cm cm.
Proof. by split. Qed.

Lemma agree_trans cm1 cm2 cm3 : agree cm1 cm2 -> agree cm2 cm3 -> agree cm1 cm3.
Proof. intros [H1 H2] [H3 H4]. split; congruence. Qed.

Lemma agree_limit_of cm1 cm2 : agree cm1 cm2 -> limit_of k cm1 tokenID = limit_of k cm2 tokenID.
Proof. intros [_ H]. unfold limit_of. by rewrite H. Qed.

Lemma agree_limit_met cm1 cm2 :
  agree cm1 cm2 -> limit_met k tokenID cm1 = limit_met k tokenID cm2.
Proof.
  intros H. unfold limit_met. rewrite (agree_limit_of _ _ H). by destruct H as [-> _].
Qed.

(** The limits stored by [Initialize] for a credential depend on the list
    and on what was stored for that credential only. *)
Lemma Initialize_limits_agree tokens : forall cm1 cm2,
  limits cm1 !! tokenID = limits cm2 !! tokenID ->
  limits (Initialize tokens cm1) !! tokenID = limits (Initialize tokens cm2) !! tokenID.
Proof.
  unfold Initialize. induction tokens as [|t tokens IH]; intros cm1 cm2 H; [done|].
  cbn [foldl]. apply IH. unfold set_limit; cbn [limits].
  destruct (decide (ID t = tokenID)) as [->|Hne].
  - by rewrite !lookup_insert_eq.
  - by rewrite !lookup_insert_ne.
Qed.

(** The same call on two managers that agree leaves them agreeing. *)
Lemma step_agree cm1 cm2 op : agree cm1 cm2 -> agree (step cm1 op) (step cm2 op).
Proof.
  intros Hag. pose proof Hag as [Hc Hl]. destruct op as [tokens|id il vl|k' id|k' id]; cbn [step].
  - split; [by rewrite !Initialize_counter | by apply Initialize_limits_agree].
  - split; [by rewrite !UpdateTokenLimits_counter|].
    unfold UpdateTokenLimits, set_limit; cbn [limits].
    destruct (decide (id = tokenID)) as [->|Hne].
    + by rewrite !lookup_insert_eq.
    + by rewrite !lookup_insert_ne.
  - destruct (decide ((k, tokenID) = (k', id))) as [[= <- <-]|Hne].
    + rewrite !acquire_unfold, (agree_limit_met _ _ Hag).
      destruct (limit_met k tokenID cm2); cbn [snd]; [done|].
      split; [by rewrite !granted_counter, Hc | by rewrite !granted_limits].
    + rewrite !acquire_unfold.
      destruct (limit_met k' id cm1), (limit_met k' id cm2); cbn [snd];
        split; rewrite ?granted_counter_other, ?granted_limits; done.
  - destruct (decide ((k, tokenID) = (k', id))) as [[= <- <-]|Hne].
    + split; [|by rewrite !release_limits].
      destruct (Z.le_gt_cases (counter k cm1 tokenID) 0) as [Hle|Hgt].
      * rewrite !release_at_zero; [done|lia..].
      * rewrite !release_positive; [by rewrite Hc|lia..].
    + split; [by rewrite !release_counter_other | by rewrite !release_limits].
Qed.

(** A call that does not concern the credential and the kind leaves what
    the manager holds for them as it was. *)
Lemma step_unconcerned cm op : concerns k tokenID op = false -> agree (step cm op) cm.
Proof.
  destruct op as [tokens|id il vl|k' id|k' id]; cbn [concerns registers step]; intros H.
  - split; [apply Initialize_counter | by apply Initialize_limits_other].
  - split; [apply UpdateTokenLimits_counter|].
    unfold UpdateTokenLimits, set_limit; cbn [limits].
    apply Z.eqb_neq in H. by rewrite lookup_insert_ne.
  - assert ((k, tokenID) <> (k', id)) as Hne.
    { intros [= <- <-]. rewrite bool_decide_eq_true_2, Z.eqb_refl in H; done. }
    rewrite acquire_unfold. destruct (limit_met k' id cm); cbn [snd]; [done|].
    split; [by apply granted_counter_other | by rewrite granted_limits].
  - assert ((k, tokenID) <> (k', id)) as Hne.
    { intros [= <- <-]. rewrite bool_decide_eq_true_2, Z.eqb_refl in H; done. }
    split; [by apply release_counter_other | by rewrite release_limits].
Qed.

Lemma run_agree ops : forall cm1 cm2,
  agree cm1 cm2 -> agree (run cm1 ops) (run cm2 (List.filter (concerns k tokenID) ops)).
Proof.
  unfold run. induction ops as [|op ops IH]; intros cm1 cm2 H; [done|].
  cbn [foldl List.filter]. destruct (concerns k tokenID op) eqn:Hop.
  - cbn [foldl]. apply IH. by apply step_agree.
  - apply IH. eapply agree_trans; [by apply step_unconcerned | done].
Qed.

End Interference.

(** X1.  What the manager holds for a credential and a kind, and what it
    answers to the next [acquire] and [canAcquire] for them, depends only on
    the calls made for that credential and kind and on the limits stored for
    the credential: the calls for other credentials, and for the other kind,
    can be left out of the history without a difference. *)
Theorem other_credentials_do_not_interfere
  (k : Kind) (tokenID : Z) (cm : ConcurrencyManager) (ops : list Op) :
  let own := List.filter (concerns k tokenID) ops in
  counter k (run cm ops) tokenID = counter k (run cm own) tokenID
  /\ limit_of k (run cm ops) tokenID = limit_of k (run cm own) tokenID
  /\ fst (acquire k tokenID (run cm ops)) = fst (acquire k tokenID (run cm own))
  /\ canAcquire k tokenID (run cm ops) = canAcquire k tokenID (run cm own).
Proof.
  intros own.
  pose proof (run_agree k tokenID ops cm cm (agree_refl k tokenID cm)) as Hag.
  fold own in Hag. split_and!.
  - apply Hag.
  - by apply agree_limit_of.
  - rewrite !acquire_unfold, (agree_limit_met _ _ _ _ Hag).
    by destruct (limit_met k tokenID (run cm own)).
  - by rewrite !canAcquire_unfold, (agree_limit_met _ _ _ _ Hag).
Qed.

(** What [Initialize] stores for a credential is what the last entry of
    the list for it declares. *)
Lemma Initialize_limits_last tokens tokenID : forall cm,
  limits (Initialize tokens cm) !! tokenID
  = match last (List.filter (fun t => ID t =? tokenID) tokens) with
    | Some t => Some (declared t)
    | None => limits cm !! tokenID
    end.
Proof.
  unfold Initialize. induction tokens as [|t tokens IH]; intros cm; [done|].
  cbn [foldl List.filter]. rewrite IH. unfold set_limit at 1; cbn [limits].
  destruct (Z.eqb_spec (ID t) tokenID) as [->|Hne].
  - rewrite lookup_insert_eq.
    destruct (List.filter (fun t0 => ID t0 =? tokenID) tokens) as [|t' l] eqn:Hf; [done|].
    rewrite last_cons_cons. destruct (last (t' :: l)) eqn:E; [done|].
    by apply last_None in E.
  - by rewrite lookup_insert_ne.
Qed.

Lemma filter_ID_NoDup (tokens : list Token) t :
  NoDup (List.map ID tokens) -> In t tokens ->
  List.filter (fun t' => ID t' =? ID t) tokens = [t].
Proof.
  induction tokens as [|a tokens IH]; [done|].
  cbn [List.map List.filter In]. intros Hnd Hin. apply NoDup_cons in Hnd as [Hnotin Hnd].
  destruct Hin as [->|Hin].
  - rewrite Z.eqb_refl. f_equal.
    rewrite (List.filter_ext_in _ (fun _ => false)); [apply List.filter_false|].
    intros x Hx. apply Z.eqb_neq. intros Heq.
    apply Hnotin. rewrite <- Heq. apply list_elem_of_In, List.in_map_iff. by exists x.
  - destruct (Z.eqb_spec (ID a) (ID t)) as [Heq|Hne]; [|by apply IH].
    exfalso. apply Hnotin. rewrite Heq. apply list_elem_of_In, List.in_map_iff. by exists t.
Qed.

(** X2.  [Initialize] stores, for every credential of the list, the limits
    declared by its last entry in the list, and leaves the limits of the
    other credentials and every counter as they are; so seeding the manager
    with the rows of the store, whose ids are unique, gives every credential
    the limits it declares.  Initializing with two lists in a row is
    initializing with their concatenation, and [UpdateTokenLimits] is
    [Initialize] with one entry. *)
Theorem Initialize_stores_the_declared_limits
  (tokens : list Token) (cm : ConcurrencyManager) :
  (forall tokenID,
     limits (Initialize tokens cm) !! tokenID
     = match last (List.filter (fun t => ID t =? tokenID) tokens) with
       | Some t => Some (declared t)
       | None => limits cm !! tokenID
       end)
  /\ imageSlots (Initialize tokens cm) = imageSlots cm
  /\ videoSlots (Initialize tokens cm) = videoSlots cm
  /\ (NoDup (List.map ID tokens) ->
      forall t, In t tokens ->
        limit_of KImage (Initialize tokens cm) (ID t) = Some (ImageConcurrency t)
        /\ limit_of KVideo (Initialize tokens cm) (ID t) = Some (VideoConcurrency t))
  /\ (forall more, Initialize more (Initialize tokens cm) = Initialize (tokens ++ more) cm)
  /\ (forall t,
        Initialize [t] cm
        = UpdateTokenLimits (ID t) (ImageConcurrency t) (VideoConcurrency t) cm).
Proof.
  assert (forall l c, imageSlots (Initialize l c) = imageSlots c
                      /\ videoSlots (Initialize l c) = videoSlots c) as Hslots.
  { unfold Initialize. induction l as [|t l IH]; intros c; [done|].
    cbn [foldl]. by destruct (IH (set_limit c (ID t) (declared t))) as [H1 H2]. }
  split_and!.
  - intros tokenID. apply Initialize_limits_last.
  - apply Hslots.
  - apply Hslots.
  - intros Hnd t Hin. unfold limit_of.
    by rewrite Initialize_limits_last, (filter_ID_NoDup _ _ Hnd Hin).
  - intros more. unfold Initialize. by rewrite foldl_app.
  - done.
Qed.

(** ** LoadBalancer *)

Lemma foldl_ext_in {A B} (f g : B -> A -> B) (l : list A) : forall b,
  (forall x b, In x l -> f b x = g b x) -> foldl f b l = foldl g b l.
Proof.
  induction l as [|x l IH]; intros b H; [done|].
  cbn [foldl]. rewrite (H x b) by by left. apply IH. intros y b' Hy. apply H. by right.
Qed.

(** The credential handed out passed the filters. *)
Lemma SelectToken_survives env forImage forVideo model w token :
  fst (fst (SelectToken env forImage forVideo model w)) = Some token ->
  In token (tokens (db w)) /\ IsActive token = true
  /\ survives (concurrencyManager w) (Now env (trace w)) forImage forVideo token = true.
Proof.
  intros Hsel. pose proof (SelectToken_first_best env forImage forVideo model w) as Hfb.
  rewrite Hsel in Hfb. destruct Hfb as (l1 & l2 & Hl & _).
  assert (In token (candidates env forImage forVideo w)) as Hin.
  { rewrite Hl. apply in_or_app. right. by left. }
  unfold candidates, DB.GetActiveTokens in Hin.
  by apply List.filter_In in Hin as [[Hin Hact]%List.filter_In Hok].
Qed.

(** X3.  A credential handed out by [SelectToken] for a kind for which it
    declares a positive limit is granted its slot by an [acquire] made in the
    same state; in general [canAcquire] answers what [acquire] would do, and
    a refused [acquire] changes nothing. *)
Theorem selected_credential_is_granted_its_slot
  (env : Env) (forImage forVideo : bool) (model : string) (w : World) (token : Token) :
  fst (fst (SelectToken env forImage forVideo model w)) = Some token ->
  let cm := concurrencyManager w in
  (forImage = true -> 0 < ImageConcurrency token ->
   acquire KImage (ID token) cm = (true, granted KImage (ID token) cm))
  /\ (forVideo = true -> 0 < VideoConcurrency token ->
      acquire KVideo (ID token) cm = (true, granted KVideo (ID token) cm))
  /\ (forall k id cm',
        canAcquire k id cm' = fst (acquire k id cm')
        /\ (canAcquire k id cm' = false -> acquire k id cm' = (false, cm'))).
Proof.
  intros Hsel cm. apply SelectToken_survives in Hsel as (_ & _ & Hok).
  apply survives_true in Hok as (_ & _ & _ & Hi & Hv). split_and!.
  - intros Hf Hpos. specialize (Hi Hf Hpos).
    change (canAcquire KImage (ID token) cm = true) in Hi.
    rewrite canAcquire_unfold in Hi. rewrite acquire_unfold.
    by destruct (limit_met KImage (ID token) cm).
  - intros Hf Hpos. specialize (Hv Hf Hpos).
    change (canAcquire KVideo (ID token) cm = true) in Hv.
    rewrite canAcquire_unfold in Hv. rewrite acquire_unfold.
    by destruct (limit_met KVideo (ID token) cm).
  - intros k id cm'. rewrite canAcquire_unfold, acquire_unfold.
    by destruct (limit_met k id cm').
Qed.

Lemma selected_credential_is_granted_its_slot_witness :
  let token := Scenario.token_with 1 10 None 1 in
  let cm := concurrencyManager (Scenario.world_of [token]) in
  acquire KImage 1 cm = (true, granted KImage 1 cm).
Proof.
  intros token cm.
  refine (proj1 (selected_credential_is_granted_its_slot
                   (Scenario.env_at 0 Scenario.config0) true false ""
                   (Scenario.world_of [token]) token _) _ _).
  - vm_compute. reflexivity.
  - reflexivity.
  - reflexivity.
Defined.

(** X4.  [SelectToken] looks at the slots of a credential only for a kind
    for which the credential declares a positive limit: when no active
    credential declares a positive limit for the kind asked for, the
    selection is the same whatever the slot table holds. *)
Theorem selection_ignores_slots_without_positive_limit
  (env : Env) (forImage forVideo : bool) (model : string) (w : World)
  (cm' : ConcurrencyManager) :
  (forall t, In t (tokens (db w)) -> IsActive t = true ->
     (forImage = true -> ImageConcurrency t <= 0)
     /\ (forVideo = true -> VideoConcurrency t <= 0)) ->
  fst (SelectToken env forImage forVideo model
         {| db := db w; concurrencyManager := cm'; trace := trace w |})
  = fst (SelectToken env forImage forVideo model w).
Proof.
  intros H. rewrite !SelectToken_unfold. cbn [fst db concurrencyManager trace].
  do 2 f_equal. apply foldl_ext_in. intros t best Hin.
  unfold DB.GetActiveTokens in Hin. apply List.filter_In in Hin as [Hin Hact].
  destruct (H t Hin Hact) as [Hi Hv].
  unfold select_step.
  assert (forImage && (0 <? ImageConcurrency t) = false) as ->.
  { destruct forImage; [|done]. cbn. apply Z.ltb_ge. by apply Hi. }
  assert (forVideo && (0 <? VideoConcurrency t) = false) as ->.
  { destruct forVideo; [|done]. cbn. apply Z.ltb_ge. by apply Hv. }
  done.
Qed.

Lemma selection_ignores_slots_without_positive_limit_witness :
  let token := Scenario.token_with 1 10 None 0 in
  let w := Scenario.world_of [token] in
  fst (SelectToken (Scenario.env_at 0 Scenario.config0) true false ""
         {| db := db w; concurrencyManager := granted KImage 1 (concurrencyManager w);
            trace := trace w |})
  = fst (SelectToken (Scenario.env_at 0 Scenario.config0) true false "" w).
Proof.
  intros token w.
  apply (selection_ignores_slots_without_positive_limit
           (Scenario.env_at 0 Scenario.config0) true false "" w).
  intros t [<-|[]] _. split; intros _; vm_compute; discriminate.
Defined.

(** ** The store: statistics *)

Lemma consistent_zero : consistent DB.zero_stats.
Proof. unfold consistent, DB.zero_stats; cbn. lia. Qed.

Lemma reset_today_consistent today s :
  consistent s -> consistent (DB.reset_today today s) /\ grown s (DB.reset_today today s).
Proof.
  unfold consistent, grown, DB.reset_today. intros H.
  destruct (TodayDate s) as [day|]; [destruct (String.eqb day today)|]; cbn; lia.
Qed.

Lemma stats_step_row d op tokenID :
  token_stats (stats_step d op) !! tokenID = stats_row op tokenID <$> token_stats d !! tokenID.
Proof.
  destruct op as [today id statType|id]; unfold stats_step, stats_row.
  - unfold DB.IncrementTokenStats.
    destruct (Z.eqb_spec id tokenID) as [->|Hne].
    + destruct (String.eqb statType "image"); [|destruct (String.eqb statType "video");
        [|destruct (String.eqb statType "error")]];
        cbn beta zeta iota delta [snd with_token_stats token_stats];
        rewrite ?lookup_alter_eq; by destruct (token_stats d !! tokenID).
    + destruct (String.eqb statType "image"); [|destruct (String.eqb statType "video");
        [|destruct (String.eqb statType "error")]];
        cbn beta zeta iota delta [snd with_token_stats token_stats];
        rewrite ?lookup_alter_ne by done; by destruct (token_stats d !! tokenID).
  - unfold DB.ResetErrorCount; cbn [with_token_stats token_stats].
    destruct (Z.eqb_spec id tokenID) as [->|Hne].
    + rewrite lookup_alter_eq. by destruct (token_stats d !! tokenID).
    + rewrite lookup_alter_ne by done. by destruct (token_stats d !! tokenID).
Qed.

Lemma stats_row_grown op tokenID s : grown s (stats_row op tokenID s).
Proof.
  destruct op as [today id statType|id]; unfold stats_row.
  - destruct (id =? tokenID); [|unfold grown; lia].
    unfold grown, DB.reset_today.
    destruct (String.eqb statType "image"); [|destruct (String.eqb statType "video");
      [|destruct (String.eqb statType "error")]];
      (destruct (TodayDate s) as [day|]; [destruct (String.eqb day today)|]); cbn; lia.
  - destruct (id =? tokenID); unfold grown; cbn; lia.
Qed.

Lemma stats_row_consistent op tokenID s :
  consistent s -> consistent (stats_row op tokenID s).
Proof.
  intros H. destruct op as [today id statType|id]; unfold stats_row.
  - destruct (id =? tokenID); [|done].
    destruct (reset_today_consistent today s H) as [H1 _].
    revert H1. generalize (DB.reset_today today s). intros s1 H1.
    unfold consistent in *.
    destruct (String.eqb statType "image"); [|destruct (String.eqb statType "video");
      [|destruct (String.eqb statType "error")]]; cbn; lia.
  - destruct (id =? tokenID); unfold consistent in *; cbn; lia.
Qed.

Lemma stats_step_others d op :
  tokens (stats_step d op) = tokens d
  /\ admin_config (stats_step d op) = admin_config d
  /\ projects (stats_step d op) = projects d
  /\ tasks (stats_step d op) = tasks d.
Proof.
  destruct op as [today id statType|id]; cbn [stats_step]; [|done].
  unfold DB.IncrementTokenStats.
  by destruct (String.eqb statType "image"); [|destruct (String.eqb statType "video");
    [|destruct (String.eqb statType "error")]].
Qed.

(** X5.  Whatever statements are run on the table of statistics, in any
    order, for any credentials, days and kinds of count (the unknown ones
    included): a credential without a row never gets one, and a row stays a
    row; the totals of a row never go down; and a row whose counters fit
    together, as those of a new row do, keeps counters that fit together:
    the successes are the images plus the videos, the counters of the day and
    the errors in a row are not negative and not above their totals.  The
    other tables are not written. *)
Theorem statistics_stay_consistent (ops : list StatsOp) (d : Database) (tokenID : Z) :
  let after := foldl stats_step d ops in
  match token_stats d !! tokenID with
  | None => token_stats after !! tokenID = None
  | Some s =>
      exists s',
        token_stats after !! tokenID = Some s'
        /\ grown s s'
        /\ (consistent s -> consistent s')
  end
  /\ consistent DB.zero_stats
  /\ tokens after = tokens d
  /\ admin_config after = admin_config d
  /\ tasks after = tasks d.
Proof.
  intros after. subst after. revert d.
  induction ops as [|op ops IH]; intros d; cbn [foldl].
  - split; [|by split; [apply consistent_zero|]].
    destruct (token_stats d !! tokenID) as [s|]; [|done].
    exists s. unfold grown. split; [done|]. split; [lia|done].
  - destruct (IH (stats_step d op)) as (Hrow & _ & Ht & Ha & Hk).
    destruct (stats_step_others d op) as (Ht' & Ha' & _ & Hk').
    split; [|split; [apply consistent_zero|split_and!; congruence]].
    rewrite stats_step_row in Hrow.
    destruct (token_stats d !! tokenID) as [s|]; cbn [fmap option_fmap option_map] in Hrow;
      [|done].
    destruct Hrow as (s' & Hs' & Hg & Hc). exists s'. split; [done|]. split.
    + pose proof (stats_row_grown op tokenID s) as Hg1. unfold grown in *. lia.
    + intros Hcs. apply Hc. by apply stats_row_consistent.
Qed.

(** X6.  [IncrementTokenStats] on a row: the count asked for goes up by one
    in the total and in the counter of the day, which starts over from 0
    when the row is of another day or of none; an image or a video is a
    success and ends the errors in a row, an error adds to them.  A kind of
    count that is not known is answered with an error, after the counters of
    the day have been started over.  Without a row for the credential
    nothing is written, and no error is reported for a known kind. *)
Theorem IncrementTokenStats_counts
  (today : string) (tokenID : Z) (statType : string) (d : Database) :
  let res := DB.IncrementTokenStats today tokenID statType d in
  (token_stats d !! tokenID = None ->
   token_stats (snd res) = token_stats d
   /\ (In statType ["image"; "video"; "error"] -> fst res = None))
  /\ (forall s, token_stats d !! tokenID = Some s ->
      exists s',
        token_stats (snd res) = <[tokenID := s']> (token_stats d)
        /\ TodayDate s' = Some today
        /\ (statType = "image" ->
            fst res = None
            /\ ImageCount s' = ImageCount s + 1
            /\ TodayImageCount s' = of_the_day today s (TodayImageCount s) + 1
            /\ TodayVideoCount s' = of_the_day today s (TodayVideoCount s)
            /\ TodayErrorCount s' = of_the_day today s (TodayErrorCount s)
            /\ VideoCount s' = VideoCount s /\ ErrorCount s' = ErrorCount s
            /\ SuccessCount s' = SuccessCount s + 1
            /\ ConsecutiveErrorCount s' = 0)
        /\ (statType = "video" ->
            fst res = None
            /\ VideoCount s' = VideoCount s + 1
            /\ TodayVideoCount s' = of_the_day today s (TodayVideoCount s) + 1
            /\ TodayImageCount s' = of_the_day today s (TodayImageCount s)
            /\ TodayErrorCount s' = of_the_day today s (TodayErrorCount s)
            /\ ImageCount s' = ImageCount s /\ ErrorCount s' = ErrorCount s
            /\ SuccessCount s' = SuccessCount s + 1
            /\ ConsecutiveErrorCount s' = 0)
        /\ (statType = "error" ->
            fst res = None
            /\ ErrorCount s' = ErrorCount s + 1
            /\ TodayErrorCount s' = of_the_day today s (TodayErrorCount s) + 1
            /\ TodayImageCount s' = of_the_day today s (TodayImageCount s)
            /\ TodayVideoCount s' = of_the_day today s (TodayVideoCount s)
            /\ ImageCount s' = ImageCount s /\ VideoCount s' = VideoCount s
            /\ SuccessCount s' = SuccessCount s
            /\ ConsecutiveErrorCount s' = ConsecutiveErrorCount s + 1)
        /\ (~ In statType ["image"; "video"; "error"] ->
            fst res = Some ("unknown stat type: " +:+ statType)
            /\ TodayImageCount s' = of_the_day today s (TodayImageCount s)
            /\ TodayVideoCount s' = of_the_day today s (TodayVideoCount s)
            /\ TodayErrorCount s' = of_the_day today s (TodayErrorCount s)
            /\ ImageCount s' = ImageCount s /\ VideoCount s' = VideoCount s
            /\ ErrorCount s' = ErrorCount s /\ SuccessCount s' = SuccessCount s
            /\ ConsecutiveErrorCount s' = ConsecutiveErrorCount s)).
Proof.
  intros res. subst res. split.
  - intros Hnone. unfold DB.IncrementTokenStats.
    assert (forall f g, alter f tokenID (alter g tokenID (token_stats d)) = token_stats d) as Hq.
    { intros f g. apply map_eq. intros i. destruct (decide (i = tokenID)) as [->|Hne].
      - by rewrite !lookup_alter_eq, Hnone.
      - by rewrite !lookup_alter_ne. }
    assert (forall g, alter g tokenID (token_stats d) = token_stats d) as Hq1.
    { intros g. apply map_eq. intros i. destruct (decide (i = tokenID)) as [->|Hne].
      - by rewrite !lookup_alter_eq, Hnone.
      - by rewrite !lookup_alter_ne. }
    destruct (String.eqb_spec statType "image") as [->|H1];
      [|destruct (String.eqb_spec statType "video") as [->|H2];
        [|destruct (String.eqb_spec statType "error") as [->|H3]]];
      cbn beta zeta iota delta [fst snd with_token_stats token_stats];
      rewrite ?Hq, ?Hq1; (split; [done|]); try done.
    intros [?|[?|[?|[]]]]; congruence.
  - intros s Hs.
    exists (stats_row (OpIncrementTokenStats today tokenID statType) tokenID s).
    assert (forall f,
              alter f tokenID (alter (DB.reset_today today) tokenID (token_stats d))
              = <[tokenID := f (DB.reset_today today s)]> (token_stats d)) as Hq.
    { intros f. apply map_eq. intros i. destruct (decide (i = tokenID)) as [->|Hne].
      - by rewrite !lookup_alter_eq, lookup_insert_eq, Hs.
      - by rewrite !lookup_alter_ne, lookup_insert_ne. }
    assert (alter (DB.reset_today today) tokenID (token_stats d)
            = <[tokenID := DB.reset_today today s]> (token_stats d)) as Hq1.
    { apply map_eq. intros i. destruct (decide (i = tokenID)) as [->|Hne].
      - by rewrite !lookup_alter_eq, lookup_insert_eq, Hs.
      - by rewrite !lookup_alter_ne, lookup_insert_ne. }
    split.
    { unfold DB.IncrementTokenStats, stats_row. rewrite Z.eqb_refl.
      destruct (String.eqb statType "image"); [|destruct (String.eqb statType "video");
        [|destruct (String.eqb statType "error")]];
        cbn beta zeta iota delta [fst snd with_token_stats token_stats];
        by rewrite ?Hq, ?Hq1. }
    clear Hq Hq1.
    unfold DB.IncrementTokenStats, stats_row. rewrite Z.eqb_refl.
    unfold of_the_day, DB.reset_today.
    destruct (String.eqb_spec statType "image") as [->|H1];
      [|destruct (String.eqb_spec statType "video") as [->|H2];
        [|destruct (String.eqb_spec statType "error") as [->|H3]]];
      cbn beta zeta iota delta [fst snd with_token_stats token_stats];
      (destruct (TodayDate s) as [day|] eqn:Hday;
       [destruct (String.eqb_spec day today) as [->|Hd]|]);
      cbn; rewrite ?Hday; split_and!; try done;
      try (intros _; split_and!; done);
      try (intros Hn; exfalso; apply Hn; cbn; tauto);
      try (intros Hn; exfalso; cbn in Hn; tauto).
Qed.

(** ** The store: credentials *)

(** Entries for different columns can be applied in either order, and of
    two entries for the same column the second one decides. *)
Lemma apply_update_comm t u1 u2 :
  column u1 <> column u2 ->
  apply_update (apply_update t u1) u2 = apply_update (apply_update t u2) u1.
Proof. destruct u1, u2; cbn [column]; intros H; try done. Qed.


Lemma foldl_apply_update_comm us : forall t u,
  ~ In (column u) (List.map column us) ->
  foldl apply_update (apply_update t u) us = apply_update (foldl apply_update t us) u.
Proof.
  induction us as [|a us IH]; intros t u Hnotin; [done|].
  cbn [foldl]. cbn [List.map In] in Hnotin.
  rewrite <- IH by tauto. f_equal. apply apply_update_comm. intros Heq. apply Hnotin. by left.
Qed.


Lemma find_map_update_other (id id' : Z) (f : Token -> Token) (l : list Token) :
  (forall t, ID (f t) = ID t) -> id' <> id ->
  List.find (fun t => ID t =? id') (List.map (fun t => if ID t =? id then f t else t) l)
  = List.find (fun t => ID t =? id') l.
Proof.
  intros Hf Hne. induction l as [|a l IH]; [done|]. cbn [List.map List.find].
  destruct (Z.eqb_spec (ID a) id) as [Ha|Ha].
  - rewrite Hf. destruct (Z.eqb_spec (ID a) id') as [Ha'|Ha']; [congruence|done].
  - by destruct (ID a =? id').
Qed.



(** ** The store: tasks *)

Lemma CompleteTask_ids taskID resultURLs now d :
  List.map TaskID (tasks (DB.CompleteTask taskID resultURLs now d)) = List.map TaskID (tasks d).
Proof.
  unfold DB.CompleteTask. cbn [with_tasks tasks]. rewrite List.map_map.
  apply List.map_ext. intros t. by destruct (String.eqb (TaskID t) taskID).
Qed.

Lemma existsb_TaskID (task : Task) (l : list Task) :
  existsb (fun t => String.eqb (TaskID t) (TaskID task)) l = true
  <-> In (TaskID task) (List.map TaskID l).
Proof.
  rewrite List.existsb_exists, List.in_map_iff. split.
  - intros (x & Hin & Heq). apply String.eqb_eq in Heq. by exists x.
  - intros (x & Heq & Hin). exists x. split; [done|]. by apply String.eqb_eq.
Qed.

(** X8.  The tasks of the store keep different ids: [CreateTask] adds its
    task at the end unless one of that id is there already, in which case it
    changes nothing, and [CompleteTask] rewrites the task of the id it is
    given, if there is one, and no other.  So after [CreateTask] and then
    [CompleteTask] for its id the store holds one task of that id, and it is
    completed, with the result given. *)
Theorem tasks_keep_different_ids (task : Task) (resultURLs : list string) (now : Time)
  (d : Database) :
  NoDup (List.map TaskID (tasks d)) ->
  let created := DB.CreateTask task d in
  let done := DB.CompleteTask (TaskID task) resultURLs now created in
  NoDup (List.map TaskID (tasks created))
  /\ NoDup (List.map TaskID (tasks done))
  /\ (In (TaskID task) (List.map TaskID (tasks d)) -> created = d)
  /\ (~ In (TaskID task) (List.map TaskID (tasks d)) -> tasks created = tasks d ++ [task])
  /\ (exists l1 t l2,
        tasks created = l1 ++ t :: l2
        /\ TaskID t = TaskID task
        /\ tasks done = l1 ++ completed t resultURLs now :: l2)
  /\ tokens done = tokens d /\ token_stats done = token_stats d.
Proof.
  intros Hnd created done.
  assert (NoDup (List.map TaskID (tasks created))) as Hnd'.
  { subst created. unfold DB.CreateTask.
    destruct (existsb _ (tasks d)) eqn:He; [done|]. cbn [with_tasks tasks].
    rewrite List.map_app. apply NoDup_app. split; [done|]. split; [|apply NoDup_singleton].
    intros x Hx [<-|[]]%list_elem_of_In.
    apply list_elem_of_In, existsb_TaskID in Hx. congruence. }
  assert (In (TaskID task) (List.map TaskID (tasks created))) as Hin.
  { subst created. unfold DB.CreateTask.
    destruct (existsb _ (tasks d)) eqn:He; [by apply existsb_TaskID|].
    cbn [with_tasks tasks]. rewrite List.map_app. apply in_or_app. right. by left. }
  split_and!.
  - done.
  - subst done. by rewrite CompleteTask_ids.
  - intros H. apply existsb_TaskID in H. subst created. unfold DB.CreateTask. by rewrite H.
  - intros H. subst created. unfold DB.CreateTask.
    destruct (existsb _ (tasks d)) eqn:He; [|done]. by apply existsb_TaskID in He.
  - apply List.in_map_iff in Hin as (t & Ht & Hin).
    apply List.in_split in Hin as (l1 & l2 & Hl). exists l1, t, l2.
    split; [done|]. split; [done|].
    subst done. unfold DB.CompleteTask. cbn [with_tasks tasks]. rewrite Hl.
    rewrite Hl, List.map_app in Hnd'. cbn [List.map] in Hnd'.
    apply NoDup_app in Hnd' as (_ & Hdis & Hnd2). apply NoDup_cons in Hnd2 as [Hnot2 _].
    rewrite List.map_app. cbn [List.map]. rewrite Ht, String.eqb_refl.
    f_equal; [|f_equal].
    + rewrite <- (List.map_id l1) at 2. apply List.map_ext_in. intros x Hx.
      destruct (String.eqb_spec (TaskID x) (TaskID task)) as [Heq|]; [|done].
      exfalso. apply (Hdis (TaskID x)).
      * apply list_elem_of_In, List.in_map_iff. by exists x.
      * rewrite Heq, <- Ht. by left.
    + unfold completed. by rewrite Ht.
    + rewrite <- (List.map_id l2) at 2. apply List.map_ext_in. intros x Hx.
      destruct (String.eqb_spec (TaskID x) (TaskID task)) as [Heq|]; [|done].
      exfalso. apply Hnot2. rewrite Ht, <- Heq.
      apply list_elem_of_In, List.in_map_iff. by exists x.
  - subst done created. unfold DB.CompleteTask, DB.CreateTask.
    by destruct (existsb _ (tasks d)).
  - subst done created. unfold DB.CompleteTask, DB.CreateTask.
    by destruct (existsb _ (tasks d)).
Qed.

Lemma tasks_keep_different_ids_witness :
  let task := {| TaskID := "task-1"; TokenID := 1; Model := "veo_2_0_t2v"; Prompt := "a cat";
                 Status := "processing"; Progress := 0; ResultURLs := [];
                 CompletedAt := None |} in
  let d := db (Scenario.world_of []) in
  List.map (fun t => (TaskID t, Status t))
    (tasks (DB.CompleteTask "task-1" ["url"] 5 (DB.CreateTask task (DB.CreateTask task d))))
  = [("task-1", "completed")].
Proof.
  intros task d.
  assert (NoDup (List.map TaskID (tasks (DB.CreateTask task d)))) as Hnd.
  { vm_compute. apply NoDup_singleton. }
  destruct (tasks_keep_different_ids task ["url"] 5 (DB.CreateTask task d) Hnd)
    as (_ & _ & Hsame & _).
  rewrite Hsame; [reflexivity|]. vm_compute. by left.
Defined.

(** ** TokenManager *)

Lemma GetToken_UpdateToken_eq id updates d :
  DB.GetToken id (DB.UpdateToken id updates d)
  = match DB.GetToken id d with
    | Ok t => Ok (foldl apply_update t updates)
    | Err e => Err e
    end.
Proof.
  destruct updates as [|u us]; [|by apply GetToken_UpdateToken].
  change (DB.UpdateToken id [] d) with d. by destruct (DB.GetToken id d).
Qed.

Lemma GetToken_ResetErrorCount id id' d :
  DB.GetToken id (DB.ResetErrorCount id' d) = DB.GetToken id d.
Proof. done. Qed.







Lemma RecordError_n_S env id n w :
  RecordError_n env id (S n) w = RecordError_n env id n (snd (RecordError env id w)).
Proof.
  cbn [RecordError_n]. unfold bind. by destruct (RecordError env id w).
Qed.

(** X10.  [EnableToken] makes the credential active and ends its errors in
    a row, and leaves the rest of its row and of its statistics alone: the
    reason and the time of a ban stay.  It undoes [DisableToken], and after it
    the credential is disabled again only by as many errors in a row as the
    threshold says.  For an unknown credential nothing is written and no error
    is reported. *)
Theorem EnableToken_reactivates (env : Env) (id : Z) (w : World) :
  let after := snd (EnableToken id w) in
  fst (EnableToken id w) = None
  /\ concurrencyManager after = concurrencyManager w
  /\ trace after = trace w
  /\ token_stats (db after) = alter DB.clear_consecutive id (token_stats (db w))
  /\ (forall e, DB.GetToken id (db w) = Err e -> tokens (db after) = tokens (db w))
  /\ (forall token,
        DB.GetToken id (db w) = Ok token ->
        DB.GetToken id (db after) = Ok (apply_update token (is_active true))
        /\ IsActive (apply_update token (is_active true)) = true
        /\ BanReason (apply_update token (is_active true)) = BanReason token
        /\ BannedAt (apply_update token (is_active true)) = BannedAt token
        /\ (IsActive token = true ->
            DB.GetToken id (db (snd (EnableToken id (snd (DisableToken id w))))) = Ok token)
        /\ (forall s c,
              token_stats (db w) !! id = Some s ->
              admin_config (db w) = Some c ->
              ConsecutiveErrorCount (DB.GetTokenStats id (db after)) = 0
              /\ forall n : nat,
                   let run := snd (RecordError_n env id n after) in
                   (Z.of_nat n < ErrorBanThreshold c -> tokens (db run) = tokens (db after))
                   /\ ((0 < n)%nat -> ErrorBanThreshold c <= Z.of_nat n ->
                       exists token',
                         DB.GetToken id (db run) = Ok token' /\ IsActive token' = false))).
Proof.
  intros after. subst after. unfold EnableToken. run_M.
  cbn [fst snd db concurrencyManager trace].
  split; [done|]. split; [done|]. split; [done|]. split; [done|]. split.
  - intros e He. change (tokens (DB.ResetErrorCount id ?d)) with (tokens d).
    unfold DB.GetToken in He. unfold DB.UpdateToken; cbn [with_tokens tokens].
    destruct (List.find (fun t => ID t =? id) (tokens (db w))) eqn:Hf; [done|].
    clear He. revert Hf. induction (tokens (db w)) as [|a l IH]; [done|].
    cbn [List.find List.map]. destruct (ID a =? id); [done|]. intros H. by rewrite IH.
  - intros token Hget.
    assert (DB.GetToken id (DB.ResetErrorCount id (DB.UpdateToken id [is_active true] (db w)))
            = Ok (apply_update token (is_active true))) as Hget'.
    { rewrite GetToken_ResetErrorCount, GetToken_UpdateToken_eq, Hget. done. }
    split; [done|]. split; [done|]. split; [done|]. split; [done|]. split.
    + intros Hact. unfold DisableToken. run_M. cbn [snd db].
      rewrite GetToken_ResetErrorCount, !GetToken_UpdateToken_eq, Hget. cbn [foldl].
      f_equal. destruct token; cbn in *. by subst.
    + intros s c Hs Hc.
      set (w1 := {| db := DB.ResetErrorCount id (DB.UpdateToken id [is_active true] (db w));
                    concurrencyManager := concurrencyManager w; trace := trace w |}).
      assert (token_stats (db w1) !! id = Some (DB.clear_consecutive s)) as Hs1.
      { subst w1. cbn [db]. unfold DB.ResetErrorCount; cbn [with_token_stats token_stats].
        by rewrite lookup_alter_eq, UpdateToken_token_stats, Hs. }
      assert (admin_config (db w1) = Some c) as Hc1.
      { subst w1. cbn [db]. unfold DB.ResetErrorCount; cbn [with_token_stats admin_config].
        by rewrite UpdateToken_admin_config. }
      split.
      { change (ConsecutiveErrorCount (DB.GetTokenStats id (db w1)) = 0).
        unfold DB.GetTokenStats. by rewrite Hs1. }
      intros n. fold w1.
      destruct (RecordError_n_spec env id c n w1 _ Hs1 Hc1) as [_ Htok].
      cbn [DB.clear_consecutive ConsecutiveErrorCount] in Htok.
      split.
      * intros Hlt. rewrite Htok.
        destruct (Z.leb_spec (ErrorBanThreshold c) (0 + Z.of_nat n)); [lia|].
        by rewrite andb_false_r.
      * intros Hpos Hge. exists (apply_update (apply_update token (is_active true))
                                   (is_active false)).
        split; [|done].
        eapply GetToken_disabled_rows; [|exact Hget'].
        rewrite Htok.
        destruct (Z.ltb_spec 0 (Z.of_nat n)); [|lia].
        destruct (Z.leb_spec (ErrorBanThreshold c) (0 + Z.of_nat n)); [done|lia].
Qed.

(** X11.  The errors of a credential that has no row of statistics are not
    counted, and with a threshold above 0 they never disable it; when the
    configuration of the administration has no row, [RecordError] counts the
    error, reports that no row was found and disables nothing. *)
Theorem errors_without_a_row_never_disable (env : Env) (id : Z) (w : World) :
  (token_stats (db w) !! id = None ->
   forall c, admin_config (db w) = Some c ->
   forall n : nat,
     let after := snd (RecordError_n env id n w) in
     token_stats (db after) = token_stats (db w)
     /\ (0 < ErrorBanThreshold c -> tokens (db after) = tokens (db w))
     /\ (ErrorBanThreshold c <= 0 -> (0 < n)%nat ->
         tokens (db after) = disabled_rows id (tokens (db w))))
  /\ (admin_config (db w) = None ->
      fst (RecordError env id w) = Some ErrNoRows
      /\ tokens (db (snd (RecordError env id w))) = tokens (db w)
      /\ forall s, token_stats (db w) !! id = Some s ->
           ErrorCount (DB.GetTokenStats id (db (snd (RecordError env id w))))
           = ErrorCount s + 1).
Proof.
  split.
  - intros Hnone c Hc n. revert w Hnone Hc.
    induction n as [|n IH]; intros w Hnone Hc after.
    { subst after. cbn. split; [done|]. split; [done|]. lia. }
    subst after. rewrite RecordError_n_S.
    assert (alter (fun s => DB.count_error
                              (DB.reset_today (FormatDate env (Now env (trace w))) s))
                  id (token_stats (db w)) = token_stats (db w)) as Halt.
    { apply map_eq. intros i. destruct (decide (i = id)) as [->|Hne].
      - by rewrite lookup_alter_eq, Hnone.
      - by rewrite lookup_alter_ne. }
    assert (RecordError env id w
            = (None, {| db := if ErrorBanThreshold c <=? 0
                              then DB.UpdateToken id [is_active false] (db w) else db w;
                        concurrencyManager := concurrencyManager w;
                        trace := trace w |})) as Hrec.
    { unfold RecordError. unfold bind at 1. rewrite IncrementTokenStats_error, Halt.
      run_M. cbn [db]. unfold DB.GetAdminConfig. cbn [with_token_stats admin_config].
      rewrite Hc. unfold DB.GetTokenStats. cbn [with_token_stats token_stats].
      rewrite Hnone. cbn [default from_option DB.zero_stats ConsecutiveErrorCount].
      unfold Datatypes.id.
      destruct (ErrorBanThreshold c <=? 0); [|by destruct w as [[] ? ?]].
      unfold DisableToken. run_M. cbn [db concurrencyManager trace].
      by destruct w as [[] ? ?]. }
    rewrite Hrec. cbn [snd].
    set (w1 := {| db := _; concurrencyManager := _; trace := _ |}).
    assert (token_stats (db w1) = token_stats (db w)) as Hst.
    { subst w1. cbn [db]. destruct (ErrorBanThreshold c <=? 0); [|done].
      apply UpdateToken_token_stats. }
    assert (admin_config (db w1) = Some c) as Hc1.
    { subst w1. cbn [db]. destruct (ErrorBanThreshold c <=? 0); [|done].
      by rewrite UpdateToken_admin_config. }
    assert (token_stats (db w1) !! id = None) as Hn1 by by rewrite Hst.
    destruct (IH w1 Hn1 Hc1) as (H1 & H2 & H3).
    split; [congruence|]. split.
    + intros Hpos. rewrite (H2 Hpos). subst w1. cbn [db].
      destruct (Z.leb_spec (ErrorBanThreshold c) 0); [lia|done].
    + intros Hle _. destruct n as [|n].
      * cbn. subst w1. cbn [db]. destruct (Z.leb_spec (ErrorBanThreshold c) 0); [done|lia].
      * rewrite (H3 Hle) by lia. subst w1. cbn [db].
        destruct (Z.leb_spec (ErrorBanThreshold c) 0); [|lia].
        rewrite (UpdateToken_disable id). apply disabled_rows_idem.
  - intros Hnone.
    assert (RecordError env id w
            = (Some ErrNoRows, snd (IncrementTokenStats env id "error" w))) as Hrec.
    { unfold RecordError. unfold bind at 1. rewrite IncrementTokenStats_error.
      run_M. cbn [db snd]. unfold DB.GetAdminConfig. cbn [with_token_stats admin_config].
      by rewrite Hnone. }
    rewrite Hrec, IncrementTokenStats_error. cbn [fst snd db].
    split; [done|]. split; [done|].
    intros s Hs. unfold DB.GetTokenStats. cbn [with_token_stats token_stats].
    rewrite lookup_alter_eq, Hs. cbn [fmap option_fmap option_map default from_option].
    unfold Datatypes.id. apply error_counted.
Qed.







Lemma EnsureProjectExists_known env id w token :
  DB.GetToken id (db w) = Ok token -> CurrentProjectID token <> "" ->
  EnsureProjectExists env id w = (Ok (CurrentProjectID token), w).
Proof.
  intros Hget Hp. unfold EnsureProjectExists, GetToken. run_M. rewrite Hget.
  by destruct (String.eqb_spec (CurrentProjectID token) "").
Qed.

(** X14.  [EnsureProjectExists] creates a project once.  A credential that
    names a project gets that one, and nothing is asked or written.  For one
    that names none a project named after the time is created upstream; its id
    and name are written to the row of the credential and to the table of the
    projects, and a second call then hands out the same id without asking
    again (unless the id created is the empty one).  When the creation fails
    nothing is written.  An unknown credential is an error. *)
Theorem EnsureProjectExists_creates_once (env : Env) (id : Z) (w : World) :
  let res := EnsureProjectExists env id w in
  (forall e, DB.GetToken id (db w) = Err e -> res = (Err "token not found", w))
  /\ (forall token,
        DB.GetToken id (db w) = Ok token ->
        (CurrentProjectID token <> "" -> res = (Ok (CurrentProjectID token), w))
        /\ (CurrentProjectID token = "" ->
            let projectName := FormatProjectName env (Now env (trace w)) in
            let asked := trace w ++ [EvCreateProject (ST token) projectName] in
            (forall e,
               answer_string env asked = Err e ->
               res = (Err ("failed to create project: " +:+ e),
                      {| db := db w; concurrencyManager := concurrencyManager w;
                         trace := asked |}))
            /\ (forall projectID,
                  answer_string env asked = Ok projectID ->
                  res = (Ok projectID,
                         {| db := DB.AddProject (project_of id projectID projectName)
                                    (DB.UpdateToken id
                                       [current_project_id projectID;
                                        current_project_name projectName] (db w));
                            concurrencyManager := concurrencyManager w;
                            trace := asked |})
                  /\ (projectID <> "" ->
                      EnsureProjectExists env id (snd res) = (Ok projectID, snd res))))).
Proof.
  intros res. subst res. split.
  - intros e He. unfold EnsureProjectExists, GetToken. run_M. by rewrite He.
  - intros token Hget. split; [by apply EnsureProjectExists_known|].
    intros Hnone projectName asked. split.
    + intros e He. unfold EnsureProjectExists, GetToken, CreateProject, call_string. run_M.
      rewrite Hget, Hnone. cbn [String.eqb negb trace]. fold projectName asked.
      by rewrite He.
    + intros projectID Hp.
      assert (EnsureProjectExists env id w
              = (Ok projectID,
                 {| db := DB.AddProject (project_of id projectID projectName)
                            (DB.UpdateToken id
                               [current_project_id projectID;
                                current_project_name projectName] (db w));
                    concurrencyManager := concurrencyManager w;
                    trace := asked |})) as Hres.
      { unfold EnsureProjectExists, GetToken, CreateProject, call_string. run_M.
        rewrite Hget, Hnone. cbn [String.eqb negb trace]. fold projectName asked.
        by rewrite Hp. }
      rewrite Hres. split; [done|]. intros Hne. cbn [snd].
      set (token' := foldl apply_update token
                       [current_project_id projectID; current_project_name projectName]).
      rewrite (EnsureProjectExists_known env id _ token').
      * by destruct token.
      * cbn [db]. change (DB.GetToken id (DB.AddProject ?p ?d)) with (DB.GetToken id d).
        by rewrite GetToken_UpdateToken_eq, Hget.
      * by destruct token.
Qed.


(** ** The store: deleting a credential *)

Lemma find_filter_other (id id' : Z) (l : list Token) :
  id' <> id ->
  List.find (fun t => ID t =? id') (List.filter (fun t => negb (ID t =? id)) l)
  = List.find (fun t => ID t =? id') l.
Proof.
  intros Hne. induction l as [|a l IH]; [done|]. cbn [List.filter List.find].
  destruct (Z.eqb_spec (ID a) id) as [Ha|Ha]; cbn [negb].
  - destruct (Z.eqb_spec (ID a) id'); [congruence|done].
  - cbn [List.find]. by destruct (ID a =? id').
Qed.

Lemma find_filter_same (id : Z) (l : list Token) :
  List.find (fun t => ID t =? id) (List.filter (fun t => negb (ID t =? id)) l) = None.
Proof.
  induction l as [|a l IH]; [done|]. cbn [List.filter].
  destruct (ID a =? id) eqn:Ha; cbn [negb]; [done|]. cbn [List.find]. by rewrite Ha.
Qed.

Lemma filter_idem {A} (f : A -> bool) (l : list A) :
  List.filter f (List.filter f l) = List.filter f l.
Proof.
  induction l as [|a l IH]; [done|]. cbn [List.filter].
  destruct (f a) eqn:Ha; [|done]. cbn [List.filter]. by rewrite Ha, IH.
Qed.

Lemma DeleteToken_tokens foreign_keys id d :
  tokens (DB.DeleteToken foreign_keys id d)
  = List.filter (fun t => negb (ID t =? id)) (tokens d).
Proof. unfold DB.DeleteToken. by destruct foreign_keys. Qed.

(** X15.  [DeleteToken] removes the row of the credential and no other,
    whether the connection enforces foreign keys or not: the credential is
    not found afterwards, [SelectToken] never hands it out, every other
    credential is read as before, with its statistics, and deleting again
    changes nothing.  The slot table is not told: it holds for the credential
    what it held. *)
Theorem DeleteToken_removes_the_row (foreign_keys : bool) (id : Z) (d : Database) :
  let after := DB.DeleteToken foreign_keys id d in
  DB.GetToken id after = Err ErrNoRows
  /\ (forall id', id' <> id ->
        DB.GetToken id' after = DB.GetToken id' d
        /\ token_stats after !! id' = token_stats d !! id')
  /\ (forall t, In t (tokens after) <-> In t (tokens d) /\ ID t <> id)
  /\ admin_config after = admin_config d
  /\ DB.DeleteToken foreign_keys id after = after
  /\ (forall env forImage forVideo model cm tr token,
        fst (fst (SelectToken env forImage forVideo model
                    {| db := after; concurrencyManager := cm; trace := tr |})) = Some token ->
        ID token <> id)
  /\ (forall w,
        fst (DeleteToken foreign_keys id w) = None
        /\ db (snd (DeleteToken foreign_keys id w)) = DB.DeleteToken foreign_keys id (db w)
        /\ concurrencyManager (snd (DeleteToken foreign_keys id w)) = concurrencyManager w).
Proof.
  intros after.
  assert (forall t, In t (tokens after) <-> In t (tokens d) /\ ID t <> id) as Hin.
  { intros t. subst after. rewrite DeleteToken_tokens, List.filter_In.
    destruct (Z.eqb_spec (ID t) id); cbn [negb]; intuition congruence. }
  split_and!.
  - subst after. unfold DB.GetToken. by rewrite DeleteToken_tokens, find_filter_same.
  - intros id' Hne. split.
    + subst after. unfold DB.GetToken. by rewrite DeleteToken_tokens, find_filter_other.
    + subst after. unfold DB.DeleteToken. destruct foreign_keys; [|done].
      cbn [token_stats]. by rewrite lookup_delete_ne.
  - done.
  - subst after. unfold DB.DeleteToken. by destruct foreign_keys.
  - subst after. unfold DB.DeleteToken. destruct foreign_keys.
    + cbn [tokens token_stats admin_config projects tasks]. f_equal.
      * apply filter_idem.
      * apply delete_delete_eq.
      * apply filter_idem.
      * apply filter_idem.
    + unfold with_tokens. cbn [tokens token_stats admin_config projects tasks]. f_equal.
      apply filter_idem.
  - intros env forImage forVideo model cm tr token Hsel.
    apply SelectToken_survives in Hsel as (Ht & _). cbn [db] in Ht. by apply Hin in Ht as [_ ?].
  - done.
Qed.

(** ** What the parts of a request do to the shared state *)

#[global] Instance grows_preorder allowed : PreOrder (grows allowed).
Proof.
  split.
  - intros w. exists []. by rewrite app_nil_r.
  - intros w1 w2 w3 (n1 & H1 & A1) (n2 & H2 & A2). exists (n1 ++ n2).
    rewrite H2, H1, <- app_assoc. split; [done|]. by rewrite forallb_app, A1, A2.
Qed.

#[global] Instance extends_preorder allowed : PreOrder (extends allowed).
Proof.
  split.
  - intros w. split; [done|reflexivity].
  - intros w1 w2 w3 [C1 G1] [C2 G2]. split; [congruence|by etrans].
Qed.

#[global] Instance same_rows_preorder : PreOrder same_rows.
Proof.
  split.
  - by intros w.
  - intros w1 w2 w3 (A1 & B1 & C1) (A2 & B2 & C2). unfold same_rows. split_and!; congruence.
Qed.

#[global] Instance same_store_preorder : PreOrder same_store.
Proof. split; [by intros w|]. intros w1 w2 w3 H1 H2. unfold same_store in *. congruence. Qed.

#[global] Instance slots_kept_preorder : PreOrder slots_kept.
Proof.
  split.
  - by intros w _.
  - intros w1 w2 w3 H1 H2 Hr. destruct (H1 Hr) as [L1 C1].
    destruct H2 as [L2 C2]. { intros k id. rewrite C1. apply Hr. }
    split; [congruence|]. intros k id. by rewrite C2, C1.
Qed.

Lemma grows_weaken (p q : Event -> bool) w w' :
  (forall e, p e = true -> q e = true) -> grows p w w' -> grows q w w'.
Proof.
  intros Hpq (new & Ht & Hall). exists new. split; [done|].
  apply forallb_forall. intros e He. apply Hpq.
  by apply (proj1 (forallb_forall p new) Hall).
Qed.

Lemma extends_weaken (p q : Event -> bool) w w' :
  (forall e, p e = true -> q e = true) -> extends p w w' -> extends q w w'.
Proof. intros Hpq [Hc Hg]. split; [done|]. by eapply grows_weaken. Qed.

Lemma extends_slots_kept p w w' : extends p w w' -> slots_kept w w'.
Proof. intros [Hc _] _. by rewrite Hc. Qed.

Section Effects.

Context (R : relation World) `{!PreOrder R}.

Lemma effect_ret {A} (a : A) : effect R (ret a).
Proof. intros w. reflexivity. Qed.

Lemma effect_bind {A B} (m : M A) (k : A -> M B) :
  effect R m -> (forall a, effect R (k a)) -> effect R (bind m k).
Proof.
  intros Hm Hk w. unfold bind. specialize (Hm w). destruct (m w) as [a w1].
  cbn [snd] in Hm. etrans; [exact Hm|]. apply Hk.
Qed.

Lemma effect_read {A} (g : World -> A) : effect R (fun w => (g w, w)).
Proof. intros w. reflexivity. Qed.

Lemma effect_get_db : effect R get_db.
Proof. apply effect_read. Qed.

Lemma effect_get_cm : effect R get_cm.
Proof. apply effect_read. Qed.

Lemma effect_time_Now env : effect R (time_Now env).
Proof. apply effect_read. Qed.

Lemma effect_GetToken id : effect R (GetToken id).
Proof. apply effect_bind; [apply effect_get_db|intros d; apply effect_ret]. Qed.

Lemma effect_forM {A} (l : list A) (f : A -> M unit) :
  (forall a, effect R (f a)) -> effect R (forM l f).
Proof.
  intros Hf. induction l as [|a l IH]; [apply effect_ret|].
  cbn [forM]. by apply effect_bind.
Qed.

End Effects.

Lemma effect_impl (R R' : relation World) {A} (m : M A) :
  (forall w w', R w w' -> R' w w') -> effect R m -> effect R' m.
Proof. intros H Hm w. apply H, Hm. Qed.

Lemma effect_SelectToken R `{!PreOrder R} env forImage forVideo model :
  effect R (SelectToken env forImage forVideo model).
Proof. intros w. rewrite SelectToken_unfold. reflexivity. Qed.

(** The primitive steps. *)
Lemma grows_emit (p : Event -> bool) e : p e = true -> effect (grows p) (emit e).
Proof. intros He w. exists [e]. split; [done|]. cbn. by rewrite He. Qed.

Lemma extends_emit (p : Event -> bool) e : p e = true -> effect (extends p) (emit e).
Proof. intros He w. split; [done|]. by apply grows_emit. Qed.

Lemma extends_modify_db p f : effect (extends p) (modify_db f).
Proof. intros w. split; [done|]. exists []. by rewrite app_nil_r. Qed.

Lemma same_rows_emit e : effect same_rows (emit e).
Proof. by intros w. Qed.

Lemma same_store_emit e : effect same_store (emit e).
Proof. by intros w. Qed.

Lemma same_rows_CreateTask task : effect same_rows (modify_db (DB.CreateTask task)).
Proof.
  intros w. unfold same_rows, modify_db, DB.CreateTask; cbn [snd db].
  by destruct (existsb _ (tasks (db w))).
Qed.

Lemma same_rows_CompleteTask taskID resultURLs now :
  effect same_rows (modify_db (DB.CompleteTask taskID resultURLs now)).
Proof. by intros w. Qed.

(** One step of taking a computation apart; [leaf] closes what is left. *)
Ltac effect_step leaf :=
  lazymatch goal with
  | |- @effect ?R _ _ =>
      first
        [ leaf
        | apply (@effect_ret R _)
        | apply (@effect_get_db R _)
        | apply (@effect_get_cm R _)
        | apply (@effect_time_Now R _)
        | apply (@effect_GetToken R _)
        | apply (@effect_SelectToken R _)
        | apply (@effect_read R _)
        | apply (@effect_bind R _); [|intros ?]
        | lazymatch goal with
          | |- effect _ (match ?x with _ => _ end) => destruct x
          end
        | progress cbv beta zeta ]
  end.

Ltac effect_steps leaf := repeat effect_step leaf.

Ltac unfold_client :=
  unfold sendFailure, sendStreamChunk, sendErrorResponse, cacheFile, Sleep,
    STToAT, GetCredits, CreateProject, UploadImage, GenerateImage, GenerateVideoText,
    GenerateVideoReferenceImages, GenerateVideoStartEnd, CheckVideoStatus,
    call_string, call_map.

Ltac extends_leaf :=
  first [ apply extends_emit; reflexivity | apply extends_modify_db ].

Ltac same_rows_leaf :=
  first [ apply same_rows_emit | apply same_rows_CreateTask | apply same_rows_CompleteTask ].

Section HandlerParts.

Context (env : Env).

Lemma poll_loop_extends token operations maxAttempts remaining : forall attempt,
  effect (extends polling) (poll_loop env token operations maxAttempts remaining attempt).
Proof.
  induction remaining as [|remaining IH]; intros attempt; cbn [poll_loop]; unfold_client;
    effect_steps ltac:(first [apply IH | extends_leaf]).
Qed.

Lemma poll_loop_same_rows token operations maxAttempts remaining : forall attempt,
  effect same_rows (poll_loop env token operations maxAttempts remaining attempt).
Proof.
  induction remaining as [|remaining IH]; intros attempt; cbn [poll_loop]; unfold_client;
    effect_steps ltac:(first [apply IH | same_rows_leaf]).
Qed.

Lemma pollVideoResult_extends token operations :
  effect (extends polling) (pollVideoResult env token operations).
Proof.
  unfold pollVideoResult. unfold_client.
  effect_steps ltac:(first [apply poll_loop_extends | extends_leaf]).
Qed.

Lemma pollVideoResult_same_rows token operations :
  effect same_rows (pollVideoResult env token operations).
Proof.
  unfold pollVideoResult. unfold_client.
  effect_steps ltac:(first [apply poll_loop_same_rows | same_rows_leaf]).
Qed.

Lemma upload_reference_inputs_effect token modelConfig n images : forall i imageInputs,
  effect (extends image_event)
    (upload_reference_inputs env token modelConfig n i images imageInputs)
  /\ effect same_store
       (upload_reference_inputs env token modelConfig n i images imageInputs).
Proof.
  induction images as [|img images IH]; intros i imageInputs; cbn [upload_reference_inputs];
    unfold_client; split.
  - effect_steps extends_leaf.
  - effect_steps ltac:(apply same_store_emit).
  - effect_steps ltac:(first [apply IH | extends_leaf]).
  - effect_steps ltac:(first [apply IH | apply same_store_emit]).
Qed.

Lemma upload_reference_images_effect token modelConfig images : forall i referenceImages,
  effect (extends video_event)
    (upload_reference_images env token modelConfig i images referenceImages)
  /\ effect same_store
       (upload_reference_images env token modelConfig i images referenceImages).
Proof.
  induction images as [|img images IH]; intros i referenceImages;
    cbn [upload_reference_images]; unfold_client; split.
  - effect_steps extends_leaf.
  - effect_steps ltac:(apply same_store_emit).
  - effect_steps ltac:(first [apply IH | extends_leaf]).
  - effect_steps ltac:(first [apply IH | apply same_store_emit]).
Qed.

Lemma upload_video_inputs_effect token modelConfig videoType images :
  effect (extends video_event) (upload_video_inputs env token modelConfig videoType images)
  /\ effect same_store (upload_video_inputs env token modelConfig videoType images).
Proof.
  unfold upload_video_inputs. unfold_client. split.
  - effect_steps ltac:(first [apply upload_reference_images_effect | extends_leaf]).
  - effect_steps ltac:(first [apply upload_reference_images_effect | apply same_store_emit]).
Qed.

End HandlerParts.

Section TokenManagerEffects.

Context (env : Env).

Lemma DisableToken_extends p id : effect (extends p) (DisableToken id).
Proof. unfold DisableToken. effect_steps extends_leaf. Qed.

Lemma refreshATInternal_extends id : effect (extends preparing) (refreshATInternal env id).
Proof.
  unfold refreshATInternal. unfold_client.
  effect_steps ltac:(first [apply DisableToken_extends | extends_leaf]).
Qed.

Lemma IsATValid_extends id : effect (extends preparing) (IsATValid env id).
Proof.
  unfold IsATValid. effect_steps ltac:(first [apply refreshATInternal_extends | extends_leaf]).
Qed.

Lemma EnsureProjectExists_extends id : effect (extends preparing) (EnsureProjectExists env id).
Proof. unfold EnsureProjectExists. unfold_client. effect_steps extends_leaf. Qed.

Lemma IncrementTokenStats_extends p id statType :
  effect (extends p) (IncrementTokenStats env id statType).
Proof.
  unfold IncrementTokenStats. apply (@effect_bind _ _); [apply (@effect_time_Now _ _)|].
  intros now w. destruct (DB.IncrementTokenStats _ id statType (db w)) as [err d].
  cbn [snd]. split; [done|]. exists []. by rewrite app_nil_r.
Qed.

Lemma RecordUsage_extends p id isVideo : effect (extends p) (RecordUsage env id isVideo).
Proof.
  unfold RecordUsage.
  effect_steps ltac:(first [apply IncrementTokenStats_extends | extends_leaf]).
Qed.

Lemma RecordError_extends p id : effect (extends p) (RecordError env id).
Proof.
  unfold RecordError.
  effect_steps ltac:(first [apply IncrementTokenStats_extends | apply DisableToken_extends
                           | extends_leaf]).
Qed.

Lemma RecordSuccess_extends p id : effect (extends p) (RecordSuccess id).
Proof. unfold RecordSuccess. effect_steps extends_leaf. Qed.

Lemma BanTokenFor429_extends p id : effect (extends p) (BanTokenFor429 env id).
Proof. unfold BanTokenFor429. effect_steps extends_leaf. Qed.

End TokenManagerEffects.

(** ** Work done with a slot *)

Section WithSlot.

Context (k : Kind) (tokenID : Z) (body : M Outcome).

(** What [with_slot] leaves in the slot table. *)
Lemma with_slot_slots p w :
  effect (extends p) body ->
  concurrencyManager (snd (with_slot k tokenID body w))
  = if fst (acquire k tokenID (concurrencyManager w))
    then release k tokenID (granted k tokenID (concurrencyManager w))
    else concurrencyManager w.
Proof.
  intros Hbody. unfold with_slot. unfold bind at 1. unfold get_cm at 1. cbn beta iota.
  rewrite acquire_unfold. destruct (limit_met k tokenID (concurrencyManager w)); cbn [fst negb].
  - unfold sendFailure, sendStreamChunk, sendErrorResponse. run_M. done.
  - unfold bind at 1. unfold put_cm at 1. cbn beta iota.
    set (w1 := {| db := db w; concurrencyManager := granted k tokenID (concurrencyManager w);
                  trace := trace w |}).
    unfold bind at 1. destruct (Hbody w1) as [Hc _]. destruct (body w1) as [out w2].
    cbn [snd] in Hc. run_M. cbn [snd concurrencyManager]. by rewrite Hc.
Qed.

Lemma with_slot_slots_kept p :
  effect (extends p) body -> effect slots_kept (with_slot k tokenID body).
Proof.
  intros Hbody w Hr. rewrite (with_slot_slots p w Hbody).
  destruct (fst (acquire k tokenID (concurrencyManager w))); [|done].
  split; [by rewrite release_limits, granted_limits|].
  intros k' id'. by apply release_granted_counter.
Qed.

Lemma with_slot_grows (p : Event -> bool) :
  (forall e, sent e = true -> p e = true) ->
  effect (extends p) body -> effect (grows p) (with_slot k tokenID body).
Proof.
  intros Hsent Hbody. unfold with_slot. unfold_client.
  assert (effect (grows p) body) as Hg by (intros w; apply Hbody).
  effect_steps ltac:(first [ exact Hg
                           | apply grows_emit; apply Hsent; reflexivity
                           | by intros w; exists []; rewrite app_nil_r ]).
Qed.

(** A relation that only looks at the store holds across [with_slot] when
    it holds across the work. *)
Lemma with_slot_store (R : relation World) `{!PreOrder R} :
  (forall w w', db w' = db w -> R w w') ->
  effect R body -> effect R (with_slot k tokenID body).
Proof.
  intros HR Hbody. unfold with_slot. unfold_client.
  effect_steps ltac:(first [ exact Hbody | by intros w; apply HR ]).
Qed.

End WithSlot.

Lemma same_store_same_rows w w' : same_store w w' -> same_rows w w'.
Proof. unfold same_store, same_rows. by intros ->. Qed.

Section Handlers.

Context (env : Env) (token : Token) (projectID : string) (modelConfig : ModelConfig)
  (prompt : string) (images : list (list Byte.byte)).

(** The two handlers do their work with a slot. *)
Lemma handleImageGeneration_with_slot :
  exists body,
    handleImageGeneration env token projectID modelConfig prompt images
    = with_slot KImage (ID token) body
    /\ effect (extends image_event) body
    /\ effect same_store body.
Proof.
  eexists. split; [reflexivity|]. unfold_client. split.
  - effect_steps ltac:(first [apply upload_reference_inputs_effect | extends_leaf]).
  - effect_steps ltac:(first [apply upload_reference_inputs_effect | apply same_store_emit]).
Qed.

Lemma handleVideoGeneration_with_slot :
  exists body,
    handleVideoGeneration env token projectID modelConfig prompt images
    = with_slot KVideo (ID token) body
    /\ effect (extends video_event) body
    /\ effect same_rows body.
Proof.
  eexists. split; [reflexivity|]. unfold_client. split.
  - effect_steps ltac:(first [ apply upload_video_inputs_effect
                             | eapply effect_impl; [|apply pollVideoResult_extends];
                               intros ? ?; apply extends_weaken; intros []; done
                             | extends_leaf ]).
  - effect_steps ltac:(first [ eapply effect_impl; [|apply upload_video_inputs_effect];
                               apply same_store_same_rows
                             | apply pollVideoResult_same_rows
                             | same_rows_leaf ]).
Qed.

End Handlers.

Section HandlerEffects.

Context (env : Env) (token : Token) (projectID : string) (modelConfig : ModelConfig)
  (prompt : string) (images : list (list Byte.byte)).

Lemma handleImageGeneration_grows :
  effect (grows image_event)
    (handleImageGeneration env token projectID modelConfig prompt images).
Proof.
  destruct (handleImageGeneration_with_slot env token projectID modelConfig prompt images)
    as (body & -> & Hb & _).
  apply with_slot_grows; [|done]. intros []; done.
Qed.

Lemma handleVideoGeneration_grows :
  effect (grows video_event)
    (handleVideoGeneration env token projectID modelConfig prompt images).
Proof.
  destruct (handleVideoGeneration_with_slot env token projectID modelConfig prompt images)
    as (body & -> & Hb & _).
  apply with_slot_grows; [|done]. intros []; done.
Qed.

Lemma handleImageGeneration_slots_kept :
  effect slots_kept (handleImageGeneration env token projectID modelConfig prompt images).
Proof.
  destruct (handleImageGeneration_with_slot env token projectID modelConfig prompt images)
    as (body & -> & Hb & _).
  by eapply with_slot_slots_kept.
Qed.

Lemma handleVideoGeneration_slots_kept :
  effect slots_kept (handleVideoGeneration env token projectID modelConfig prompt images).
Proof.
  destruct (handleVideoGeneration_with_slot env token projectID modelConfig prompt images)
    as (body & -> & Hb & _).
  by eapply with_slot_slots_kept.
Qed.

Lemma handleImageGeneration_same_store :
  effect same_store (handleImageGeneration env token projectID modelConfig prompt images).
Proof.
  destruct (handleImageGeneration_with_slot env token projectID modelConfig prompt images)
    as (body & -> & _ & Hb).
  by apply (@with_slot_store _ _ _ same_store _).
Qed.

Lemma handleVideoGeneration_same_rows :
  effect same_rows (handleVideoGeneration env token projectID modelConfig prompt images).
Proof.
  destruct (handleVideoGeneration_with_slot env token projectID modelConfig prompt images)
    as (body & -> & _ & Hb).
  apply (@with_slot_store _ _ _ same_rows _); [|done]. unfold same_rows. by intros w w' ->.
Qed.

End HandlerEffects.

(** Leaves for the whole request: the history grows by events that are
    not the closing of the channel, and the slots are kept. *)
Ltac grows_from L :=
  eapply effect_impl; [|apply L];
  first [ intros ? ? [_ ?]; eapply grows_weaken; [|eassumption]; intros []; done
        | intros ? ?; apply grows_weaken; intros []; done ].

Ltac slots_from L :=
  first [ apply L | eapply effect_impl; [|apply L]; apply extends_slots_kept ].

Lemma slots_kept_emit e : effect slots_kept (emit e).
Proof. by intros w _. Qed.

Section Request.

Context (env : Env) (model prompt : string) (images : list (list Byte.byte)) (stream : bool).

(** A request is some work followed by the closing of the channel. *)
Lemma HandleGeneration_closes :
  exists work,
    HandleGeneration env model prompt images stream
    = (let* out := work in emit EvClose ;; ret out)
    /\ effect (grows not_close) work
    /\ effect slots_kept work.
Proof.
  eexists. split; [reflexivity|]. unfold_client. split.
  - effect_steps ltac:(first
      [ apply grows_emit; reflexivity
      | grows_from (IsATValid_extends env)
      | grows_from (EnsureProjectExists_extends env)
      | grows_from (handleImageGeneration_grows env)
      | grows_from (handleVideoGeneration_grows env)
      | grows_from (BanTokenFor429_extends env sent)
      | grows_from (RecordError_extends env sent)
      | grows_from (RecordUsage_extends env sent)
      | grows_from (RecordSuccess_extends sent) ]).
  - effect_steps ltac:(first
      [ apply slots_kept_emit
      | slots_from (IsATValid_extends env)
      | slots_from (EnsureProjectExists_extends env)
      | slots_from (handleImageGeneration_slots_kept env)
      | slots_from (handleVideoGeneration_slots_kept env)
      | slots_from (BanTokenFor429_extends env sent)
      | slots_from (RecordError_extends env sent)
      | slots_from (RecordUsage_extends env sent)
      | slots_from (RecordSuccess_extends sent) ]).
Qed.

End Request.

(** X16.  However a request ends, by returning or by panicking, the channel
    is closed once, and that is the last thing the request does. *)
Theorem channel_is_closed_once_at_the_end
  (env : Env) (model prompt : string) (images : list (list Byte.byte)) (stream : bool)
  (w : World) :
  exists new,
    trace (snd (HandleGeneration env model prompt images stream w))
    = trace w ++ new ++ [EvClose]
    /\ forallb not_close new = true.
Proof.
  destruct (HandleGeneration_closes env model prompt images stream) as (work & -> & Hg & _).
  destruct (Hg w) as (new & Hnew & Hall). exists new. split; [|done].
  unfold bind, emit, ret. destruct (work w) as [out w1]. cbn [snd trace] in *.
  by rewrite Hnew, <- app_assoc.
Qed.

(** X17.  A request gives back the slot it takes, however it ends: when no
    counter of the slot table is negative or at the largest integer, every
    counter and every limit is after the request what it was before. *)
Theorem slots_are_given_back
  (env : Env) (model prompt : string) (images : list (list Byte.byte)) (stream : bool)
  (w : World) :
  (forall k id, 0 <= counter k (concurrencyManager w) id < int_max) ->
  let after := snd (HandleGeneration env model prompt images stream w) in
  limits (concurrencyManager after) = limits (concurrencyManager w)
  /\ forall k id,
       counter k (concurrencyManager after) id = counter k (concurrencyManager w) id.
Proof.
  intros Hr after. subst after.
  destruct (HandleGeneration_closes env model prompt images stream) as (work & -> & _ & Hs).
  specialize (Hs w Hr). unfold bind, emit, ret. destruct (work w) as [out w1].
  by cbn [snd concurrencyManager] in *.
Qed.

Lemma slots_are_given_back_witness :
  let w := Scenario.world_of [Scenario.token_with 1 10 None 1] in
  let after := snd (HandleGeneration (Scenario.env_generating 0 Scenario.config0)
                      "veo_3_1_t2v_fast_portrait" "a cat" [] true w) in
  counter KVideo (concurrencyManager after) 1 = 0
  /\ limit_of KImage (concurrencyManager after) 1 = Some 1.
Proof.
  intros w after.
  assert (forall k id, 0 <= counter k (concurrencyManager w) id < int_max) as Hr.
  { intros k id. subst w. unfold Scenario.world_of; cbn [concurrencyManager].
    rewrite Initialize_counter, counter_new. unfold int_max. lia. }
  destruct (slots_are_given_back (Scenario.env_generating 0 Scenario.config0)
              "veo_3_1_t2v_fast_portrait" "a cat" [] true w Hr) as [Hl Hc].
  fold after in Hl, Hc. split.
  - rewrite Hc. reflexivity.
  - unfold limit_of. rewrite Hl. reflexivity.
Defined.

(** ** Video from text *)

Lemma upload_video_inputs_t2v env token modelConfig images :
  upload_video_inputs env token modelConfig "t2v" images = ret (Ok ("", "", [])).
Proof. reflexivity. Qed.

Lemma handleVideoGeneration_t2v env modelConfig :
  VideoType modelConfig = "t2v" ->
  forall token projectID prompt images,
    effect (grows text_to_video)
      (handleVideoGeneration env token projectID modelConfig prompt images).
Proof.
  intros Ht token projectID prompt images. destruct modelConfig as [ty vt mn mk ar si mi ma]. cbn [VideoType] in Ht. subst vt.
  unfold handleVideoGeneration. cbn [VideoType]. unfold_client.
  effect_steps ltac:(first
    [ apply grows_emit; reflexivity
    | by intros w; exists []; rewrite app_nil_r
    | rewrite upload_video_inputs_t2v
    | grows_from (pollVideoResult_extends env)
    | progress cbn [String.eqb Ascii.eqb Bool.eqb andb negb] ]).
Qed.

Lemma lookup_model_In model table modelConfig :
  lookup_model model table = Some modelConfig -> In (model, modelConfig) table.
Proof.
  induction table as [|[name c] table IH]; [done|]. cbn [lookup_model].
  destruct (String.eqb_spec name model) as [->|Hne].
  - intros [= ->]. by left.
  - intros H. right. by apply IH.
Qed.

(** The models of the table that make a video from text are video models. *)
Lemma text_to_video_is_video model modelConfig :
  lookup_model model ModelConfigs = Some modelConfig ->
  VideoType modelConfig = "t2v" -> Type_ modelConfig = "video".
Proof.
  intros Hm%lookup_model_In Ht.
  assert (forallb (fun entry => implb (String.eqb (VideoType (snd entry)) "t2v")
                                      (String.eqb (Type_ (snd entry)) "video"))
                  ModelConfigs = true) as Hall by (vm_compute; reflexivity).
  pose proof (proj1 (forallb_forall _ _) Hall _ Hm) as H. cbn [snd] in H.
  rewrite Ht in H. by apply String.eqb_eq in H.
Qed.

(** X18.  A request for a model of the table that makes a video from text
    alone never uploads an image, whatever images come with it, and the only
    generation it asks for upstream is that of a video from text. *)
Theorem text_to_video_uploads_nothing
  (env : Env) (model prompt : string) (images : list (list Byte.byte)) (stream : bool)
  (w : World) (modelConfig : ModelConfig) :
  lookup_model model ModelConfigs = Some modelConfig ->
  VideoType modelConfig = "t2v" ->
  exists new,
    trace (snd (HandleGeneration env model prompt images stream w)) = trace w ++ new
    /\ forallb from_text_only new = true.
Proof.
  intros Hm Ht. pose proof (text_to_video_is_video model modelConfig Hm Ht) as Hty.
  revert w. change (effect (grows from_text_only)
                      (HandleGeneration env model prompt images stream)).
  unfold HandleGeneration. rewrite Hm. cbv beta iota zeta. rewrite !Hty.
  change (String.eqb "video" "image") with false.
  change (String.eqb "video" "video") with true. cbv beta iota zeta. unfold_client.
  effect_steps ltac:(first
    [ apply grows_emit; reflexivity
    | grows_from (IsATValid_extends env)
    | grows_from (EnsureProjectExists_extends env)
    | grows_from (handleVideoGeneration_t2v env modelConfig Ht)
    | grows_from (BanTokenFor429_extends env sent)
    | grows_from (RecordError_extends env sent)
    | grows_from (RecordUsage_extends env sent)
    | grows_from (RecordSuccess_extends sent) ]).
Qed.

Lemma text_to_video_uploads_nothing_witness :
  exists new,
    trace (snd (HandleGeneration (Scenario.env_generating 0 Scenario.config0)
                  "veo_3_1_t2v_fast_portrait" "a cat" [[]; []] true
                  (Scenario.world_of [Scenario.token_with 1 10 None 1])))
    = [] ++ new
    /\ forallb from_text_only new = true.
Proof.
  apply (text_to_video_uploads_nothing (Scenario.env_generating 0 Scenario.config0)
           "veo_3_1_t2v_fast_portrait" "a cat" [[]; []] true
           (Scenario.world_of [Scenario.token_with 1 10 None 1])
           {| Type_ := "video"; VideoType := "t2v"; ModelName := "";
              ModelKey := "veo_3_1_t2v_fast_portrait";
              AspectRatio := "VIDEO_ASPECT_RATIO_PORTRAIT"; SupportsImages := false;
              MinImages := 0; MaxImages := 0 |}); reflexivity.
Defined.

(** ** A request and the credentials it does not use *)

#[global] Instance writes_only_preorder id : PreOrder (writes_only id).
Proof.
  split.
  - by intros w.
  - intros w1 w2 w3 (Hi & Ho & Ha) (Hi' & Ho' & Ha'). split_and!.
    + by rewrite Hi'.
    + intros id' Hne. destruct (Ho id' Hne) as [H1 H2]. destruct (Ho' id' Hne) as [H3 H4].
      split; congruence.
    + by rewrite Ha'.
Qed.

Lemma same_rows_writes_only id w w' : same_rows w w' -> writes_only id w w'.
Proof.
  intros (Ht & Hs & Ha). unfold writes_only, DB.GetToken. by rewrite Ht, Hs, Ha.
Qed.

Lemma writes_only_emit id e : effect (writes_only id) (emit e).
Proof. by intros w. Qed.

Lemma writes_only_UpdateToken id updates :
  effect (writes_only id) (modify_db (DB.UpdateToken id updates)).
Proof.
  intros w. unfold writes_only, modify_db; cbn [snd db].
  rewrite UpdateToken_token_stats, UpdateToken_admin_config. split_and!; [|intros id' Hne; split|]; try done.
  - unfold DB.UpdateToken. destruct updates as [|u us]; [done|]. cbn [with_tokens tokens].
    rewrite List.map_map. apply List.map_ext. intros t.
    destruct (ID t =? id); [apply apply_updates_ID|done].
  - unfold DB.UpdateToken, DB.GetToken.
    destruct updates as [|u us]; [done|]. cbn [with_tokens tokens].
    rewrite find_map_update_other; [done|apply apply_updates_ID|done].
Qed.

Lemma writes_only_alter id f :
  effect (writes_only id)
    (modify_db (fun d => with_token_stats d (alter f id (token_stats d)))).
Proof.
  intros w. unfold writes_only, modify_db, DB.GetToken; cbn [snd db].
  destruct (db w); cbn. split_and!; [done| |done].
  intros id' Hne. split; [done|]. by rewrite lookup_alter_ne.
Qed.

Lemma writes_only_ResetErrorCount id :
  effect (writes_only id) (modify_db (DB.ResetErrorCount id)).
Proof. apply writes_only_alter. Qed.

Lemma writes_only_AddProject id project :
  effect (writes_only id) (modify_db (DB.AddProject project)).
Proof. intros w. unfold writes_only, modify_db; cbn [snd db]. by destruct (db w). Qed.

Section TokenManagerWrites.

Context (env : Env).

Lemma IncrementTokenStats_writes_only id statType :
  effect (writes_only id) (IncrementTokenStats env id statType).
Proof.
  intros w. unfold IncrementTokenStats, DB.IncrementTokenStats.
  unfold bind, time_Now, get_db, ret. cbn beta iota zeta.
  destruct (db w) eqn:Hd.
  repeat (destruct (String.eqb statType _));
    cbn; unfold writes_only, DB.GetToken; rewrite Hd; cbn;
    (split_and!; [done| |done]); intros id' Hne; (split; [done|]);
    by rewrite ?lookup_alter_ne.
Qed.


Lemma DisableToken_writes_only id : effect (writes_only id) (DisableToken id).
Proof.
  unfold DisableToken. effect_steps ltac:(apply writes_only_UpdateToken).
Qed.

Ltac writes_only_leaf :=
  first [ apply writes_only_emit | apply writes_only_UpdateToken
        | apply writes_only_ResetErrorCount | apply writes_only_AddProject
        | apply IncrementTokenStats_writes_only | apply DisableToken_writes_only ].

Lemma refreshATInternal_writes_only id : effect (writes_only id) (refreshATInternal env id).
Proof. unfold refreshATInternal. unfold_client. effect_steps writes_only_leaf. Qed.

Lemma IsATValid_writes_only id : effect (writes_only id) (IsATValid env id).
Proof.
  unfold IsATValid.
  effect_steps ltac:(first [apply refreshATInternal_writes_only | writes_only_leaf]).
Qed.

Lemma EnsureProjectExists_writes_only id :
  effect (writes_only id) (EnsureProjectExists env id).
Proof. unfold EnsureProjectExists. unfold_client. effect_steps writes_only_leaf. Qed.

Lemma RecordUsage_writes_only id isVideo :
  effect (writes_only id) (RecordUsage env id isVideo).
Proof. unfold RecordUsage. effect_steps writes_only_leaf. Qed.

Lemma RecordError_writes_only id : effect (writes_only id) (RecordError env id).
Proof. unfold RecordError. effect_steps writes_only_leaf. Qed.

Lemma RecordSuccess_writes_only id : effect (writes_only id) (RecordSuccess id).
Proof. unfold RecordSuccess. effect_steps writes_only_leaf. Qed.

Lemma BanTokenFor429_writes_only id : effect (writes_only id) (BanTokenFor429 env id).
Proof. unfold BanTokenFor429. effect_steps writes_only_leaf. Qed.

End TokenManagerWrites.

(** The credential read by [GetToken] has the id asked for. *)
Lemma effect_bind_GetToken (R : relation World) `{!PreOrder R} {B} id
  (k : result Token -> M B) :
  (forall e, effect R (k (Err e))) ->
  (forall t, ID t = id -> effect R (k (Ok t))) ->
  effect R (let* r := GetToken id in k r).
Proof.
  intros He Ht w. cbv [bind GetToken get_db ret]. cbn beta iota zeta.
  destruct (DB.GetToken id (db w)) as [t|e] eqn:E.
  - apply Ht. by apply GetToken_ID in E.
  - apply He.
Qed.

Lemma writes_only_from w w1 w2 :
  db w1 = db w ->
  (db w2 = db w1
   \/ exists token,
        In token (tokens (db w1)) /\ IsActive token = true /\ writes_only (ID token) w1 w2) ->
  db w2 = db w
  \/ exists token,
       In token (tokens (db w)) /\ IsActive token = true /\ writes_only (ID token) w w2.
Proof.
  intros Hdb [H|(token & Hin & Ha & Hw)]; [left; congruence|].
  right. exists token. unfold writes_only in *. by rewrite <- Hdb.
Qed.

Section RequestWrites.

Context (env : Env) (model prompt : string) (images : list (list Byte.byte)) (stream : bool).

Lemma HandleGeneration_writes :
  exists work,
    HandleGeneration env model prompt images stream
    = (let* out := work in emit EvClose ;; ret out)
    /\ forall w,
         db (snd (work w)) = db w
         \/ exists token,
              In token (tokens (db w)) /\ IsActive token = true
              /\ writes_only (ID token) w (snd (work w)).
Proof.
  eexists. split; [reflexivity|]. intros w.
  destruct (lookup_model model ModelConfigs) as [modelConfig|].
  2:{ left. refine ((_ : effect same_store _) w). unfold_client.
      effect_steps ltac:(apply same_store_emit). }
  cbv zeta. destruct stream; cbn [negb].
  2:{ left. refine ((_ : effect same_store _) w). unfold_client.
      effect_steps ltac:(apply same_store_emit). }
  rewrite snd_bind. cbv beta.
  match goal with
  | |- context [snd (sendStreamChunk ?c ?f ?b w)] =>
      apply (writes_only_from w (snd (sendStreamChunk c f b w))); [done|];
      generalize (snd (sendStreamChunk c f b w))
  end.
  intros w1. rewrite snd_bind.
  pose proof (SelectToken_survives env (String.eqb (Type_ modelConfig) "image")
                (String.eqb (Type_ modelConfig) "video") model w1) as Hsurv.
  rewrite SelectToken_unfold in *. cbn [fst snd] in *.
  destruct (fst (foldl _ _ _)) as [token|].
  - right. exists token. destruct (Hsurv token eq_refl) as (Hin & Hact & _).
    split; [done|]. split; [done|].
    refine ((_ : effect (writes_only (ID token)) _) w1). unfold_client.
    effect_steps ltac:(first
      [ apply writes_only_emit
      | apply effect_bind_GetToken; [apply _|intros ?|intros ? ->]
      | apply IsATValid_writes_only
      | apply EnsureProjectExists_writes_only
      | eapply effect_impl; [|apply handleImageGeneration_same_store];
        intros ? ? ?; by apply same_rows_writes_only, same_store_same_rows
      | eapply effect_impl; [|apply handleVideoGeneration_same_rows];
        intros ? ? ?; by apply same_rows_writes_only
      | apply BanTokenFor429_writes_only
      | apply RecordError_writes_only
      | apply RecordUsage_writes_only
      | apply RecordSuccess_writes_only ]).
  - left. refine ((_ : effect same_store _) w1). unfold_client.
    effect_steps ltac:(apply same_store_emit).
Qed.

End RequestWrites.

(** X19.  A request writes the row and the statistics of one credential at
    most, an active one of the store, and it adds no credential and removes
    none: either the store is after the request what it was before, or there
    is an active credential such that every other credential is read as
    before, with its statistics.  The configuration of the administration is
    not written. *)
Theorem request_writes_one_credential
  (env : Env) (model prompt : string) (images : list (list Byte.byte)) (stream : bool)
  (w : World) :
  let after := snd (HandleGeneration env model prompt images stream w) in
  db after = db w
  \/ exists token,
       In token (tokens (db w)) /\ IsActive token = true
       /\ writes_only (ID token) w after.
Proof.
  intros after. subst after.
  destruct (HandleGeneration_writes env model prompt images stream) as (work & -> & H).
  specialize (H w). rewrite snd_bind. cbv beta. by destruct (work w) as [out w1].
Qed.

(** X20.  The requests that use no credential.  A request for a model that
    is not in the table is answered with one error message, for a streamed
    request as for another; a request that is not streamed only says whether
    a credential is available; and a streamed request made when the store
    has no active credential is answered with the two messages of a failure.
    Each of them returns as said, closes the channel, puts no question
    upstream and leaves the store and the slot table as they were. *)
Theorem request_without_credential_changes_nothing
  (env : Env) (model prompt : string) (images : list (list Byte.byte)) (w : World) :
  (lookup_model model ModelConfigs = None ->
   forall stream,
     HandleGeneration env model prompt images stream w
     = (Returned (Some ("unsupported model: " +:+ model)),
        {| db := db w; concurrencyManager := concurrencyManager w;
           trace := trace w ++ [EvErrorResponse ("Unsupported model: " +:+ model);
                                EvClose] |}))
  /\ (forall modelConfig,
        lookup_model model ModelConfigs = Some modelConfig ->
        (exists message,
           HandleGeneration env model prompt images false w
           = (Returned None,
              {| db := db w; concurrencyManager := concurrencyManager w;
                 trace := trace w ++ [EvCompletionResponse message "" true; EvClose] |}))
        /\ (DB.GetActiveTokens (db w) = [] ->
            let errMsg := getNoTokenErrorMessage (Type_ modelConfig) in
            HandleGeneration env model prompt images true w
            = (Returned (Some errMsg),
               {| db := db w; concurrencyManager := concurrencyManager w;
                  trace := trace w ++ [EvStreamChunk (started modelConfig) "" false;
                                       EvStreamChunk ("❌ " +:+ errMsg +:+ nl) "" false;
                                       EvErrorResponse errMsg;
                                       EvClose] |}))).
Proof.
  split.
  - intros Hm stream. unfold HandleGeneration. rewrite Hm.
    cbv [bind sendErrorResponse emit ret]. cbn [db concurrencyManager trace].
    by rewrite <- app_assoc.
  - intros modelConfig Hm. split.
    + unfold HandleGeneration. rewrite Hm. cbn [negb]. cbv zeta. cbv [bind].
      rewrite SelectToken_unfold. cbv [emit ret]. cbn [db concurrencyManager trace fst].
      eexists. by rewrite <- app_assoc.
    + intros Hact errMsg. subst errMsg. unfold HandleGeneration. rewrite Hm. cbn [negb].
      cbv zeta. cbv [bind sendStreamChunk]. cbv [emit]. rewrite SelectToken_unfold.
      cbn [db concurrencyManager trace]. rewrite Hact. cbn [foldl fst].
      cbv [sendFailure sendStreamChunk sendErrorResponse bind emit ret].
      cbn [db concurrencyManager trace]. by rewrite <- !app_assoc.
Qed.

(** ** What a request records about its credential *)

Lemma UpdateToken_tokens_ext id updates d d' :
  tokens d = tokens d' ->
  tokens (DB.UpdateToken id updates d) = tokens (DB.UpdateToken id updates d').
Proof. intros H. unfold DB.UpdateToken. destruct updates; [done|]. cbn. by rewrite H. Qed.

Section Recorded.

Context (env : Env).

Lemma RecordUsage_recorded (id : Z) (isVideo : bool) (w : World) :
  let now := Now env (trace w) in
  let today := FormatDate env now in
  let count := if isVideo then DB.count_video else DB.count_image in
  let after := snd (RecordSuccess id (snd (RecordUsage env id isVideo w))) in
  tokens (db after) = tokens (DB.UpdateToken id [last_used_at now] (db w))
  /\ token_stats (db after)
     = alter (fun s => DB.clear_consecutive (count (DB.reset_today today s))) id
         (token_stats (db w))
  /\ admin_config (db after) = admin_config (db w)
  /\ concurrencyManager after = concurrencyManager w
  /\ trace after = trace w.
Proof.
  intros now today count after. subst after count today now.
  unfold RecordSuccess, RecordUsage, IncrementTokenStats, DB.IncrementTokenStats,
    DB.ResetErrorCount, bind, time_Now, modify_db, ret.
  cbn beta iota zeta. destruct isVideo; cbn; rewrite !alter_alter_eq; done.
Qed.

Lemma BanTokenFor429_recorded (id : Z) (w : World) :
  let now := Now env (trace w) in
  let after := snd (BanTokenFor429 env id w) in
  db after
  = DB.UpdateToken id [is_active false; ban_reason (Some "429_rate_limit");
                       banned_at (Some now)] (db w)
  /\ concurrencyManager after = concurrencyManager w
  /\ trace after = trace w.
Proof. done. Qed.

Lemma RecordError_recorded (id : Z) (w : World) :
  let today := FormatDate env (Now env (trace w)) in
  let after := snd (RecordError env id w) in
  token_stats (db after)
  = alter (fun s => DB.count_error (DB.reset_today today s)) id (token_stats (db w))
  /\ (tokens (db after) = tokens (db w)
      \/ tokens (db after) = disabled_rows id (tokens (db w)))
  /\ admin_config (db after) = admin_config (db w)
  /\ concurrencyManager after = concurrencyManager w
  /\ trace after = trace w.
Proof.
  intros today after. subst after today.
  unfold RecordError, bind. rewrite IncrementTokenStats_error.
  unfold get_db, DB.GetAdminConfig, DisableToken. run_M.
  cbn [db with_token_stats admin_config token_stats].
  destruct (admin_config (db w)) as [c|] eqn:Hc.
  2:{ cbn [snd db concurrencyManager trace with_token_stats token_stats tokens admin_config].
      split_and!; try done. by left. }
  destruct (ErrorBanThreshold c <=? _).
  - cbn [snd db concurrencyManager trace].
    rewrite UpdateToken_token_stats, UpdateToken_admin_config.
    cbn [with_token_stats token_stats tokens admin_config]. split_and!; try done. by right.
  - cbn [snd db concurrencyManager trace with_token_stats token_stats tokens admin_config].
    split_and!; try done. by left.
Qed.

(** What is done once the function of the handler has returned [out]. *)
Lemma closing (m : M Outcome) (w : World) :
  let run := (let* out := m in emit EvClose ;; ret out) w in
  fst run = fst (m w)
  /\ db (snd run) = db (snd (m w))
  /\ concurrencyManager (snd run) = concurrencyManager (snd (m w))
  /\ trace (snd run) = trace (snd (m w)) ++ [EvClose].
Proof. unfold bind, emit, ret. by destruct (m w). Qed.

End Recorded.

(** X22.  What a request that has reached its dispatch records about the
    credential.  The function of the handler writes no row of a credential
    and no statistics, so what is recorded is read off the store as it was at
    the dispatch.  After a success the credential is marked as used at the
    time the handler came back, the count of its kind, of its successes and
    of the day go up and its errors in a row end; after an error that names
    429 it is banned for the rate limit at that time, and no statistics are
    written; after another error the error is counted and the credential is
    left as it is or disabled, and after a panic nothing is recorded.  In
    every case the request ends as the handler did, and closes the channel
    last. *)
Theorem outcome_is_recorded
  (env : Env) (model prompt : string) (images : list (list Byte.byte))
  (w : World) (modelConfig : ModelConfig) (token : Token) (projectID : string) (w' : World) :
  dispatches env model w modelConfig token projectID w' ->
  let handled :=
    (if String.eqb (Type_ modelConfig) "image" then
       handleImageGeneration env token projectID modelConfig prompt images
     else handleVideoGeneration env token projectID modelConfig prompt images) w' in
  let run := HandleGeneration env model prompt images true w in
  let now := Now env (trace (snd handled)) in
  let today := FormatDate env now in
  let count :=
    if String.eqb (Type_ modelConfig) "video" then DB.count_video else DB.count_image in
  fst run = fst handled
  /\ trace (snd run) = trace (snd handled) ++ [EvClose]
  /\ concurrencyManager (snd run) = concurrencyManager (snd handled)
  /\ admin_config (db (snd run)) = admin_config (db w')
  /\ (fst handled = Panicked ->
      tokens (db (snd run)) = tokens (db w')
      /\ token_stats (db (snd run)) = token_stats (db w'))
  /\ (fst handled = Returned None ->
      tokens (db (snd run)) = tokens (DB.UpdateToken (ID token) [last_used_at now] (db w'))
      /\ token_stats (db (snd run))
         = alter (fun s => DB.clear_consecutive (count (DB.reset_today today s)))
             (ID token) (token_stats (db w')))
  /\ (forall e,
        fst handled = Returned (Some e) -> Contains e "429" = true ->
        tokens (db (snd run))
        = tokens (DB.UpdateToken (ID token)
                    [is_active false; ban_reason (Some "429_rate_limit");
                     banned_at (Some now)] (db w'))
        /\ token_stats (db (snd run)) = token_stats (db w'))
  /\ (forall e,
        fst handled = Returned (Some e) -> Contains e "429" = false ->
        token_stats (db (snd run))
        = alter (fun s => DB.count_error (DB.reset_today today s)) (ID token)
            (token_stats (db w'))
        /\ (tokens (db (snd run)) = tokens (db w')
            \/ tokens (db (snd run)) = disabled_rows (ID token) (tokens (db w')))).
Proof.
  intros Hd handled run now today count. subst run.
  rewrite (HandleGeneration_dispatched env model prompt images w modelConfig token
             projectID w' Hd).
  assert (same_rows w' (snd handled)) as (Ht & Hs & Ha).
  { subst handled. destruct (String.eqb (Type_ modelConfig) "image").
    - apply same_store_same_rows, handleImageGeneration_same_store.
    - apply handleVideoGeneration_same_rows. }
  rewrite bind_at. fold handled. cbv beta. subst count today now. clearbody handled.
  destruct handled as [genErr w3]. cbn [fst snd] in *.
  match goal with
  | |- context [(let* out := ?m in emit EvClose ;; ret out) w3] =>
      destruct (closing m w3) as (Hf & Hdb & Hcm0 & Htr0)
  end.
  cbv zeta in Hf, Hdb, Hcm0, Htr0.
  rewrite Hf, Hcm0, Htr0, !Hdb. clear Hf Hdb Hcm0 Htr0.
  destruct genErr as [[e|]|].
  - destruct (Contains e "429") eqn:H429.
    + destruct (BanTokenFor429_recorded env (ID token) w3) as (Hb & Hcm & Htr).
      rewrite !bind_at. cbv beta. unfold ret. cbn [fst snd]. rewrite Hb, Hcm, Htr.
      rewrite UpdateToken_token_stats, UpdateToken_admin_config, Hs, Ha.
      split_and!; try done; intros e' [= <-] H'; try congruence.
      split; [|done]. by apply UpdateToken_tokens_ext.
    + destruct (RecordError_recorded env (ID token) w3) as (Hst & Htk & Hac & Hcm & Htr).
      rewrite !bind_at. cbv beta. unfold ret. cbn [fst snd]. rewrite Hst, Hac, Hcm, Htr, Hs, Ha.
      split_and!; try done.
      all: intros e' [= <-] H'; try congruence.
      split; [done|]. rewrite <- Ht. by destruct Htk as [Htk|Htk]; [left|right].
  - destruct (RecordUsage_recorded env (ID token) (String.eqb (Type_ modelConfig) "video") w3)
      as (Htk & Hst & Hac & Hcm & Htr). cbv zeta in *.
    rewrite !bind_at. cbv beta. unfold ret. cbn [fst snd].
    rewrite Htk, Hst, Hac, Hcm, Htr, Hs, Ha. split_and!; try done.
    intros _. split; [|done]. by apply UpdateToken_tokens_ext.
  - cbn [ret fst snd]. by split_and!.
Qed.

Lemma outcome_is_recorded_witness :
  fst (HandleGeneration (Scenario.env_at 0 Scenario.config0)
         "gemini-2.5-flash-image-landscape" "a cat" [] true
         (Scenario.world_of [Scenario.refused_token]))
  = Returned (Some (limit_reached KImage)).
Proof.
  destruct (outcome_is_recorded (Scenario.env_at 0 Scenario.config0)
              "gemini-2.5-flash-image-landscape" "a cat" []
              (Scenario.world_of [Scenario.refused_token]) Scenario.refused_model
              Scenario.refused_token "project" Scenario.refused_world refused_dispatches)
    as [H _].
  rewrite H. vm_compute. reflexivity.
Defined.

(** ** The API key *)

Lemma cut_prefix_Some prefix : forall s rest,
  cut_prefix prefix s = Some rest <-> s = (prefix ++ rest)%string.
Proof.
  induction prefix as [|a prefix IH]; intros s rest; cbn.
  - split; [by intros [= ->]|by intros ->].
  - destruct s as [|b s]; [done|]. destruct (Ascii.eqb_spec a b) as [->|Hne].
    + rewrite IH. split; [by intros ->|by intros [= ->]].
    + split; [done|]. intros [= -> ->]. done.
Qed.

(** X21.  The middleware lets a request through exactly when its
    [Authorization] header is not empty and is the configured key behind
    [Bearer ], or the bare configured key, provided that key does not itself
    begin with [Bearer ]; a request without the header is refused as missing
    its authorization even when the configured key is empty, and every other
    one as having an invalid key. *)
Theorem authMiddleware_accepts (configured auth : string) :
  (authMiddleware configured auth = Next
   <-> auth <> ""
       /\ (auth = ("Bearer " ++ configured)%string
           \/ (auth = configured /\ cut_prefix "Bearer " configured = None)))
  /\ authMiddleware configured "" = StatusError 401 "Missing authorization"
  /\ (auth <> "" -> authMiddleware configured auth <> Next ->
      authMiddleware configured auth = StatusError 401 "Invalid API key").
Proof.
  unfold authMiddleware, TrimPrefix. split_and!.
  - destruct (String.eqb_spec auth "") as [->|Hne].
    { split; [done|]. by intros [? _]. }
    cbv zeta. destruct (cut_prefix "Bearer " auth) as [rest|] eqn:Hcut.
    + destruct (String.eqb_spec rest configured) as [->|Hr].
      * split; [|done]. intros _. split; [done|]. left. by apply cut_prefix_Some.
      * split; [done|]. intros [_ [H|[H Hc]]].
        -- apply cut_prefix_Some in H. congruence.
        -- subst auth. congruence.
    + destruct (String.eqb_spec auth configured) as [->|Hr].
      * split; [|done]. intros _. split; [done|]. by right.
      * split; [done|]. intros [_ [H|[H Hc]]]; [|done].
        apply cut_prefix_Some in H. congruence.
  - done.
  - intros Hne. destruct (String.eqb_spec auth "") as [->|_]; [done|]. cbv zeta.
    by destruct (negb _).
Qed.
